(** * opencode-ask-user: the file mailbox handshake between the [ask_user]
    tool (the Requester, [ask_user.ts]) and its terminal helper (the
    Responder, [ask-user-cli.ts]).

    Conventions of the embedding.

    - A JavaScript string is a [string]: a sequence of code units below 256.
      Texts with other code units are outside the model.
    - The mailbox directory [IPC_DIR] is a record with the directory's
      existence, its permissions and a finite map from file names to file
      texts (the text [readFileSync (_, "utf-8")] returns).
    - Code that touches the file system runs in a small state and exception
      monad [IO]; every [fs] call also appends an event to a ghost log.
    - [Date.now ()], [context.abort.aborted], the lines typed on stdin and
      what the other process does to the mailbox between two polls are
      inputs supplied by the environment.
    - Of the Responder's console output only the presentation of a question
      is kept, as an event: [printHeader], [printLine], the layout of
      [printQuestion] and [formatTime] print glyphs that are no such
      strings and a time in the format of the locale. The [SIGINT] handler is
      left out.
    - A file name stands for the file of that name in [IPC_DIR]. The paths
      the programs make are [path.join (IPC_DIR, name)], taken as POSIX
      paths; for a name made from an id without a path separator, as
      [generateQuestionId] makes them, that is the file [name] of the
      directory ([Paths], [PathFacts.path_join_response]). [Disk] is the
      Responder with [path.join] in place, for the ids it reads from request
      files.
    - An iteration of either loop is taken to run with no other process at
      work between its calls; [Amid] is the Requester with other processes
      at work between its calls.
    - An [fs] call fails for a missing file or directory and for a missing
      permission; other failures of a file system (a full disk, a name too
      long for it) are not modelled. *)

From Stdlib Require Import ZArith NArith Ascii String.
From Stdlib Require Import DecimalString DecimalN DecimalFacts.
From stdpp Require Import gmap strings list sorting.

Set Warnings "-register-all,-clear-no-such-hyp".
Local Open Scope Z_scope.

(** ** JavaScript string methods used by the two programs *)

Module JsString.

Definition code (c : ascii) : N := N_of_ascii c.

(** White space and line terminators removed by [String.prototype.trim],
    among the code units below 256. *)
Definition is_white_space (c : ascii) : bool :=
  let n := code c in
  ((9 <=? n) && (n <=? 13) || (n =? 32) || (n =? 160))%N.

Fixpoint trimStart (s : string) : string :=
  match s with
  | String c r => if is_white_space c then trimStart r else s
  | EmptyString => EmptyString
  end.

Definition trimEnd (s : string) : string :=
  String.rev (trimStart (String.rev s)).

Definition trim (s : string) : string := trimEnd (trimStart s).

(** [toLowerCase] on code units below 256: A-Z and the Latin-1 capitals
    (all of 0xC0-0xDE but the multiplication sign) move up by 32. *)
Definition lower_char (c : ascii) : ascii :=
  let n := code c in
  if ((65 <=? n) && (n <=? 90)
      || (192 <=? n) && (n <=? 222) && negb (n =? 215))%N
  then ascii_of_N (n + 32) else c.

Fixpoint toLowerCase (s : string) : string :=
  match s with
  | String c r => String (lower_char c) (toLowerCase r)
  | EmptyString => EmptyString
  end.

Definition startsWith (s p : string) : bool := String.prefix p s.

Definition endsWith (s p : string) : bool :=
  String.prefix (String.rev p) (String.rev s).

(** [lines.join(sep)] *)
Definition join (sep : string) (l : list string) : string :=
  String.concat sep l.

(** Decimal rendering of a non-negative integer, as in a template literal
    or in [JSON.stringify]. *)
Definition decimal (n : N) : string :=
  NilEmpty.string_of_uint (N.to_uint n).

Definition of_Z (z : Z) : string :=
  if z <? 0 then String "-" (decimal (Z.abs_N z)) else decimal (Z.to_N z).

End JsString.

(** ** JSON values, [JSON.stringify (_, null, 2)] and [JSON.parse] *)

Module Json.

Inductive json : Type :=
| JNull
| JBool (b : bool)
| JNum (n : Z)
| JStr (s : string)
| JArr (l : list json)
| JObj (m : list (string * json)).

(** Result of a parse: a value, the [SyntaxError] that [JSON.parse] throws,
    or a text the model does not interpret (a number with a fraction or an
    exponent, an escape for a code unit above 255). *)
Inductive parsed (A : Type) : Type :=
| POk (a : A)
| PSyntaxError
| PUnmodelled.
Arguments POk {A} a.
Arguments PSyntaxError {A}.
Arguments PUnmodelled {A}.

Definition pbind {A B} (x : parsed A) (f : A -> parsed B) : parsed B :=
  match x with
  | POk a => f a
  | PSyntaxError => PSyntaxError
  | PUnmodelled => PUnmodelled
  end.

(** *** Printing *)

Definition hex_digit (n : N) : ascii :=
  (if n <? 10 then ascii_of_N (48 + n) else ascii_of_N (87 + n))%N.

(** QuoteJSONString, one code unit. *)
Definition escape_char (c : ascii) : string :=
  let n := N_of_ascii c in
  if (n =? 8)%N then "\b"
  else if (n =? 9)%N then "\t"
  else if (n =? 10)%N then "\n"
  else if (n =? 12)%N then "\f"
  else if (n =? 13)%N then "\r"
  else if (n =? 34)%N then String "\" (String "034" "")
  else if (n =? 92)%N then "\\"
  else if (n <? 32)%N then
    String "\" (String "u" (String "0" (String "0"
      (String (hex_digit (n / 16)) (String (hex_digit (n mod 16)) "")))))
  else String c "".

Fixpoint escape (s : string) : string :=
  match s with
  | String c r => escape_char c +:+ escape r
  | EmptyString => EmptyString
  end.

Definition quote (s : string) : string :=
  String "034" (escape s +:+ String "034" "").

Definition print_bool (b : bool) : string :=
  if b then "true" else "false".

(** The values the members of the program's records have. *)
Inductive scalar : Type :=
| SStr (s : string)
| SBool (b : bool)
| SNum (n : Z).

Definition print_scalar (v : scalar) : string :=
  match v with
  | SStr s => quote s
  | SBool b => print_bool b
  | SNum n => JsString.of_Z n
  end.

Definition json_of_scalar (v : scalar) : json :=
  match v with
  | SStr s => JStr s
  | SBool b => JBool b
  | SNum n => JNum n
  end.

(** [JSON.stringify (o, null, 2)] of an object [o] whose members are
    scalars: one member per line, indented by two spaces. *)
Fixpoint print_members (ms : list (string * scalar)) : string :=
  match ms with
  | [] => ""
  | (k, v) :: rest =>
      String "010" ("  " +:+ quote k +:+ ": " +:+ print_scalar v
        +:+ match rest with
            | [] => ""
            | _ :: _ => String "," (print_members rest)
            end)
  end.

Definition print_object (ms : list (string * scalar)) : string :=
  match ms with
  | [] => "{}"
  | _ :: _ => String "{" (print_members ms +:+ String "010" "}")
  end.

Definition json_of_object (ms : list (string * scalar)) : json :=
  JObj (map (fun '(k, v) => (k, json_of_scalar v)) ms).

(** *** Parsing *)

Definition is_ws (c : ascii) : bool :=
  let n := N_of_ascii c in
  ((n =? 32) || (n =? 9) || (n =? 10) || (n =? 13))%N.

Fixpoint skip_ws (s : string) : string :=
  match s with
  | String c r => if is_ws c then skip_ws r else s
  | EmptyString => EmptyString
  end.

Definition is_digit (c : ascii) : bool :=
  let n := N_of_ascii c in ((48 <=? n) && (n <=? 57))%N.

Definition hex_value (c : ascii) : option N :=
  let n := N_of_ascii c in
  if ((48 <=? n) && (n <=? 57))%N then Some (n - 48)%N
  else if ((97 <=? n) && (n <=? 102))%N then Some (n - 87)%N
  else if ((65 <=? n) && (n <=? 70))%N then Some (n - 55)%N
  else None.

Definition hex4 (a b c d : ascii) : option N :=
  match hex_value a, hex_value b, hex_value c, hex_value d with
  | Some x, Some y, Some z, Some w => Some (((x * 16 + y) * 16 + z) * 16 + w)%N
  | _, _, _, _ => None
  end.

Definition unescape (c : ascii) : option ascii :=
  let n := N_of_ascii c in
  if (n =? 34)%N then Some "034"%char
  else if (n =? 92)%N then Some "\"%char
  else if (n =? 47)%N then Some "/"%char
  else if (n =? 98)%N then Some "008"%char
  else if (n =? 102)%N then Some "012"%char
  else if (n =? 110)%N then Some "010"%char
  else if (n =? 114)%N then Some "013"%char
  else if (n =? 116)%N then Some "009"%char
  else None.

Definition pcons (c : ascii) (x : parsed (string * string))
  : parsed (string * string) :=
  pbind x (fun '(t, r) => POk (String c t, r)).

(** The characters of a string literal after its opening quote, up to and
    including the closing quote. *)
Fixpoint parse_chars (s : string) : parsed (string * string) :=
  match s with
  | EmptyString => PSyntaxError
  | String c r =>
      if Ascii.eqb c "034" then POk (EmptyString, r)
      else if Ascii.eqb c "\" then
        match r with
        | EmptyString => PSyntaxError
        | String e r1 =>
            if Ascii.eqb e "u" then
              match r1 with
              | String h1 (String h2 (String h3 (String h4 r2))) =>
                  match hex4 h1 h2 h3 h4 with
                  | Some n =>
                      if (n <? 256)%N then pcons (ascii_of_N n) (parse_chars r2)
                      else PUnmodelled
                  | None => PSyntaxError
                  end
              | _ => PSyntaxError
              end
            else
              match unescape e with
              | Some d => pcons d (parse_chars r1)
              | None => PSyntaxError
              end
        end
      else if (N_of_ascii c <? 32)%N then PSyntaxError
      else pcons c (parse_chars r)
  end.

Fixpoint span_digits (s : string) : string * string :=
  match s with
  | String c r =>
      if is_digit c then let '(ds, r') := span_digits r in (String c ds, r')
      else (EmptyString, s)
  | EmptyString => (EmptyString, EmptyString)
  end.

Definition parse_digits (s : string) : parsed (N * string) :=
  let '(ds, r) := span_digits s in
  match ds with
  | EmptyString => PSyntaxError
  | String d ds' =>
      if Ascii.eqb d "0" && negb (String.eqb ds' "") then PSyntaxError
      else
        match NilEmpty.uint_of_string ds with
        | Some u =>
            match r with
            | String c _ =>
                if Ascii.eqb c "." || Ascii.eqb c "e" || Ascii.eqb c "E"
                then PUnmodelled else POk (N.of_uint u, r)
            | EmptyString => POk (N.of_uint u, r)
            end
        | None => PSyntaxError
        end
  end.

Definition parse_number (s : string) : parsed (Z * string) :=
  match s with
  | String c r =>
      if Ascii.eqb c "-"
      then pbind (parse_digits r) (fun '(n, r') => POk (- Z.of_N n, r'))
      else pbind (parse_digits s) (fun '(n, r') => POk (Z.of_N n, r'))
  | EmptyString => PSyntaxError
  end.

Fixpoint strip_prefix (p s : string) : option string :=
  match p with
  | EmptyString => Some s
  | String a p' =>
      match s with
      | String b s' => if Ascii.eqb a b then strip_prefix p' s' else None
      | EmptyString => None
      end
  end.

Definition parse_literal (lit : string) (v : json) (s : string)
  : parsed (json * string) :=
  match strip_prefix lit s with
  | Some r => POk (v, r)
  | None => PSyntaxError
  end.

Fixpoint parse_value (fuel : nat) (s : string) {struct fuel}
  : parsed (json * string) :=
  match fuel with
  | O => PUnmodelled
  | S f =>
      match skip_ws s with
      | EmptyString => PSyntaxError
      | String c r as s0 =>
          if Ascii.eqb c "{" then
            match skip_ws r with
            | String "}" r' => POk (JObj [], r')
            | _ => parse_members f r []
            end
          else if Ascii.eqb c "[" then
            match skip_ws r with
            | String "]" r' => POk (JArr [], r')
            | _ => parse_elements f r []
            end
          else if Ascii.eqb c "034" then
            pbind (parse_chars r) (fun '(t, r') => POk (JStr t, r'))
          else if Ascii.eqb c "t" then parse_literal "true" (JBool true) s0
          else if Ascii.eqb c "f" then parse_literal "false" (JBool false) s0
          else if Ascii.eqb c "n" then parse_literal "null" JNull s0
          else if Ascii.eqb c "-" || is_digit c then
            pbind (parse_number s0) (fun '(n, r') => POk (JNum n, r'))
          else PSyntaxError
      end
  end
with parse_elements (fuel : nat) (s : string) (acc : list json) {struct fuel}
  : parsed (json * string) :=
  match fuel with
  | O => PUnmodelled
  | S f =>
      pbind (parse_value f s) (fun '(v, r) =>
        match skip_ws r with
        | String "," r' => parse_elements f r' (acc ++ [v])
        | String "]" r' => POk (JArr (acc ++ [v]), r')
        | _ => PSyntaxError
        end)
  end
with parse_members (fuel : nat) (s : string) (acc : list (string * json))
       {struct fuel} : parsed (json * string) :=
  match fuel with
  | O => PUnmodelled
  | S f =>
      match skip_ws s with
      | String "034" r =>
          pbind (parse_chars r) (fun '(k, r1) =>
            match skip_ws r1 with
            | String ":" r2 =>
                pbind (parse_value f r2) (fun '(v, r3) =>
                  match skip_ws r3 with
                  | String "," r4 => parse_members f r4 (acc ++ [(k, v)])
                  | String "}" r4 => POk (JObj (acc ++ [(k, v)]), r4)
                  | _ => PSyntaxError
                  end)
            | _ => PSyntaxError
            end)
      | _ => PSyntaxError
      end
  end.

(** Characters that may follow a number, and those that follow a member of
    a printed object. *)
Definition ends_number (c : ascii) : bool :=
  negb (is_digit c || Ascii.eqb c "." || Ascii.eqb c "e" || Ascii.eqb c "E").

Definition ends_member (c : ascii) : bool :=
  Ascii.eqb c "," || Ascii.eqb c "010".

(** [JSON.parse (text)] *)
Definition parse (text : string) : parsed json :=
  pbind (parse_value (S (String.length text)) text) (fun '(v, r) =>
    match skip_ws r with
    | EmptyString => POk v
    | _ => PSyntaxError
    end).

(** *** Reading a parsed value the way JavaScript does *)

(** Own property [k] of an object; the last of several equal keys wins. *)
Fixpoint lookup_last (k : string) (m : list (string * json)) : option json :=
  match m with
  | [] => None
  | (k', v) :: rest =>
      match lookup_last k rest with
      | Some w => Some w
      | None => if String.eqb k k' then Some v else None
      end
  end.

(** [v.k] for a property name that no primitive or array carries:
    [None] is [undefined], [null.k] is a [TypeError]. *)
Definition get_prop (v : json) (k : string) : option (option json) :=
  match v with
  | JNull => None
  | JObj m => Some (lookup_last k m)
  | _ => Some None
  end.

(** ToBoolean *)
Definition truthy (v : option json) : bool :=
  match v with
  | None | Some JNull => false
  | Some (JBool b) => b
  | Some (JNum n) => negb (n =? 0)
  | Some (JStr s) => negb (String.eqb s "")
  | Some (JArr _) | Some (JObj _) => true
  end.

End Json.
Export Json(json(..), parsed(..)).

(** ** The two records exchanged through the mailbox *)

(** [interface Question] *)
Record Question : Type := mkQuestion {
  q_id : string;
  q_question : string;
  q_title : option string;
  q_sessionID : string;
  q_messageID : string;
  q_timestamp : Z
}.

(** [interface Response] *)
Record Response : Type := mkResponse {
  r_id : string;
  r_response : string;
  r_responded : bool;
  r_timestamp : Z
}.

Module Codec.
Import Json.

Definition Question_members (q : Question) : list (string * scalar) :=
  [("id", SStr (q_id q)); ("question", SStr (q_question q))]
  ++ match q_title q with Some t => [("title", SStr t)] | None => [] end
  ++ [("sessionID", SStr (q_sessionID q));
      ("messageID", SStr (q_messageID q));
      ("timestamp", SNum (q_timestamp q))].

(** [JSON.stringify (questionData, null, 2)]; an undefined [title] is left
    out. *)
Definition stringify_Question (q : Question) : string :=
  print_object (Question_members q).

Definition Response_members (r : Response) : list (string * scalar) :=
  [("id", SStr (r_id r)); ("response", SStr (r_response r));
   ("responded", SBool (r_responded r));
   ("timestamp", SNum (r_timestamp r))].

(** [JSON.stringify (responseData, null, 2)] *)
Definition stringify_Response (r : Response) : string :=
  print_object (Response_members r).

Definition json_of_Response (r : Response) : json :=
  json_of_object (Response_members r).

(** The value of type [Question] that a parsed text denotes, if it has
    that type: [id], [question] and [sessionID] are strings, [title] is a
    string or absent. Of [messageID] and [timestamp] the Responder makes
    no use that depends on their type. *)
Definition as_string (v : option json) : option string :=
  match v with Some (JStr s) => Some s | _ => None end.

Definition as_question (v : json) : option Question :=
  match v with
  | JObj m =>
      match as_string (lookup_last "id" m),
            as_string (lookup_last "question" m),
            as_string (lookup_last "sessionID" m) with
      | Some i, Some q, Some s =>
          let mid := default "" (as_string (lookup_last "messageID" m)) in
          let ts := match lookup_last "timestamp" m with
                    | Some (JNum n) => n | _ => 0 end in
          match lookup_last "title" m with
          | None => Some (mkQuestion i q None s mid ts)
          | Some (JStr t) => Some (mkQuestion i q (Some t) s mid ts)
          | Some _ => None
          end
      | _, _, _ => None
      end
  | _ => None
  end.

End Codec.

(** ** The world of one process: mailbox directory, clock, abort signal,
    terminal input and the ghost log of what the process did *)

Module World.

(** The directory [IPC_DIR] when it exists. [writable] stands for the right to
    create, replace and remove its files, [listable] for the right to list
    it. *)
Record Dir : Type := mkDir {
  listable : bool;
  writable : bool;
  files : gmap string string
}.

Inductive errno : Type := ENOENT | EACCES.

(** A thrown JavaScript exception. *)
Inductive exn : Type :=
| FsError (code : errno) (file : string)
| SyntaxError
| TypeError.

(** Calls made by the process, in the order made; a call of [unlinkSync] is
    logged with the error it ended in, if any. *)
Inductive event : Type :=
| EvExistsDir
| EvMkdir
| EvReaddir
| EvExists (file : string)
| EvRead (file : string)
| EvWrite (file text : string)
| EvUnlink (file : string) (failure : option errno)
| EvPresent (q : Question)
| EvConsoleError (e : exn).

Record world : Type := mkWorld {
  mailbox : option Dir;
  clock : Z;
  aborted : bool;
  stdin : list string;
  log : list event
}.

(** Ways a run stops that no [catch] of the program sees. *)
Inductive halt : Type :=
| AwaitingLine
| UncaughtException (e : exn)
| Exit (status : Z)
| Unmodelled.

Inductive res (A : Type) : Type :=
| Val (a : A)
| Throw (e : exn)
| Halt (h : halt).
Arguments Val {A} a.
Arguments Throw {A} e.
Arguments Halt {A} h.

Definition IO (A : Type) : Type := world -> res A * world.

Definition ret {A} (a : A) : IO A := fun w => (Val a, w).

Definition bind {A B} (m : IO A) (k : A -> IO B) : IO B :=
  fun w =>
    match m w with
    | (Val a, w') => k a w'
    | (Throw e, w') => (Throw e, w')
    | (Halt h, w') => (Halt h, w')
    end.

Definition throw {A} (e : exn) : IO A := fun w => (Throw e, w).

Definition stop {A} (h : halt) : IO A := fun w => (Halt h, w).

(** [try { m } catch (e) { handler e }] *)
Definition try_catch {A} (m : IO A) (handler : exn -> IO A) : IO A :=
  fun w =>
    match m w with
    | (Throw e, w') => handler e w'
    | r => r
    end.

Declare Scope io_scope.
Delimit Scope io_scope with io.
Notation "x <- m ;; k" := (bind m (fun x => k))
  (at level 100, m at next level, right associativity) : io_scope.
Notation "m ;; k" := (bind m (fun _ => k))
  (at level 100, right associativity) : io_scope.
Local Open Scope io_scope.

Definition logged (evs : list event) (w : world) : world :=
  mkWorld (mailbox w) (clock w) (aborted w) (stdin w) (log w ++ evs).

Definition with_mailbox (m : option Dir) (w : world) : world :=
  mkWorld m (clock w) (aborted w) (stdin w) (log w).

Definition with_stdin (input : list string) (w : world) : world :=
  mkWorld (mailbox w) (clock w) (aborted w) input (log w).

Definition emit (e : event) : IO unit := fun w => (Val tt, logged [e] w).

Definition set_mailbox (m : option Dir) : IO unit :=
  fun w => (Val tt, with_mailbox m w).

(** The text of [file] in the mailbox, if the file exists. *)
Definition file_of (m : option Dir) (file : string) : option string :=
  match m with
  | Some d => files d !! file
  | None => None
  end.

Definition put_file (file text : string) (d : Dir) : Dir :=
  mkDir (listable d) (writable d) (<[file := text]> (files d)).

Definition remove_file (file : string) (d : Dir) : Dir :=
  mkDir (listable d) (writable d) (delete file (files d)).

Definition get_mailbox : IO (option Dir) := fun w => (Val (mailbox w), w).

(** [Date.now ()] *)
Definition Date_now : IO Z := fun w => (Val (clock w), w).

(** [context.abort.aborted] *)
Definition abort_aborted : IO bool := fun w => (Val (aborted w), w).

(** *** [fs] *)

(** [fs.existsSync (IPC_DIR)] *)
Definition existsSync_dir : IO bool :=
  emit EvExistsDir ;;
  m <- get_mailbox ;;
  ret (match m with Some _ => true | None => false end).

(** [fs.mkdirSync (IPC_DIR, { recursive: true })] *)
Definition mkdirSync : IO unit :=
  emit EvMkdir ;;
  m <- get_mailbox ;;
  match m with
  | Some _ => ret tt
  | None => set_mailbox (Some (mkDir true true ∅))
  end.

(** [fs.readdirSync (IPC_DIR)] *)
Definition readdirSync : IO (list string) :=
  emit EvReaddir ;;
  m <- get_mailbox ;;
  match m with
  | None => throw (FsError ENOENT "")
  | Some d =>
      if listable d then ret (map fst (map_to_list (files d)))
      else throw (FsError EACCES "")
  end.

(** [fs.existsSync (path.join (IPC_DIR, file))]: never throws. *)
Definition existsSync (file : string) : IO bool :=
  emit (EvExists file) ;;
  m <- get_mailbox ;;
  ret (match m with
       | Some d => bool_decide (is_Some (files d !! file))
       | None => false
       end).

(** [fs.readFileSync (path.join (IPC_DIR, file), "utf-8")] *)
Definition readFileSync (file : string) : IO string :=
  emit (EvRead file) ;;
  m <- get_mailbox ;;
  match m with
  | None => throw (FsError ENOENT file)
  | Some d =>
      match files d !! file with
      | Some text => ret text
      | None => throw (FsError ENOENT file)
      end
  end.

(** The mailbox without [file]. *)
Definition without (file : string) (m : option Dir) : option Dir :=
  remove_file file <$> m.

(** The process may create, replace and remove files: the directory, if
    there is one, is writable. *)
Definition permits_changes (m : option Dir) : bool :=
  match m with
  | Some d => writable d
  | None => true
  end.

(** [fs.writeFileSync (path.join (IPC_DIR, file), text)] *)
Definition writeFileSync (file text : string) : IO unit :=
  emit (EvWrite file text) ;;
  m <- get_mailbox ;;
  match m with
  | None => throw (FsError ENOENT file)
  | Some d =>
      if writable d then set_mailbox (Some (put_file file text d))
      else throw (FsError EACCES file)
  end.

(** [fs.unlinkSync (path.join (IPC_DIR, file))]: a missing file is an
    error. *)
Definition unlinkSync (file : string) : IO unit :=
  m <- get_mailbox ;;
  match m with
  | None => emit (EvUnlink file (Some ENOENT)) ;; throw (FsError ENOENT file)
  | Some d =>
      match files d !! file with
      | None => emit (EvUnlink file (Some ENOENT)) ;; throw (FsError ENOENT file)
      | Some _ =>
          if writable d
          then emit (EvUnlink file None) ;; set_mailbox (Some (remove_file file d))
          else emit (EvUnlink file (Some EACCES)) ;; throw (FsError EACCES file)
      end
  end.

(** [JSON.parse (text)] as a call of the program. *)
Definition JSON_parse (text : string) : IO json :=
  match Json.parse text with
  | POk v => ret v
  | PSyntaxError => throw SyntaxError
  | PUnmodelled => stop Unmodelled
  end.

(** *** The rest of the system *)

(** What happens to the process's surroundings while it is suspended in
    [await new Promise (resolve => setTimeout (resolve, POLL_INTERVAL_MS))]:
    other processes change the mailbox, time passes, the agent may abort. *)
Record interval : Type := mkInterval {
  others : option Dir -> option Dir;
  clock_after : Z;
  aborted_after : bool
}.

Definition during (i : interval) (w : world) : world :=
  mkWorld (others i (mailbox w)) (clock_after i) (aborted_after i)
          (stdin w) (log w).

Definition sleep (i : interval) : IO unit := fun w => (Val tt, during i w).

(** *** Statements about the log *)

(** Every run of [m] takes a world to one related to it by [R]. *)
Definition steps {A} (R : relation world) (m : IO A) : Prop :=
  forall w, R w (snd (m w)).

(** The log has grown, by events satisfying [P] only. *)
Definition appends (P : event -> Prop) : relation world :=
  fun w w' => exists evs, log w' = log w ++ evs /\ Forall P evs.

(** A run of [m] only appends to the log, and only events satisfying [P]. *)
Definition emits {A} (P : event -> Prop) (m : IO A) : Prop :=
  steps (appends P) m.

(** An interval in which no other process changes the mailbox. *)
Definition quiet (i : interval) : Prop := forall m, others i m = m.

(** A call of [unlinkSync] that found no file. *)
Definition found_no_file (e : event) : Prop :=
  exists f, e = EvUnlink f (Some ENOENT).

(** The error of an operation the directory's permissions refuse. *)
Definition denied (e : exn) : Prop := exists f, e = FsError EACCES f.

End World.
Export World(Dir(..), errno(..), exn(..), event(..), world(..), halt(..), res(..), interval(..)).

(** ** File names of the mailbox *)

Module Ipc.

(** [`question_${questionId}.json`] *)
Definition question_file (questionId : string) : string :=
  "question_" +:+ questionId +:+ ".json".

(** [`response_${questionId}.json`] *)
Definition response_file (questionId : string) : string :=
  "response_" +:+ questionId +:+ ".json".

Definition POLL_INTERVAL_MS : Z := 500.

(** [ensureIpcDir] *)
Definition ensureIpcDir : World.IO unit :=
  World.bind World.existsSync_dir
    (fun b => if b then World.ret tt else World.mkdirSync).

End Ipc.

(** ** The Requester: [execute] of the [ask_user] tool *)

Module Requester.
Import World Ipc.
Local Open Scope io_scope.

Definition DEFAULT_TIMEOUT_SEC : Z := 300.

(** [generateQuestionId]; [random] stands for
    [Math.random ().toString (36).substring (2, 9)]. *)
Definition generateQuestionId (random : string) : IO string :=
  timestamp <- Date_now ;;
  ret ("q_" +:+ JsString.of_Z timestamp +:+ "_" +:+ random).

Record Args : Type := mkArgs {
  question : string;
  title : option string;
  timeout : option Z
}.

Record Context : Type := mkContext {
  sessionID : string;
  messageID : string
}.

(** The object whose [JSON.stringify] the tool returns. A [response] of
    [None] and a [reason] of [None] are keys the object does not have. *)
Record ToolResult : Type := mkResult {
  responded : bool;
  response : option json;
  cancelled : bool;
  reason : option string
}.

Definition aborted_result : ToolResult :=
  mkResult false (Some (JStr "")) true (Some "Agent aborted the request").

Definition timeout_result (timeoutSec : Z) : ToolResult :=
  mkResult false (Some (JStr "")) true
    (Some ("Timeout after " +:+ JsString.of_Z timeoutSec
           +:+ " seconds waiting for user response")).

Definition user_cancelled_result : ToolResult :=
  mkResult false (Some (JStr "")) true (Some "User cancelled the request").

Definition answered_result (text : option json) : ToolResult :=
  mkResult true text false None.

(** [if (fs.existsSync (file)) { fs.unlinkSync (file) }] *)
Definition unlink_if_exists (file : string) : IO unit :=
  b <- existsSync file ;;
  if b then unlinkSync file else ret tt.

(** [responseData.key]: a [TypeError] on [null]. *)
Definition property (data : json) (key : string) : IO (option json) :=
  match Json.get_prop data key with
  | Some v => ret v
  | None => throw TypeError
  end.

(** One iteration of [while (true)], up to the wait: [Some result] when the
    iteration returns from [execute], [None] when it reaches the wait. *)
Definition tick (questionFile responseFile : string)
    (timeoutSec timeoutMs startTime : Z) : IO (option ToolResult) :=
  a <- abort_aborted ;;
  if a then
    unlink_if_exists questionFile ;;
    ret (Some aborted_result)
  else
    now <- Date_now ;;
    if now - startTime >? timeoutMs then
      unlink_if_exists questionFile ;;
      ret (Some (timeout_result timeoutSec))
    else
      present <- existsSync responseFile ;;
      if present then
        try_catch
          (text <- readFileSync responseFile ;;
           responseData <- JSON_parse text ;;
           unlink_if_exists questionFile ;;
           unlinkSync responseFile ;;
           r <- property responseData "responded" ;;
           if Json.truthy r then
             t <- property responseData "response" ;;
             ret (Some (answered_result t))
           else ret (Some user_cancelled_result))
          (fun _ => ret None)
      else ret None.

(** The polling loop, run for as long as [naps] lasts: [None] when the loop is
    still waiting after the last of them. *)
Fixpoint poll (questionFile responseFile : string)
    (timeoutSec timeoutMs startTime : Z) (naps : list interval)
    : IO (option ToolResult) :=
  r <- tick questionFile responseFile timeoutSec timeoutMs startTime ;;
  match r with
  | Some result => ret (Some result)
  | None =>
      match naps with
      | [] => ret None
      | nap :: rest =>
          sleep nap ;;
          poll questionFile responseFile timeoutSec timeoutMs startTime rest
      end
  end.

(** The [try { while (true) ... } catch (error) { ... throw error }] of
    [execute], for an id already chosen. *)
Definition await_response (questionId : string) (timeoutSec startTime : Z)
    (naps : list interval) : IO (option ToolResult) :=
  let questionFile := question_file questionId in
  let responseFile := response_file questionId in
  try_catch
    (poll questionFile responseFile timeoutSec (timeoutSec * 1000) startTime naps)
    (fun error =>
       unlink_if_exists questionFile ;;
       unlink_if_exists responseFile ;;
       throw error).

Definition execute (args : Args) (context : Context) (random : string)
    (naps : list interval) : IO (option ToolResult) :=
  ensureIpcDir ;;
  questionId <- generateQuestionId random ;;
  let timeoutSec := default DEFAULT_TIMEOUT_SEC (timeout args) in
  timestamp <- Date_now ;;
  let questionData :=
    mkQuestion questionId (question args) (title args)
               (sessionID context) (messageID context) timestamp in
  writeFileSync (question_file questionId) (Codec.stringify_Question questionData) ;;
  startTime <- Date_now ;;
  await_response questionId timeoutSec startTime naps.

(** *** Statements about the Requester *)

(** [w1] is a world in which an iteration of the loop run from [w] over
    [naps] begins: [w] itself, or the world after one of the waits, all
    iterations before it having reached the wait. *)
Definition iteration_begins (questionFile responseFile : string)
    (timeoutSec timeoutMs startTime : Z) (naps : list interval)
    (w w1 : world) : Prop :=
  w1 = w
  \/ exists pre nap post w0,
       naps = pre ++ nap :: post
       /\ poll questionFile responseFile timeoutSec timeoutMs startTime pre w
          = (Val None, w0)
       /\ w1 = during nap w0.

End Requester.

(** ** The Responder: the terminal helper [ask-user-cli.ts] *)

Module Responder.
Import World Ipc.
Local Open Scope io_scope.

Definition is_question_file (f : string) : bool :=
  JsString.startsWith f "question_" && JsString.endsWith f ".json".

(** The body of [for (const file of files)] in [getPendingQuestions]: a file
    that cannot be read or parsed is skipped. *)
Fixpoint read_questions (files : list string) : IO (list json) :=
  match files with
  | [] => ret []
  | file :: rest =>
      r <- try_catch
             (text <- readFileSync file ;;
              data <- JSON_parse text ;;
              ret (Some data))
             (fun _ => ret None) ;;
      questions <- read_questions rest ;;
      ret (match r with Some data => data :: questions | None => questions end)
  end.

Definition getPendingQuestions : IO (list json) :=
  ensureIpcDir ;;
  names <- readdirSync ;;
  read_questions (merge_sort String.le (filter (fun f => is_question_file f = true) names)).

Definition writeResponse (questionId response : string) (responded : bool)
    : IO unit :=
  timestamp <- Date_now ;;
  writeFileSync (response_file questionId)
    (Codec.stringify_Response (mkResponse questionId response responded timestamp)).

Definition printQuestion (question : Question) : IO unit :=
  emit (EvPresent question).

(** The callback of [rl.question] over the lines typed from now on: the
    collected [lines] and the input left when the answer is submitted, [None]
    when the input ends first. *)
Fixpoint prompt (lines : list string) (emptyLineCount : nat)
    (input : list string) : option (list string * list string) :=
  match input with
  | [] => None
  | line :: rest =>
      if String.eqb line "" then
        let emptyLineCount := S emptyLineCount in
        if (1 <=? emptyLineCount)%nat && (0 <? length lines)%nat
        then Some (lines, rest)
        else prompt lines emptyLineCount rest
      else prompt (lines ++ [line]) 0%nat rest
  end.

Definition read_answer : IO (list string) :=
  fun w =>
    match prompt [] 0%nat (stdin w) with
    | Some (lines, rest) => (Val lines, with_stdin rest w)
    | None => (Halt AwaitingLine, with_stdin [] w)
    end.

(** Code run inside the [rl.question] callback: what it throws is caught by
    nothing and ends the process. *)
Definition in_callback {A} (m : IO A) : IO A :=
  fun w =>
    match m w with
    | (Throw e, w') => (Halt (UncaughtException e), w')
    | r => r
    end.

Definition newline : string := String "010" "".

(** The text an answer of [lines] is submitted as. *)
Definition answer_text (lines : list string) : string :=
  JsString.trim (JsString.join newline lines).

Definition promptUser (question : Question) : IO unit :=
  lines <- read_answer ;;
  in_callback
    (let response := answer_text lines in
     if String.eqb (JsString.toLowerCase response) "cancel"
     then writeResponse (q_id question) "" false
     else writeResponse (q_id question) response true).

(** [for (const question of questions)] in [main]. A parsed value that is
    not of type [Question] is outside the model. *)
Fixpoint serve (questions : list json) (processedQuestions : gset string)
    : IO (gset string) :=
  match questions with
  | [] => ret processedQuestions
  | data :: rest =>
      match Codec.as_question data with
      | None => stop Unmodelled
      | Some question =>
          if decide (q_id question ∈ processedQuestions)
          then serve rest processedQuestions
          else
            let processedQuestions := {[q_id question]} ∪ processedQuestions in
            printQuestion question ;;
            promptUser question ;;
            serve rest processedQuestions
      end
  end.

(** The body of [while (true)] in [main], up to the wait. *)
Definition iteration (processedQuestions : gset string) : IO (gset string) :=
  questions <- getPendingQuestions ;;
  serve questions processedQuestions.

(** [while (true)] of [main], run for as long as [naps] lasts. *)
Fixpoint main_loop (processedQuestions : gset string) (naps : list interval)
    : IO (gset string) :=
  processedQuestions <- iteration processedQuestions ;;
  match naps with
  | [] => ret processedQuestions
  | nap :: rest => sleep nap ;; main_loop processedQuestions rest
  end.

(** [main ().catch (error => { console.error (...); process.exit (1) })] *)
Definition main (naps : list interval) : IO (gset string) :=
  try_catch (main_loop ∅ naps)
    (fun error => emit (EvConsoleError error) ;; stop (Exit 1)).

(** *** Statements about the Responder *)

(** The reply record [promptUser] writes for an answer of [lines]. *)
Definition reply_to (q : Question) (lines : list string) (now : Z) : Response :=
  let response := answer_text lines in
  if String.eqb (JsString.toLowerCase response) "cancel"
  then mkResponse (q_id q) "" false now
  else mkResponse (q_id q) response true now.

(** What the Responder calls. *)
Definition responder_event (e : event) : Prop :=
  match e with
  | EvExistsDir | EvMkdir | EvReaddir | EvRead _ | EvPresent _
  | EvConsoleError _ => True
  | EvWrite f _ => exists id, f = response_file id
  | EvExists _ | EvUnlink _ _ => False
  end.

(** Every file of [m] is still in [m'], with its text unless it is a reply
    record. *)
Definition only_replies_written (m m' : option Dir) : Prop :=
  forall f t, file_of m f = Some t ->
    is_Some (file_of m' f)
    /\ ((forall id, f <> response_file id) -> file_of m' f = Some t).

Definition keeps_files : relation world :=
  fun w w' => only_replies_written (mailbox w) (mailbox w').

(** The questions shown to the human, in the order shown. *)
Definition presented (evs : list event) : list Question :=
  omap (fun e => match e with EvPresent q => Some q | _ => None end) evs.

(** The events of the exchange with the human: a question shown, a reply
    written. *)
Definition interaction (e : event) : bool :=
  match e with
  | EvPresent _ | EvWrite _ _ => true
  | _ => false
  end.

Definition exchange (evs : list event) : list event :=
  filter (fun e => interaction e = true) evs.

(** Each question shown is followed at once by the write of its own
    reply. *)
Inductive all_answered : list event -> Prop :=
| all_answered_nil : all_answered []
| all_answered_cons (q : Question) (text : string) (rest : list event) :
    all_answered rest ->
    all_answered (EvPresent q :: EvWrite (response_file (q_id q)) text :: rest).

(** The same, but for a last question that may still be without its reply
    (the human has not finished, or the process has ended). *)
Inductive one_at_a_time : list event -> Prop :=
| one_at_a_time_done (evs : list event) :
    all_answered evs -> one_at_a_time evs
| one_at_a_time_open (evs : list event) (q : Question) :
    all_answered evs -> one_at_a_time (evs ++ [EvPresent q]).

(** The request files of a directory in the order [getPendingQuestions]
    reads them, and what each of them holds. *)
Definition pending_files (d : Dir) : list string :=
  merge_sort String.le
    (filter (fun f => is_question_file f = true) (map fst (map_to_list (files d)))).

Definition parsed_in (d : Dir) (f : string) : option json :=
  match files d !! f with
  | Some text =>
      match Json.parse text with
      | POk v => Some v
      | _ => None
      end
  | None => None
  end.

Definition question_in (d : Dir) (f : string) : option Question :=
  parsed_in d f ≫= Codec.as_question.

(** What a stretch of the loop that started with the set [seen] and ended
    in [r] has logged: no id shown twice, none that was in [seen]; questions
    taken one at a time; and on normal completion every question answered and
    the set grown by exactly the ids shown. *)
Definition serving (seen : gset string) (r : res (gset string))
    (evs : list event) : Prop :=
  let ids := q_id <$> presented evs in
  NoDup ids
  /\ (forall id, id ∈ ids -> id ∉ seen)
  /\ match r with
     | Val seen' =>
         all_answered (exchange evs) /\ seen' = list_to_set ids ∪ seen
     | _ => one_at_a_time (exchange evs)
     end.

Definition serves (seen : gset string) (m : IO (gset string)) : Prop :=
  forall w, exists evs,
    log (snd (m w)) = log w ++ evs /\ serving seen (fst (m w)) evs.

End Responder.

(** ** Texts in the making, and the text of an answer *)

Module Partial.

(** The initial parts of [text] that a reader may find while the text is
    being written: all but the whole. *)
Fixpoint proper_prefixes (text : string) : list string :=
  match text with
  | EmptyString => []
  | String c r => EmptyString :: map (String c) (proper_prefixes r)
  end.

(** [part] is an initial part of [text], short of the whole. *)
Definition cut_short (text part : string) : Prop :=
  exists rest, rest <> EmptyString /\ text = part +:+ rest.

End Partial.

Module Texts.

(** A text of white space only (the empty text included). *)
Fixpoint blank (s : string) : bool :=
  match s with
  | String c r => JsString.is_white_space c && blank r
  | EmptyString => true
  end.

(** White space as the first, and as the last, code unit. *)
Definition begins_with_white_space (s : string) : bool :=
  match s with
  | String c _ => JsString.is_white_space c
  | EmptyString => false
  end.

Definition ends_with_white_space (s : string) : bool :=
  begins_with_white_space (String.rev s).

End Texts.

(** ** Statements about a whole call of the tool *)

Module Call.
Import World Ipc Requester.

(** The id [generateQuestionId] returns in [w]. *)
Definition id_of (random : string) (w : world) : string :=
  "q_" +:+ JsString.of_Z (clock w) +:+ "_" +:+ random.

(** [questionData] of a call made in [w]. *)
Definition record_of (args : Args) (context : Context) (random : string)
    (w : world) : Question :=
  mkQuestion (id_of random w) (question args) (title args)
             (sessionID context) (messageID context) (clock w).

(** [args.timeout ?? DEFAULT_TIMEOUT_SEC] *)
Definition timeout_of (args : Args) : Z :=
  default DEFAULT_TIMEOUT_SEC (timeout args).

(** The directory after [ensureIpcDir], and the calls [ensureIpcDir] makes. *)
Definition opened (m : option Dir) : Dir := default (mkDir true true ∅) m.

Definition opening (m : option Dir) : list event :=
  match m with
  | Some _ => [EvExistsDir]
  | None => [EvExistsDir; EvMkdir]
  end.

(** The world in which the polling loop of a call made in [w] begins: the
    directory is there and the request record written. *)
Definition started (args : Args) (context : Context) (random : string)
    (w : world) : world :=
  let file := question_file (id_of random w) in
  let text := Codec.stringify_Question (record_of args context random w) in
  with_mailbox (Some (put_file file text (opened (mailbox w))))
    (logged (opening (mailbox w) ++ [EvWrite file text]) w).

(** The calls a call for request [id] may make: on the directory, on its own
    two records; it writes only the request and reads only the reply. *)
Definition own_event (id : string) (e : event) : Prop :=
  match e with
  | EvExistsDir | EvMkdir => True
  | EvExists f | EvUnlink f _ => f = question_file id \/ f = response_file id
  | EvRead f => f = response_file id
  | EvWrite f _ => f = question_file id
  | EvReaddir | EvPresent _ | EvConsoleError _ => False
  end.

(** Every file but the two records of request [id] is as it was. *)
Definition others_untouched (id : string) : relation world :=
  fun w w' =>
    forall f, f <> question_file id -> f <> response_file id ->
      file_of (mailbox w') f = file_of (mailbox w) f.

End Call.

(** ** The two programs together *)

Module Round.
Import World Ipc.

(** The world of a Responder process that finds the mailbox [m] at time
    [now], with [input] waiting on its terminal. *)
Definition responder_world (m : option Dir) (now : Z) (input : list string) : world :=
  mkWorld m now false input [].

(** A wait of the Requester during which a Responder that has processed the
    ids [seen] makes one iteration of its loop on the mailbox. *)
Definition responder_turn (seen : gset string) (now : Z) (input : list string)
    (clock_after : Z) (aborted_after : bool) : interval :=
  mkInterval
    (fun m => mailbox (snd (Responder.iteration seen (responder_world m now input))))
    clock_after aborted_after.

End Round.

(** ** A pass of the Responder *)

Module Pass.
Import World Ipc.

(** The lines on the terminal when the human types the answers one after
    the other, each ended by an empty line. *)
Definition typed (answers : list (list string)) : list string :=
  concat (map (fun lines => lines ++ [""]) answers).

(** An answer the prompt takes as typed: at least one line, none empty. *)
Definition answer (lines : list string) : Prop :=
  lines <> [] /\ Forall (fun l => l <> "") lines.

(** The exchange in which each question is shown and answered in turn. *)
Definition exchanged (now : Z) (qs : list Question) (answers : list (list string))
    : list event :=
  concat (zip_with
            (fun q lines =>
               [EvPresent q;
                EvWrite (response_file (q_id q))
                  (Codec.stringify_Response (Responder.reply_to q lines now))])
            qs answers).

End Pass.

(** ** Paths: [path.join (IPC_DIR, name)] *)

Module Paths.

(** The segments of [name] between its separators (the POSIX separator
    [/]); there is always one, possibly empty. *)
Fixpoint segments (name : string) : list string :=
  match name with
  | EmptyString => [EmptyString]
  | String c r =>
      if Ascii.eqb c "/" then EmptyString :: segments r
      else match segments r with
           | seg :: rest => String c seg :: rest
           | [] => [String c EmptyString]
           end
  end.

(** [path.normalize] on the part of a path below [IPC_DIR]: [stack] holds
    the segments below the directory reached so far. An empty segment and
    [.] change nothing; [..] takes the last segment off, and gives [None]
    when there is none: the path leads out of [IPC_DIR]. *)
Fixpoint normalize (stack segs : list string) : option (list string) :=
  match segs with
  | [] => Some stack
  | seg :: rest =>
      if String.eqb seg "" || String.eqb seg "." then normalize stack rest
      else if String.eqb seg ".." then
        match stack with
        | [] => None
        | _ :: _ => normalize (removelast stack) rest
        end
      else normalize (stack ++ [seg]) rest
  end.

Definition contains (c : ascii) (s : string) : bool :=
  existsb (Ascii.eqb c) (list_ascii_of_string s).

(** The file of the mailbox directory that [path.join (IPC_DIR, name)] is,
    when it is one. [None] for a path that leads out of the directory, that is
    the directory itself or lies below a subdirectory of it, that ends with a
    separator, or that holds a null byte (which [fs] rejects). *)
Definition path_join (name : string) : option string :=
  if contains "000" name then None
  else if String.eqb (List.last (segments name) "") "" then None
  else match normalize [] (segments name) with
       | Some [file] => Some file
       | _ => None
       end.

(** An id without a path separator or a null byte in it, as
    [generateQuestionId] makes them. *)
Definition plain (id : string) : bool :=
  negb (contains "/" id) && negb (contains "\" id) && negb (contains "000" id).

End Paths.

(** ** The Responder with [path.join] in place *)

Module Disk.
Import World Ipc.
Local Open Scope io_scope.

(** [writeResponse]: the reply goes to
    [path.join (IPC_DIR, `response_${questionId}.json`)]. A path that is no
    file of the mailbox directory is outside the model. *)
Definition writeResponse (questionId response : string) (responded : bool)
    : IO unit :=
  timestamp <- Date_now ;;
  match Paths.path_join (response_file questionId) with
  | Some responseFile =>
      writeFileSync responseFile
        (Codec.stringify_Response (mkResponse questionId response responded timestamp))
  | None => stop Unmodelled
  end.

Definition promptUser (question : Question) : IO unit :=
  lines <- Responder.read_answer ;;
  Responder.in_callback
    (let response := Responder.answer_text lines in
     if String.eqb (JsString.toLowerCase response) "cancel"
     then writeResponse (q_id question) "" false
     else writeResponse (q_id question) response true).

Fixpoint serve (questions : list json) (processedQuestions : gset string)
    : IO (gset string) :=
  match questions with
  | [] => ret processedQuestions
  | data :: rest =>
      match Codec.as_question data with
      | None => stop Unmodelled
      | Some question =>
          if decide (q_id question ∈ processedQuestions)
          then serve rest processedQuestions
          else
            let processedQuestions := {[q_id question]} ∪ processedQuestions in
            Responder.printQuestion question ;;
            promptUser question ;;
            serve rest processedQuestions
      end
  end.

Definition iteration (processedQuestions : gset string) : IO (gset string) :=
  questions <- Responder.getPendingQuestions ;;
  serve questions processedQuestions.

Fixpoint main_loop (processedQuestions : gset string) (naps : list interval)
    : IO (gset string) :=
  processedQuestions <- iteration processedQuestions ;;
  match naps with
  | [] => ret processedQuestions
  | nap :: rest => sleep nap ;; main_loop processedQuestions rest
  end.

Definition main (naps : list interval) : IO (gset string) :=
  try_catch (main_loop ∅ naps)
    (fun error => emit (EvConsoleError error) ;; stop (Exit 1)).

(** *** Statements about it *)

(** What the Responder calls: it writes reply records only, each where
    [path.join] takes the name made from the id in the record, and removes
    nothing. *)
Definition disk_event (e : event) : Prop :=
  match e with
  | EvExistsDir | EvMkdir | EvReaddir | EvRead _ | EvPresent _
  | EvConsoleError _ => True
  | EvWrite f text =>
      exists r, Paths.path_join (response_file (r_id r)) = Some f
                /\ text = Codec.stringify_Response r
  | EvExists _ | EvUnlink _ _ => False
  end.

(** Every file of [w] is still there in [w'], with its text unless it is a
    file to which [path.join] takes the name of a reply record. *)
Definition writes_replies_only : relation world :=
  fun w w' =>
    forall f t, file_of (mailbox w) f = Some t ->
      is_Some (file_of (mailbox w') f)
      /\ ((forall id, Paths.path_join (response_file id) <> Some f) ->
          file_of (mailbox w') f = Some t).

(** Every file whose name is not that of a reply record is as it was:
    there with the same text, or not there. *)
Definition changes_replies_only : relation world :=
  fun w w' =>
    forall f, (forall id, f <> response_file id) ->
      file_of (mailbox w') f = file_of (mailbox w) f.

(** Every request file of the mailbox that holds a question holds one with
    a plain id. *)
Definition plain_requests (m : option Dir) : Prop :=
  forall d f q,
    m = Some d -> Responder.is_question_file f = true ->
    Responder.question_in d f = Some q -> Paths.plain (q_id q) = true.

End Disk.

(** ** The loop of the Responder, iteration by iteration *)

Module Loop.
Import World Ipc.

(** [w1] is a world in which an iteration of the loop of [main], run from
    [w] over [naps], begins with the ids [seen] processed: [w] itself with no
    id processed, or the world after one of the waits, all iterations before
    it having come to their end. *)
Definition iteration_begins (naps : list interval) (w : world)
    (seen : gset string) (w1 : world) : Prop :=
  (seen = ∅ /\ w1 = w)
  \/ exists pre nap post w0,
       naps = pre ++ nap :: post
       /\ Responder.main_loop ∅ pre w = (Val seen, w0)
       /\ w1 = during nap w0.

(** The request file [f] of [d] holds a question, or is one that
    [getPendingQuestions] skips. *)
Definition legible (d : Dir) (f : string) : Prop :=
  match files d !! f with
  | Some text =>
      match Json.parse text with
      | POk data => is_Some (Codec.as_question data)
      | PSyntaxError => True
      | PUnmodelled => False
      end
  | None => True
  end.

(** [ps] are the requests among [qs] that are due when the ids [seen] are
    processed: in the order of [qs], for each id not in [seen] the first
    request that has it. *)
Definition due (seen : gset string) (qs ps : list Question) : Prop :=
  sublist ps qs
  /\ NoDup (q_id <$> ps)
  /\ (forall q, q ∈ qs -> q_id q ∉ seen -> q_id q ∈ q_id <$> ps)
  /\ (forall p, p ∈ ps ->
        (q_id p ∉ seen)
        /\ exists before after,
             qs = before ++ p :: after /\ (q_id p ∉ q_id <$> before)).

End Loop.

(** ** The Requester among other processes *)

Module Amid.
Import World Ipc.
Local Open Scope io_scope.

(** Other processes change the mailbox between two calls of the process. *)
Definition meanwhile (others : option Dir -> option Dir) : IO unit :=
  fun w => (Val tt, with_mailbox (others (mailbox w)) w).

(** What other processes do in the course of one iteration of the loop, at
    the points where the Requester has looked at a file and has not yet acted
    on what it saw: before [readFileSync (responseFile)]; between the read and
    the cleanup; between [existsSync] and [unlinkSync] of the request file;
    and just before [unlinkSync (responseFile)]. *)
Record Gaps : Type := mkGaps {
  before_read : option Dir -> option Dir;
  before_cleanup : option Dir -> option Dir;
  in_request_deletion : option Dir -> option Dir;
  before_reply_deletion : option Dir -> option Dir
}.


(** [if (fs.existsSync (file)) { fs.unlinkSync (file) }], other processes
    acting between the test and the deletion. *)
Definition unlink_if_exists (between : option Dir -> option Dir) (file : string)
    : IO unit :=
  b <- existsSync file ;;
  meanwhile between ;;
  if b then unlinkSync file else ret tt.

(** One iteration of [while (true)] in [execute], up to the wait. *)
Definition tick (g : Gaps) (questionFile responseFile : string)
    (timeoutSec timeoutMs startTime : Z) : IO (option Requester.ToolResult) :=
  a <- abort_aborted ;;
  if a then
    unlink_if_exists (in_request_deletion g) questionFile ;;
    ret (Some Requester.aborted_result)
  else
    now <- Date_now ;;
    if now - startTime >? timeoutMs then
      unlink_if_exists (in_request_deletion g) questionFile ;;
      ret (Some (Requester.timeout_result timeoutSec))
    else
      present <- existsSync responseFile ;;
      if present then
        try_catch
          (meanwhile (before_read g) ;;
           text <- readFileSync responseFile ;;
           responseData <- JSON_parse text ;;
           meanwhile (before_cleanup g) ;;
           unlink_if_exists (in_request_deletion g) questionFile ;;
           meanwhile (before_reply_deletion g) ;;
           unlinkSync responseFile ;;
           r <- Requester.property responseData "responded" ;;
           if Json.truthy r then
             t <- Requester.property responseData "response" ;;
             ret (Some (Requester.answered_result t))
           else ret (Some Requester.user_cancelled_result))
          (fun _ => ret None)
      else ret None.

(** The polling loop: [now] are the gaps of the iteration that begins,
    [later] the waits to come, each with the gaps of the iteration after
    it. *)
Fixpoint poll (questionFile responseFile : string)
    (timeoutSec timeoutMs startTime : Z) (now : Gaps)
    (later : list (interval * Gaps)) : IO (option Requester.ToolResult) :=
  r <- tick now questionFile responseFile timeoutSec timeoutMs startTime ;;
  match r with
  | Some result => ret (Some result)
  | None =>
      match later with
      | [] => ret None
      | (nap, next) :: rest =>
          sleep nap ;;
          poll questionFile responseFile timeoutSec timeoutMs startTime next rest
      end
  end.

(** The [try { while (true) ... } catch (error) { ... throw error }] of
    [execute]; [handler] are the gaps while the handler runs. *)
Definition await_response (questionId : string) (timeoutSec startTime : Z)
    (now : Gaps) (later : list (interval * Gaps)) (handler : Gaps)
    : IO (option Requester.ToolResult) :=
  let questionFile := question_file questionId in
  let responseFile := response_file questionId in
  try_catch
    (poll questionFile responseFile timeoutSec (timeoutSec * 1000) startTime now later)
    (fun error =>
       unlink_if_exists (in_request_deletion handler) questionFile ;;
       meanwhile (before_cleanup handler) ;;
       unlink_if_exists (before_reply_deletion handler) responseFile ;;
       throw error).

(** *** Statements about it *)



(** An error of a file-system call. *)
Definition fs_error (e : exn) : Prop := exists code f, e = FsError code f.



End Amid.

(** ** Sample worlds *)

Module Scenarios.
Import World Ipc.

(** Sample texts are written with apostrophes in place of double quotes. *)
Definition sq (s : string) : string :=
  (fix go (s : string) : string :=
     match s with
     | String c r => String (if Ascii.eqb c "'" then "034"%char else c) (go r)
     | EmptyString => EmptyString
     end) s.

(** A mailbox with full permissions and the given files. *)
Definition box (l : list (string * string)) : option Dir :=
  Some (mkDir true true (list_to_map l)).

Definition asked : Question :=
  mkQuestion "q_1_ab" "Which option?" None "ses" "msg" 1600.

(** The Responder's terminal when the human types one line and an empty
    line. *)
Definition answering : world :=
  mkWorld (box [(question_file "q_1_ab", Codec.stringify_Question asked)])
          1700 false ["Use option B"; ""] [].

Definition cancelling : world :=
  mkWorld (box [(question_file "q_1_ab", Codec.stringify_Question asked)])
          1700 false [" CanCel"; ""] [].

(** The Requester of request [q], started at time 0 with a timeout of one
    second, in its first iteration. *)
Definition waiting : world :=
  mkWorld (box [(question_file "q", "{}")]) 0 false [] [].

Definition late_reply : string :=
  Codec.stringify_Response (mkResponse "q" "too late" true 1500).

(** During the wait a reply arrives, the deadline passes and the agent
    aborts. *)
Definition overtaken : interval :=
  mkInterval (fmap (put_file (response_file "q") late_reply)) 5000 true.

(** A reply record cut short by a reader that came too early. *)
Definition half_written : world :=
  mkWorld (box [(question_file "q", "{}"); (response_file "q", "{")]) 0 false [] [].

Definition uneventful : interval := mkInterval (fun m => m) 500 false.

(** The deadline of one second has passed, and a reply is in the mailbox. *)
Definition expired : world :=
  mkWorld (box [(question_file "q", "{}"); (response_file "q", late_reply)])
          2000 false [] [].

(** A mailbox the Responder may not list. *)
Definition unlistable : world :=
  mkWorld (Some (mkDir false true ∅)) 0 false [] [].

(** A mailbox the Responder may not write to, with a request in it and an
    answer typed. *)
Definition read_only : world :=
  mkWorld (Some (mkDir true false
                   {[question_file "q_1_ab" := Codec.stringify_Question asked]}))
          1700 false ["Use option B"; ""] [].

(** Two requests, listed by the file system in whatever order, and the
    human's answers to them. *)
Definition two_requests : world :=
  mkWorld
    (box [(question_file "q_2_b",
           Codec.stringify_Question (mkQuestion "q_2_b" "Second?" None "ses" "m2" 2));
          (question_file "q_1_a",
           Codec.stringify_Question (mkQuestion "q_1_a" "First?" None "ses" "m1" 1));
          ("notes.txt", "not a request")])
    1700 false ["one"; ""; "two"; ""] [].

End Scenarios.

(** ** Further sample worlds *)

Module Cases.
Import World Ipc Scenarios.

Definition call_args : Requester.Args := Requester.mkArgs "Which option?" None None.

Definition call_context : Requester.Context := Requester.mkContext "ses" "msg".

(** No mailbox directory yet. *)
Definition fresh : world := mkWorld None 0 false [] [].

(** The same, the call being aborted before it starts. *)
Definition called_off : world := mkWorld None 0 true [] [].

(** During the wait the reply to the call made in [fresh] arrives. *)
Definition arrives : interval :=
  mkInterval
    (fmap (put_file (response_file "q_0_ab")
             (Codec.stringify_Response (mkResponse "q_0_ab" "B" true 400))))
    500 false.

(** During the wait the writing of the reply to [q] is completed. *)
Definition completed : interval :=
  mkInterval
    (fmap (put_file (response_file "q")
             (Codec.stringify_Response (mkResponse "q" "B" true 400))))
    500 false.

(** During the wait the writing of the request [asked] is completed. *)
Definition request_completed : interval :=
  mkInterval
    (fmap (put_file (question_file "q_1_ab") (Codec.stringify_Question asked)))
    500 false.

(** A wait in which nothing happens but that the deadline of one second
    passes. *)
Definition overdue : interval := mkInterval (fun m => m) 1500 false.

(** A request record of which only the first character is written yet. *)
Definition request_begun : Dir :=
  mkDir true true {[question_file "q_1_ab" := "{"]}.

Definition request_written : Dir :=
  mkDir true true {[question_file "q_1_ab" := Codec.stringify_Question asked]}.

(** Replies out of the ordinary. *)
Definition null_reply : Dir :=
  mkDir true true (list_to_map [(question_file "q", "{}"); (response_file "q", "null")]).

Definition odd_reply : Dir :=
  mkDir true true
    (list_to_map [(question_file "q", "{}");
                  (response_file "q", sq "{'responded': 1, 'response': 5}")]).

(** A mailbox whose files may not be removed. *)
Definition reply_stuck : Dir :=
  mkDir true false {[response_file "q" := late_reply]}.

Definition request_stuck : world :=
  mkWorld (Some (mkDir true false {[question_file "q" := "{}"]})) 0 true [] [].

(** The directory of [two_requests], and its two questions in the order of
    their files. *)
Definition two_requests_dir : Dir :=
  mkDir true true
    (list_to_map
       [(question_file "q_2_b",
         Codec.stringify_Question (mkQuestion "q_2_b" "Second?" None "ses" "m2" 2));
        (question_file "q_1_a",
         Codec.stringify_Question (mkQuestion "q_1_a" "First?" None "ses" "m1" 1));
        ("notes.txt", "not a request")]).

Definition both : list Question :=
  [mkQuestion "q_1_a" "First?" None "ses" "m1" 1;
   mkQuestion "q_2_b" "Second?" None "ses" "m2" 2].

(** The human enters a line of blanks. *)
Definition blanks_typed : world :=
  mkWorld (box [(question_file "q_1_ab", Codec.stringify_Question asked)])
          1700 false ["   "; ""] [].

(** *** Incidents *)

(** A request file whose record holds an id with path separators in it, and
    an answer typed. *)
Definition crossing : Question :=
  mkQuestion "/../question_a" "Which option?" None "ses" "msg" 1600.

Definition crossed : world :=
  mkWorld (box [(question_file "a", Codec.stringify_Question crossing)])
          1700 false ["Use option B"; ""] [].

(** A wait during which the mailbox directory loses the right to be
    listed. *)
Definition locking : interval :=
  mkInterval (fmap (fun d => mkDir false (writable d) (files d))) 500 false.






(** The Responder has processed the first of two requests; the human types
    two answers. *)
Definition one_processed : world :=
  mkWorld (Some two_requests_dir) 1700 false ["two"; ""; "later"; ""] [].

End Cases.

(** * Properties *)

(** ** [JSON.parse] inverts [JSON.stringify] on the program's records *)

Module JsonFacts.
Import Json.

Lemma app_cons (x : ascii) (a b : string) : String x a +:+ b = String x (a +:+ b).
Proof. reflexivity. Qed.

Lemma app_nil (b : string) : "" +:+ b = b.
Proof. reflexivity. Qed.

Lemma app_assoc_string (a b c : string) : (a +:+ b) +:+ c = a +:+ (b +:+ c).
Proof.
  induction a as [|x a IH]; [done|].
  change (String x ((a +:+ b) +:+ c) = String x (a +:+ (b +:+ c))).
  by rewrite IH.
Qed.

Lemma parse_chars_escape_char (c : ascii) (t : string) :
  parse_chars (escape_char c +:+ t) = pcons c (parse_chars t).
Proof. destruct c as [[] [] [] [] [] [] [] []]; reflexivity. Qed.

Lemma parse_chars_escape (s rest : string) :
  parse_chars (escape s +:+ String "034" rest) = POk (s, rest).
Proof.
  induction s as [|c s IH]; [done|].
  cbn [escape]. rewrite app_assoc_string, parse_chars_escape_char, IH. done.
Qed.

Lemma span_digits_uint (d : Decimal.uint) (c : ascii) (rest : string) :
  is_digit c = false ->
  span_digits (NilEmpty.string_of_uint d +:+ String c rest)
  = (NilEmpty.string_of_uint d, String c rest).
Proof.
  intros Hc.
  induction d; cbn [NilEmpty.string_of_uint]; rewrite ?app_cons, ?app_nil;
    cbn [span_digits]; rewrite ?Hc, ?IHd; done.
Qed.

Lemma to_uint_leading_zero (n : N) (d : Decimal.uint) :
  N.to_uint n = Decimal.D0 d -> d = Decimal.Nil.
Proof.
  intros H.
  pose proof (DecimalN.Unsigned.to_of (N.to_uint n)) as E.
  rewrite DecimalN.Unsigned.of_to, H in E.
  unfold Decimal.unorm in E. cbn [Decimal.nzhead] in E.
  destruct (Decimal.nzhead d) eqn:Hd; try discriminate.
  - by injection E.
  - by destruct (nzhead_nonzero d u).
Qed.

Lemma to_uint_nonnil (n : N) : N.to_uint n <> Decimal.Nil.
Proof.
  destruct n; [done|]. apply DecimalPos.Unsigned.to_uint_nonnil.
Qed.

Lemma parse_digits_decimal (n : N) (c : ascii) (rest : string) :
  ends_number c = true ->
  parse_digits (JsString.decimal n +:+ String c rest) = POk (n, String c rest).
Proof.
  unfold ends_number. intros Hc.
  apply negb_true_iff in Hc.
  apply orb_false_iff in Hc as [Hc HE].
  apply orb_false_iff in Hc as [Hc He].
  apply orb_false_iff in Hc as [Hd Hdot].
  unfold parse_digits, JsString.decimal.
  rewrite span_digits_uint by done.
  destruct (NilEmpty.string_of_uint (N.to_uint n)) as [|a ds] eqn:Hs.
  - destruct (N.to_uint n) eqn:Hu; try discriminate. by destruct (to_uint_nonnil n).
  - assert (Ascii.eqb a "0" && negb (String.eqb ds "") = false) as ->.
    { destruct (Ascii.eqb_spec a "0") as [->|]; [|done]. cbn.
      destruct (N.to_uint n) eqn:Hu; try discriminate.
      apply to_uint_leading_zero in Hu as ->. cbn in Hs. by injection Hs as <-. }
    rewrite <- Hs, NilEmpty.usu, DecimalN.Unsigned.of_to, Hdot, He, HE. done.
Qed.

Lemma parse_number_of_Z (z : Z) (c : ascii) (rest : string) :
  ends_number c = true ->
  parse_number (JsString.of_Z z +:+ String c rest) = POk (z, String c rest).
Proof.
  intros Hc. unfold JsString.of_Z, parse_number.
  destruct (Z.ltb_spec z 0).
  - rewrite app_cons. cbn -[parse_digits JsString.decimal].
    rewrite parse_digits_decimal by done. cbn. f_equal. f_equal. lia.
  - destruct (JsString.decimal (Z.to_N z) +:+ String c rest) as [|a s] eqn:E.
    { pose proof (parse_digits_decimal (Z.to_N z) c rest Hc) as P. by rewrite E in P. }
    destruct (Ascii.eqb_spec a "-") as [->|].
    { pose proof (parse_digits_decimal (Z.to_N z) c rest Hc) as P. by rewrite E in P. }
    rewrite <- E, parse_digits_decimal by done. cbn. f_equal. f_equal. lia.
Qed.




Lemma number_head (z : Z) :
  exists a s, JsString.of_Z z = String a s /\ (Ascii.eqb a "-" || is_digit a = true).
Proof.
  unfold JsString.of_Z. destruct (z <? 0); [by eexists _, _|].
  unfold JsString.decimal.
  pose proof (to_uint_nonnil (Z.to_N z)) as Hn.
  destruct (N.to_uint (Z.to_N z)); [done|..]; by eexists _, _.
Qed.

Lemma number_head_dispatch (a : ascii) :
  Ascii.eqb a "-" || is_digit a = true ->
  is_ws a = false /\ Ascii.eqb a "{" = false /\ Ascii.eqb a "[" = false
  /\ Ascii.eqb a "034" = false /\ Ascii.eqb a "t" = false
  /\ Ascii.eqb a "f" = false /\ Ascii.eqb a "n" = false.
Proof. destruct a as [[] [] [] [] [] [] [] []]; cbn; intros; try done. Qed.

Lemma ends_member_number (c : ascii) : ends_member c = true -> ends_number c = true.
Proof.
  unfold ends_member. intros [->%Ascii.eqb_eq | ->%Ascii.eqb_eq]%orb_true_iff; done.
Qed.

Lemma parse_value_string_eq (f : nat) (r : string) :
  parse_value (S f) (String " " (String "034" r))
  = pbind (parse_chars r) (fun '(t, r') => POk (JStr t, r')).
Proof. reflexivity. Qed.

Lemma parse_value_number_eq (f : nat) (a : ascii) (r : string) :
  Ascii.eqb a "-" || is_digit a = true ->
  parse_value (S f) (String " " (String a r))
  = pbind (parse_number (String a r)) (fun '(n, r') => POk (JNum n, r')).
Proof.
  intros Ha.
  destruct (number_head_dispatch a Ha) as (H1 & H2 & H3 & H4 & H5 & H6 & H7).
  cbn [parse_value]. change (skip_ws (String " " (String a r))) with (skip_ws (String a r)).
  cbn [skip_ws]. rewrite H1, H2, H3, H4, H5, H6, H7, Ha. done.
Qed.

Lemma parse_value_scalar (f : nat) (v : scalar) (c : ascii) (rest : string) :
  ends_member c = true ->
  parse_value (S f) (String " " (print_scalar v +:+ String c rest))
  = POk (json_of_scalar v, String c rest).
Proof.
  intros Hc. destruct v as [s|b|n]; cbn [print_scalar json_of_scalar].
  - unfold quote. rewrite app_cons, app_assoc_string, app_cons, app_nil.
    by rewrite parse_value_string_eq, parse_chars_escape.
  - by destruct b.
  - destruct (number_head n) as (a & s & E & Ha).
    pose proof (parse_number_of_Z n c rest (ends_member_number c Hc)) as P.
    rewrite E, app_cons in *.
    by rewrite parse_value_number_eq, P.
Qed.

Lemma parse_members_key_eq (f : nat) (r : string) (acc : list (string * json)) :
  parse_members (S f) (String "010" (String " " (String " " (String "034" r)))) acc
  = pbind (parse_chars r) (fun '(k, r1) =>
      match skip_ws r1 with
      | String ":" r2 =>
          pbind (parse_value f r2) (fun '(v, r3) =>
            match skip_ws r3 with
            | String "," r4 => parse_members f r4 (acc ++ [(k, v)])
            | String "}" r4 => POk (JObj (acc ++ [(k, v)]), r4)
            | _ => PSyntaxError
            end)
      | _ => PSyntaxError
      end).
Proof. reflexivity. Qed.

Lemma parse_members_print (f : nat) (ms : list (string * scalar))
    (acc : list (string * json)) (rest : string) :
  ms <> [] ->
  parse_members (S (length ms + f))
    (print_members ms +:+ String "010" (String "}" rest)) acc
  = POk (JObj (acc ++ map (fun '(k, v) => (k, json_of_scalar v)) ms), rest).
Proof.
  revert acc. induction ms as [|[k v] ms IH]; [done|]. intros acc _.
  cbn [print_members length]. unfold quote.
  repeat (rewrite app_cons || rewrite app_assoc_string || rewrite app_nil).
  rewrite parse_members_key_eq, parse_chars_escape.
  cbn [pbind]. change (skip_ws (String ":" ?x)) with (String ":" x). cbv iota.
  destruct ms as [|m ms].
  - rewrite app_nil. cbn [length Nat.add]. rewrite parse_value_scalar by done. done.
  - rewrite app_cons. cbn [length Nat.add]. rewrite parse_value_scalar by done.
    cbn [pbind]. change (skip_ws (String "," ?x)) with (String "," x). cbv iota.
    rewrite IH by done. by rewrite <- app_assoc.
Qed.

Lemma length_app_string (a b : string) :
  String.length (a +:+ b) = (String.length a + String.length b)%nat.
Proof.
  induction a as [|x a IH]; [done|]. rewrite app_cons. cbn. by rewrite IH.
Qed.

Lemma print_members_length (ms : list (string * scalar)) :
  (length ms <= String.length (print_members ms))%nat.
Proof.
  induction ms as [|[k v] ms IH]; [done|].
  cbn [print_members length String.length]. rewrite !length_app_string.
  destruct ms; [cbn; lia|]. cbn [String.length]. cbn [length] in *. lia.
Qed.

Lemma parse_value_object_eq (f : nat) (r r0 : string) :
  skip_ws r = String "034" r0 ->
  parse_value (S f) (String "{" r) = parse_members f r [].
Proof.
  intros H. cbn [parse_value].
  change (skip_ws (String "{" r)) with (String "{" r). cbv iota.
  change (Ascii.eqb "{" "{") with true. cbv iota. by rewrite H.
Qed.

Lemma parse_print_object (ms : list (string * scalar)) :
  Json.parse (print_object ms) = POk (json_of_object ms).
Proof.
  destruct ms as [|m ms]; [done|].
  unfold parse, print_object.
  set (text := print_members (m :: ms)).
  pose proof (print_members_length (m :: ms)) as Hlen. fold text in Hlen.
  cbn [String.length]. rewrite length_app_string. cbn [String.length].
  replace (String.length text + 2)%nat
    with (length (m :: ms) + (String.length text - length (m :: ms) + 2))%nat by lia.
  set (f := (String.length text - length (m :: ms) + 2)%nat).
  assert (exists r, skip_ws (text +:+ String "010" "}") = String "034" r) as [r Hr].
  { subst text. destruct m as [k v]. cbn [print_members]. rewrite !app_cons. by eexists. }
  rewrite (parse_value_object_eq _ _ _ Hr).
  unfold text. rewrite parse_members_print by done. done.
Qed.

Lemma parse_stringify_Response (r : Response) :
  Json.parse (Codec.stringify_Response r) = POk (Codec.json_of_Response r).
Proof. apply parse_print_object. Qed.

Lemma parse_stringify_Question (q : Question) :
  Json.parse (Codec.stringify_Question q) = POk (json_of_object (Codec.Question_members q)).
Proof. apply parse_print_object. Qed.

End JsonFacts.

(** ** The mailbox *)

Module WorldFacts.
Import World Ipc.
Local Open Scope io_scope.

Lemma logged_logged (a b : list event) (w : world) :
  logged b (logged a w) = logged (a ++ b) w.
Proof. unfold logged. cbn. by rewrite <- app_assoc. Qed.

Lemma logged_nil (w : world) : logged [] w = w.
Proof. destruct w. unfold logged. cbn. by rewrite app_nil_r. Qed.

Lemma question_response_differ (id : string) : question_file id <> response_file id.
Proof. discriminate. Qed.

Lemma remove_file_absent (f : string) (d : Dir) :
  files d !! f = None -> remove_file f d = d.
Proof.
  intros H. destruct d as [l wr fs]. unfold remove_file. cbn in *.
  by rewrite delete_id.
Qed.

Lemma file_of_without (f g : string) (m : option Dir) :
  file_of (without f m) g = if decide (f = g) then None else file_of m g.
Proof.
  destruct m as [d|]; cbn; [|by case_decide].
  case_decide as E; [subst; apply lookup_delete_eq | by apply lookup_delete_ne].
Qed.

Lemma file_of_without_ne (f g : string) (m : option Dir) :
  f <> g -> file_of (without f m) g = file_of m g.
Proof. intros. rewrite file_of_without. by case_decide. Qed.

Lemma permits_changes_without (f : string) (m : option Dir) :
  permits_changes (without f m) = permits_changes m.
Proof. by destruct m. Qed.

End WorldFacts.

(** ** Rules for [steps] and [emits], along the structure of a program *)

Module Traces.
Import World Ipc.
Local Open Scope io_scope.

Section Rules.
Context {A B : Type} (R : relation world) `{!PreOrder R}.

Lemma steps_ret (a : A) : steps R (ret a).
Proof. intros w. reflexivity. Qed.

Lemma steps_throw (e : exn) : steps R (@throw A e).
Proof. intros w. reflexivity. Qed.

Lemma steps_stop (h : halt) : steps R (@stop A h).
Proof. intros w. reflexivity. Qed.

Lemma steps_bind (m : IO A) (k : A -> IO B) :
  steps R m -> (forall a, steps R (k a)) -> steps R (bind m k).
Proof.
  intros Hm Hk w. unfold bind. specialize (Hm w).
  destruct (m w) as [[a|e|h] w1]; cbn in *; [|done..].
  etrans; [exact Hm | apply Hk].
Qed.

Lemma steps_try_catch (m : IO A) (h : exn -> IO A) :
  steps R m -> (forall e, steps R (h e)) -> steps R (try_catch m h).
Proof.
  intros Hm Hh w. unfold try_catch. specialize (Hm w).
  destruct (m w) as [[a|e|x] w1]; cbn in *; [done| |done].
  etrans; [exact Hm | apply Hh].
Qed.

Lemma steps_get_mailbox : steps R get_mailbox.
Proof. intros w. reflexivity. Qed.

Lemma steps_Date_now : steps R Date_now.
Proof. intros w. reflexivity. Qed.

Lemma steps_abort_aborted : steps R abort_aborted.
Proof. intros w. reflexivity. Qed.

End Rules.

Lemma steps_JSON_parse (R : relation world) `{!PreOrder R} (text : string) :
  steps R (JSON_parse text).
Proof.
  unfold JSON_parse.
  destruct (Json.parse text); [apply steps_ret | apply steps_throw | apply steps_stop];
    done.
Qed.

Global Instance appends_preorder (P : event -> Prop) : PreOrder (appends P).
Proof.
  split.
  - intros w. exists []. by rewrite app_nil_r.
  - intros w1 w2 w3 (e1 & E1 & F1) (e2 & E2 & F2). exists (e1 ++ e2).
    rewrite E2, E1, app_assoc. split; [done|]. by apply Forall_app.
Qed.

(** Split a program at its first bind, or at its handler. *)
Ltac sbind := apply steps_bind; [apply _ | | ].
Ltac scatch := apply steps_try_catch; [apply _ | | ].

Section Emits.
Context (P : event -> Prop).

Lemma emits_ret {A} (a : A) : emits P (ret a).
Proof. apply steps_ret, _. Qed.

Lemma emits_throw {A} (e : exn) : emits P (@throw A e).
Proof. apply steps_throw, _. Qed.

Lemma emits_bind {A B} (m : IO A) (k : A -> IO B) :
  emits P m -> (forall a, emits P (k a)) -> emits P (bind m k).
Proof. apply steps_bind, _. Qed.

Lemma emits_try_catch {A} (m : IO A) (h : exn -> IO A) :
  emits P m -> (forall e, emits P (h e)) -> emits P (try_catch m h).
Proof. apply steps_try_catch, _. Qed.

Lemma emits_event (e : event) : P e -> emits P (emit e).
Proof. intros He w. exists [e]. split; [done|]. by constructor. Qed.

Lemma emits_set_mailbox (m : option Dir) : emits P (set_mailbox m).
Proof. intros w. exists []. cbn. by rewrite app_nil_r. Qed.

Lemma emits_sleep (i : interval) : emits P (sleep i).
Proof. intros w. exists []. cbn. by rewrite app_nil_r. Qed.

Lemma emits_existsSync_dir : P EvExistsDir -> emits P existsSync_dir.
Proof.
  intros H. unfold existsSync_dir. sbind; [by apply emits_event|intros _].
  sbind; [apply steps_get_mailbox, _|intros m]. apply steps_ret, _.
Qed.

Lemma emits_mkdirSync : P EvMkdir -> emits P mkdirSync.
Proof.
  intros H. unfold mkdirSync. sbind; [by apply emits_event|intros _].
  sbind; [apply steps_get_mailbox, _|intros [d|]];
    [apply steps_ret, _ | apply emits_set_mailbox].
Qed.

Lemma emits_ensureIpcDir : P EvExistsDir -> P EvMkdir -> emits P ensureIpcDir.
Proof.
  intros H1 H2. unfold ensureIpcDir.
  sbind; [by apply emits_existsSync_dir|intros []];
    [apply steps_ret, _ | by apply emits_mkdirSync].
Qed.

Lemma emits_readdirSync : P EvReaddir -> emits P readdirSync.
Proof.
  intros H. unfold readdirSync. sbind; [by apply emits_event|intros _].
  sbind; [apply steps_get_mailbox, _|intros [d|]]; [destruct (listable d)|];
    (apply steps_ret, _ || apply steps_throw, _).
Qed.

Lemma emits_readFileSync (f : string) : P (EvRead f) -> emits P (readFileSync f).
Proof.
  intros H. unfold readFileSync. sbind; [by apply emits_event|intros _].
  sbind; [apply steps_get_mailbox, _|intros [d|]]; [destruct (files d !! f)|];
    (apply steps_ret, _ || apply steps_throw, _).
Qed.

Lemma emits_writeFileSync (f t : string) :
  P (EvWrite f t) -> emits P (writeFileSync f t).
Proof.
  intros H. unfold writeFileSync. sbind; [by apply emits_event|intros _].
  sbind; [apply steps_get_mailbox, _|intros [d|]]; [destruct (writable d)|];
    (apply emits_set_mailbox || apply steps_throw, _).
Qed.

End Emits.

End Traces.

(** ** The Requester *)

Module RequesterFacts.
Import World Ipc Requester WorldFacts.
Local Open Scope io_scope.

Lemma unlink_if_exists_absent (f : string) (w : world) :
  file_of (mailbox w) f = None ->
  unlink_if_exists f w = (Val tt, logged [EvExists f] w).
Proof.
  intros H. unfold unlink_if_exists, existsSync, bind, emit, get_mailbox, ret. cbn.
  destruct (mailbox w) as [d|]; [|done]. cbn in H. rewrite H. done.
Qed.

Lemma unlink_if_exists_removes (f : string) (w : world) (d : Dir) (t : string) :
  mailbox w = Some d -> files d !! f = Some t -> writable d = true ->
  unlink_if_exists f w
  = (Val tt, with_mailbox (Some (remove_file f d)) (logged [EvExists f; EvUnlink f None] w)).
Proof.
  intros Hm Hf Hw.
  unfold unlink_if_exists, existsSync, unlinkSync, bind, emit, get_mailbox, set_mailbox, ret. cbn.
  rewrite Hm, Hf. cbn. rewrite Hm, Hf, Hw. cbn. by rewrite logged_logged.
Qed.

Lemma unlink_if_exists_denied (f : string) (w : world) (d : Dir) (t : string) :
  mailbox w = Some d -> files d !! f = Some t -> writable d = false ->
  unlink_if_exists f w
  = (Throw (FsError EACCES f), logged [EvExists f; EvUnlink f (Some EACCES)] w).
Proof.
  intros Hm Hf Hw.
  unfold unlink_if_exists, existsSync, unlinkSync, bind, emit, get_mailbox, throw, ret. cbn.
  rewrite Hm, Hf. cbn. rewrite Hm, Hf, Hw. cbn. by rewrite logged_logged.
Qed.

(** Where removal is permitted, the guarded deletion succeeds whether or not
    the file is there. *)
Lemma unlink_if_exists_permitted (f : string) (w : world) :
  permits_changes (mailbox w) = true ->
  exists evs,
    unlink_if_exists f w = (Val tt, with_mailbox (without f (mailbox w)) (logged evs w))
    /\ (evs = [EvExists f] \/ evs = [EvExists f; EvUnlink f None]).
Proof.
  intros Hp. destruct (file_of (mailbox w) f) as [t|] eqn:Hf.
  - destruct (mailbox w) as [d|] eqn:Hm; [|done]. cbn in Hf, Hp.
    exists [EvExists f; EvUnlink f None]. split; [|by right].
    by rewrite (unlink_if_exists_removes f w d t).
  - exists [EvExists f]. split; [|by left].
    rewrite unlink_if_exists_absent by done. f_equal.
    destruct w as [[d|] c a i l]; [|done]. cbn in *.
    unfold with_mailbox, logged. cbn. by rewrite remove_file_absent.
Qed.

Lemma tick_aborted qf rf ts tm st (w : world) :
  aborted w = true ->
  tick qf rf ts tm st w = (unlink_if_exists qf ;; ret (Some aborted_result)) w.
Proof. intros H. unfold tick, bind at 1, abort_aborted. by rewrite H. Qed.

Lemma tick_timed_out qf rf ts tm st (w : world) :
  aborted w = false -> (clock w - st >? tm) = true ->
  tick qf rf ts tm st w = (unlink_if_exists qf ;; ret (Some (timeout_result ts))) w.
Proof.
  intros Ha Ht. unfold tick, bind at 1, abort_aborted. rewrite Ha.
  unfold bind at 1, Date_now. by rewrite Ht.
Qed.

Lemma tick_waiting qf rf ts tm st (w : world) :
  aborted w = false -> (clock w - st >? tm) = false ->
  file_of (mailbox w) rf = None ->
  tick qf rf ts tm st w = (Val None, logged [EvExists rf] w).
Proof.
  intros Ha Ht Hf. unfold tick, bind at 1, abort_aborted. rewrite Ha.
  unfold bind at 1, Date_now. rewrite Ht.
  unfold existsSync, bind, emit, get_mailbox, ret. cbn.
  destruct (mailbox w) as [d|]; [|done]. cbn in Hf. by rewrite Hf.
Qed.

Ltac io_unfold :=
  unfold tick, unlink_if_exists, property, existsSync, readFileSync, unlinkSync,
    JSON_parse, try_catch, bind, emit, get_mailbox, set_mailbox, Date_now,
    abort_aborted, ret, throw, stop, logged, with_mailbox, file_of in *.

Ltac io_rewrite :=
  repeat match goal with
         | H : _ = _ |- _ => rewrite H
         end.

Ltac io_run :=
  io_unfold; cbn -[Json.parse Z.gtb Z.sub] in *;
  repeat (progress io_rewrite; cbn -[Json.parse Z.gtb Z.sub]);
  rewrite <- ?app_assoc.

Lemma tick_reply_unparsable qf rf ts tm st (w : world) (text : string) :
  aborted w = false -> (clock w - st >? tm) = false ->
  file_of (mailbox w) rf = Some text ->
  Json.parse text = PSyntaxError ->
  tick qf rf ts tm st w = (Val None, logged [EvExists rf; EvRead rf] w).
Proof.
  destruct w as [[d|] c a i l]; intros Ha Ht Hf Hp; [|done]. by io_run.
Qed.

Lemma tick_reply_parsed qf rf ts tm st (w : world) (d : Dir) (text : string) (data : json) :
  qf <> rf ->
  aborted w = false -> (clock w - st >? tm) = false ->
  mailbox w = Some d -> writable d = true ->
  files d !! rf = Some text -> Json.parse text = POk data ->
  exists evs,
    tick qf rf ts tm st w
    = (match Json.get_prop data "responded" with
       | None => Val None
       | Some r =>
           if Json.truthy r then
             match Json.get_prop data "response" with
             | Some t => Val (Some (answered_result t))
             | None => Val None
             end
           else Val (Some user_cancelled_result)
       end,
       with_mailbox (without rf (without qf (Some d))) (logged evs w)).
Proof.
  intros Hne Ha Ht Hm Hw Hf Hp. destruct w as [m c a i l]. cbn in Hm, Ha, Ht. subst m.
  assert (files (remove_file qf d) !! rf = Some text) as Hf'.
  { cbn. by rewrite lookup_delete_ne. }
  destruct (files d !! qf) as [tq|] eqn:Hq.
  - exists [EvExists rf; EvRead rf; EvExists qf; EvUnlink qf None; EvUnlink rf None].
    io_run.
    destruct (Json.get_prop data "responded") as [r|]; [|reflexivity].
    destruct (Json.truthy r); [|reflexivity].
    destruct (Json.get_prop data "response"); reflexivity.
  - exists [EvExists rf; EvRead rf; EvExists qf; EvUnlink rf None].
    io_run. rewrite (remove_file_absent qf d Hq).
    destruct (Json.get_prop data "responded") as [r|]; [|reflexivity].
    destruct (Json.truthy r); [|reflexivity].
    destruct (Json.get_prop data "response"); reflexivity.
Qed.

(** *** The polling loop *)

Lemma poll_unfold qf rf ts tm st (naps : list interval) (w : world) :
  poll qf rf ts tm st naps w
  = match tick qf rf ts tm st w with
    | (Val (Some result), w1) => (Val (Some result), w1)
    | (Val None, w1) =>
        match naps with
        | [] => (Val None, w1)
        | nap :: rest => poll qf rf ts tm st rest (during nap w1)
        end
    | (Throw e, w1) => (Throw e, w1)
    | (Halt h, w1) => (Halt h, w1)
    end.
Proof.
  destruct naps; cbn [poll]; unfold bind at 1;
    destruct (tick qf rf ts tm st w) as [[[o|]|e|h] w1]; reflexivity.
Qed.

Lemma poll_app qf rf ts tm st (pre post : list interval) (nap : interval) (w w1 : world) :
  poll qf rf ts tm st pre w = (Val None, w1) ->
  poll qf rf ts tm st (pre ++ nap :: post) w
  = poll qf rf ts tm st post (during nap w1).
Proof.
  revert w. induction pre as [|p pre IH]; intros w; rewrite !poll_unfold with (w := w).
  - cbn [app]. destruct (tick qf rf ts tm st w) as [[[o|]|e|h] w0]; intros [= <-]. done.
  - cbn [app]. destruct (tick qf rf ts tm st w) as [[[o|]|e|h] w0]; try discriminate.
    apply IH.
Qed.

(** A call that returns does so from one iteration of the loop. *)
Lemma poll_returns qf rf ts tm st (naps : list interval) (w w' : world) (o : ToolResult) :
  poll qf rf ts tm st naps w = (Val (Some o), w') ->
  exists w1,
    iteration_begins qf rf ts tm st naps w w1
    /\ tick qf rf ts tm st w1 = (Val (Some o), w').
Proof.
  revert w. induction naps as [|nap naps IH]; intros w; rewrite poll_unfold;
    destruct (tick qf rf ts tm st w) as [[[r|]|e|h] w0] eqn:E; try discriminate.
  - intros [= <- <-]. exists w. split; [by left|done].
  - intros [= <- <-]. exists w. split; [by left|done].
  - intros (w1 & Hb & Ht)%IH. exists w1. split; [right|done].
    destruct Hb as [->|(pre & nap' & post & w2 & -> & Hpre & ->)].
    + exists [], nap, naps, w0. split; [done|]. split; [|done].
      by rewrite poll_unfold, E.
    + exists (nap :: pre), nap', post, w2. split; [done|]. split; [|done].
      by rewrite poll_unfold, E.
Qed.

Lemma await_response_returns (id : string) ts st (naps : list interval)
    (w w' : world) (o : option ToolResult) :
  poll (question_file id) (response_file id) ts (ts * 1000) st naps w = (Val o, w') ->
  await_response id ts st naps w = (Val o, w').
Proof. intros H. unfold await_response, try_catch. by rewrite H. Qed.

Lemma await_response_returned (id : string) ts st (naps : list interval)
    (w w' : world) (o : option ToolResult) :
  await_response id ts st naps w = (Val o, w') ->
  poll (question_file id) (response_file id) ts (ts * 1000) st naps w = (Val o, w').
Proof.
  unfold await_response, try_catch.
  destruct (poll _ _ _ _ _ _ w) as [[r|e|h] w1]; [done| |done].
  unfold bind, throw.
  destruct (unlink_if_exists _ w1) as [[[]|e1|h1] w2]; [|done..].
  destruct (unlink_if_exists _ w2) as [[[]|e2|h2] w3]; done.
Qed.

(** An iteration that starts aborted or past the deadline ends the call on
    the spot, and touches the request record only. *)
Lemma tick_terminal qf rf ts tm st (w : world) :
  aborted w = true \/ (clock w - st >? tm) = true ->
  permits_changes (mailbox w) = true ->
  exists evs,
    tick qf rf ts tm st w
    = (Val (Some (if aborted w then aborted_result else timeout_result ts)),
       with_mailbox (without qf (mailbox w)) (logged evs w))
    /\ (evs = [EvExists qf] \/ evs = [EvExists qf; EvUnlink qf None]).
Proof.
  intros Hterm Hp.
  destruct (unlink_if_exists_permitted qf w Hp) as (evs & E & Hevs).
  exists evs. split; [|done].
  destruct (aborted w) eqn:Ha.
  - rewrite tick_aborted by done. unfold bind. by rewrite E.
  - destruct Hterm as [|Ht]; [done|].
    rewrite tick_timed_out by done. unfold bind. by rewrite E.
Qed.

(** C2. In every iteration cancellation is checked first, then the deadline,
    then the reply: in a call whose earlier iterations all reached the wait,
    the first iteration that starts with the abort signal fired or the
    deadline passed returns the cancelled outcome (abort when both hold),
    whatever reply record is in the mailbox; that iteration only looks for
    and removes the request record, so the reply record is neither read nor
    deleted nor returned. *)
Theorem cancellation_then_timeout_then_reply
    (id : string) (ts st : Z) (pre post : list interval) (nap : interval)
    (w w1 : world) :
  poll (question_file id) (response_file id) ts (ts * 1000) st pre w = (Val None, w1) ->
  aborted_after nap = true \/ (clock_after nap - st >? ts * 1000) = true ->
  permits_changes (others nap (mailbox w1)) = true ->
  exists w2 evs,
    await_response id ts st (pre ++ nap :: post) w
    = (Val (Some (if aborted_after nap then aborted_result else timeout_result ts)), w2)
    /\ file_of (mailbox w2) (response_file id)
       = file_of (others nap (mailbox w1)) (response_file id)
    /\ log w2 = log w1 ++ evs
    /\ (evs = [EvExists (question_file id)]
        \/ evs = [EvExists (question_file id); EvUnlink (question_file id) None]).
Proof.
  intros Hpre Hterm Hp.
  destruct (tick_terminal (question_file id) (response_file id) ts (ts * 1000) st
              (during nap w1) Hterm Hp) as (evs & E & Hevs).
  eexists _, evs. split; [|split; [|split]]; [| | |exact Hevs].
  - apply await_response_returns. rewrite (poll_app _ _ _ _ _ _ _ _ _ _ Hpre).
    rewrite poll_unfold, E. reflexivity.
  - cbn. apply file_of_without_ne, question_response_differ.
  - reflexivity.
Qed.

(** C8. A reply record that exists but does not parse is treated as not
    ready: the iteration reaches the wait having deleted nothing, and the next
    iteration, if it starts neither aborted nor past the deadline, reads the
    same file again. *)
Theorem unparsable_reply_is_left_for_the_next_tick
    (qf rf : string) (ts tm st : Z) (w : world) (text : string) (nap : interval) :
  aborted w = false -> (clock w - st >? tm) = false ->
  file_of (mailbox w) rf = Some text ->
  Json.parse text = PSyntaxError ->
  aborted_after nap = false -> (clock_after nap - st >? tm) = false ->
  file_of (others nap (mailbox w)) rf = Some text ->
  tick qf rf ts tm st w = (Val None, logged [EvExists rf; EvRead rf] w)
  /\ poll qf rf ts tm st [nap] w
     = (Val None,
        logged [EvExists rf; EvRead rf] (during nap (logged [EvExists rf; EvRead rf] w))).
Proof.
  intros Ha Ht Hf Hp Ha' Ht' Hf'.
  pose proof (tick_reply_unparsable qf rf ts tm st w text Ha Ht Hf Hp) as E1.
  split; [done|].
  rewrite poll_unfold, E1, poll_unfold.
  by rewrite (tick_reply_unparsable qf rf ts tm st _ text).
Qed.

Lemma unlink_if_exists_cases (f : string) (w : world) :
  unlink_if_exists f w = (Val tt, logged [EvExists f] w)
    /\ file_of (mailbox w) f = None
  \/ unlink_if_exists f w
     = (Val tt, with_mailbox (without f (mailbox w)) (logged [EvExists f; EvUnlink f None] w))
    /\ is_Some (file_of (mailbox w) f)
  \/ unlink_if_exists f w
     = (Throw (FsError EACCES f), logged [EvExists f; EvUnlink f (Some EACCES)] w)
    /\ is_Some (file_of (mailbox w) f).
Proof.
  destruct (file_of (mailbox w) f) as [t|] eqn:Hf.
  - destruct (mailbox w) as [d|] eqn:Hm; [|done]. cbn in Hf.
    destruct (writable d) eqn:Hw.
    + right; left. split; [|by eauto]. by apply (unlink_if_exists_removes f w d t).
    + right; right. split; [|by eauto]. by apply (unlink_if_exists_denied f w d t).
  - left. split; [|done]. by apply unlink_if_exists_absent.
Qed.

Lemma user_cancelled_is_not_aborted : user_cancelled_result <> aborted_result.
Proof. discriminate. Qed.

Lemma user_cancelled_is_not_timeout (ts : Z) : user_cancelled_result <> timeout_result ts.
Proof. discriminate. Qed.

(** What an iteration can return once it has got past the two checks. *)
Lemma tick_reply_path_results qf rf ts tm st (w w' : world) (o : ToolResult) :
  aborted w = false -> (clock w - st >? tm) = false ->
  tick qf rf ts tm st w = (Val (Some o), w') ->
  (exists t, o = answered_result t) \/ o = user_cancelled_result.
Proof.
  destruct w as [m c a i l]. cbn. intros -> Ht. io_unfold. cbn -[Json.parse Z.gtb Z.sub].
  rewrite Ht. cbn -[Json.parse].
  intros H. repeat (case_match; cbn -[Json.parse] in *; simplify_eq); eauto.
Qed.

(** C10. When the call returns the abort or the timeout outcome, the
    iteration that returned has removed nothing but the request record: every
    other file of the mailbox, the reply record of the same id included, is
    as that iteration found it, and the iteration made no call on it. *)
Theorem timeout_and_abort_leave_the_reply
    (id : string) (ts st : Z) (naps : list interval) (w w' : world) (o : ToolResult) :
  await_response id ts st naps w = (Val (Some o), w') ->
  o = aborted_result \/ o = timeout_result ts ->
  exists w1 evs,
    iteration_begins (question_file id) (response_file id) ts (ts * 1000) st naps w w1
    /\ tick (question_file id) (response_file id) ts (ts * 1000) st w1 = (Val (Some o), w')
    /\ file_of (mailbox w') (response_file id) = file_of (mailbox w1) (response_file id)
    /\ (forall f, f <> question_file id -> file_of (mailbox w') f = file_of (mailbox w1) f)
    /\ log w' = log w1 ++ evs
    /\ (evs = [EvExists (question_file id)]
        \/ evs = [EvExists (question_file id); EvUnlink (question_file id) None]).
Proof.
  intros Hret Ho.
  apply await_response_returned, poll_returns in Hret as (w1 & Hbegin & Htick).
  set (qf := question_file id) in *. set (rf := response_file id) in *.
  assert (aborted w1 = true \/ (clock w1 - st >? ts * 1000) = true) as Hterm.
  { destruct (aborted w1) eqn:Ha; [by left|]. right.
    destruct (clock w1 - st >? ts * 1000) eqn:Ht; [done|].
    destruct (tick_reply_path_results _ _ _ _ _ _ _ _ Ha Ht Htick) as [[t ->]| ->];
      destruct Ho as [Ho|Ho]; revert Ho; discriminate. }
  assert (tick qf rf ts (ts * 1000) st w1
          = (unlink_if_exists qf ;; ret (Some o)) w1) as E.
  { destruct (aborted w1) eqn:Ha.
    - pose proof Htick as H2. rewrite tick_aborted in H2 |- * by done.
      unfold bind, ret in H2.
      destruct (unlink_if_exists qf w1) as [[[]|e|h] w2] eqn:U; by simplify_eq.
    - destruct Hterm as [|Ht]; [done|].
      pose proof Htick as H2. rewrite tick_timed_out in H2 |- * by done.
      unfold bind, ret in H2.
      destruct (unlink_if_exists qf w1) as [[[]|e|h] w2] eqn:U; by simplify_eq. }
  rewrite E in Htick. unfold bind, ret in Htick.
  destruct (unlink_if_exists_cases qf w1) as [[U Hf]|[[U Hf]|[U Hf]]];
    rewrite U in Htick; cbn in Htick; simplify_eq.
  - exists w1, [EvExists qf]. rewrite E. unfold bind, ret. rewrite U. cbn. eauto 10.
  - exists w1, [EvExists qf; EvUnlink qf None]. rewrite E. unfold bind, ret. rewrite U. cbn.
    split; [done|]. split; [done|].
    split; [apply file_of_without_ne, question_response_differ|].
    split; [|by eauto]. intros f Hne. by apply file_of_without_ne.
Qed.

(** *** Deletions *)

Import Traces.

Ltac no_missing_file :=
  repeat (constructor; [by intros [? ?]|]); constructor.

Lemma unlink_if_exists_emits (f : string) :
  emits (fun e => ~ found_no_file e) (unlink_if_exists f).
Proof.
  intros w. destruct (unlink_if_exists_cases f w) as [[U _]|[[U _]|[U _]]]; rewrite U;
    eexists; (split; [reflexivity|]); no_missing_file.
Qed.

Lemma unlink_if_exists_throws (f : string) (w : world) (e : exn) :
  fst (unlink_if_exists f w) = Throw e -> denied e.
Proof.
  destruct (unlink_if_exists_cases f w) as [[U _]|[[U _]|[U _]]]; rewrite U; cbn;
    intros [=]. subst. by exists f.
Qed.

Lemma tick_emits qf rf ts tm st :
  qf <> rf -> emits (fun e => ~ found_no_file e) (tick qf rf ts tm st).
Proof.
  intros Hne [m c a i l]. io_unfold. cbn -[Json.parse Z.gtb Z.sub].
  repeat (case_match; cbn -[Json.parse] in *; simplify_eq);
    cbn -[Json.parse] in *; simplify_eq;
    try match goal with
        | H : delete _ _ !! _ = None |- _ => rewrite lookup_delete_ne in H by done
        end;
    try congruence;
    rewrite <- ?app_assoc;
    (eexists; split; [reflexivity|]); no_missing_file.
Qed.

Lemma tick_throws qf rf ts tm st (w : world) (e : exn) :
  fst (tick qf rf ts tm st w) = Throw e -> denied e.
Proof.
  destruct w as [m c a i l]. io_unfold. cbn -[Json.parse Z.gtb Z.sub].
  repeat (case_match; cbn -[Json.parse] in *; simplify_eq);
    cbn -[Json.parse] in *; intros; simplify_eq; by eexists.
Qed.

Lemma poll_emits qf rf ts tm st (naps : list interval) :
  qf <> rf -> emits (fun e => ~ found_no_file e) (poll qf rf ts tm st naps).
Proof.
  intros Hne. induction naps as [|nap naps IH]; cbn [poll].
  - apply emits_bind; [by apply tick_emits|]. intros [o|]; apply emits_ret.
  - apply emits_bind; [by apply tick_emits|]. intros [o|]; [apply emits_ret|].
    apply emits_bind; [apply emits_sleep | done].
Qed.

Lemma poll_throws qf rf ts tm st (naps : list interval) (w : world) (e : exn) :
  fst (poll qf rf ts tm st naps w) = Throw e -> denied e.
Proof.
  revert w. induction naps as [|nap naps IH]; intros w; rewrite poll_unfold;
    destruct (tick qf rf ts tm st w) as [[[o|]|e'|h] w1] eqn:E; cbn; try discriminate;
    try (intros [= ->]; apply (tick_throws qf rf ts tm st w); by rewrite E).
  apply IH.
Qed.

Lemma await_response_emits (id : string) ts st (naps : list interval) :
  emits (fun e => ~ found_no_file e) (await_response id ts st naps).
Proof.
  unfold await_response. apply emits_try_catch.
  - apply poll_emits, question_response_differ.
  - intros e. repeat (apply emits_bind; [apply unlink_if_exists_emits | intros _]).
    apply emits_throw.
Qed.

Lemma await_response_throws (id : string) ts st (naps : list interval)
    (w : world) (e : exn) :
  fst (await_response id ts st naps w) = Throw e -> denied e.
Proof.
  unfold await_response, try_catch.
  destruct (poll _ _ _ _ _ _ w) as [[r|e'|h] w1] eqn:E; cbn [fst]; try discriminate.
  pose proof (poll_throws (question_file id) (response_file id) ts (ts * 1000) st
                naps w e') as D.
  rewrite E in D. unfold bind at 1.
  destruct (unlink_if_exists (question_file id) w1) as [[[]|e1|h1] w2] eqn:U1;
    cbn [fst]; try discriminate.
  - unfold bind, throw.
    destruct (unlink_if_exists (response_file id) w2) as [[[]|e2|h2] w3] eqn:U2;
      cbn [fst]; try discriminate.
    + intros ?; simplify_eq. by apply D.
    + intros ?; simplify_eq.
      apply (unlink_if_exists_throws (response_file id) w2). by rewrite U2.
  - intros ?; simplify_eq.
    apply (unlink_if_exists_throws (question_file id) w1). by rewrite U1.
Qed.

(** Whatever is thrown once an iteration has got past the two checks is
    caught in the iteration. *)
Lemma tick_reply_path_never_throws qf rf ts tm st (w : world) (e : exn) :
  aborted w = false -> (clock w - st >? tm) = false ->
  fst (tick qf rf ts tm st w) <> Throw e.
Proof.
  destruct w as [m c a i l]. cbn. intros -> Ht. io_unfold. cbn -[Json.parse Z.gtb Z.sub].
  rewrite Ht. cbn -[Json.parse].
  repeat (case_match; cbn -[Json.parse] in *; simplify_eq); done.
Qed.

End RequesterFacts.

(** ** The Responder *)

Module ResponderFacts.
Import World Ipc Responder WorldFacts Traces.
Local Open Scope io_scope.

(** *** Calls of the Responder *)

Section Emits.
Context (P : event -> Prop).

Lemma emits_read_questions (files : list string) :
  (forall f, P (EvRead f)) -> emits P (read_questions files).
Proof.
  intros H. induction files as [|f files IH]; cbn [read_questions];
    [apply steps_ret, _|].
  sbind.
  - scatch; [|intros _; apply steps_ret, _].
    sbind; [by apply emits_readFileSync|intros text].
    sbind; [apply steps_JSON_parse, _|intros data]. apply steps_ret, _.
  - intros r. sbind; [exact IH|intros qs]. apply steps_ret, _.
Qed.

Lemma emits_getPendingQuestions :
  P EvExistsDir -> P EvMkdir -> P EvReaddir -> (forall f, P (EvRead f)) ->
  emits P getPendingQuestions.
Proof.
  intros. unfold getPendingQuestions.
  sbind; [by apply emits_ensureIpcDir|intros _].
  sbind; [by apply emits_readdirSync|intros names]. by apply emits_read_questions.
Qed.

Lemma emits_read_answer : emits P read_answer.
Proof.
  intros w. unfold read_answer. exists [].
  destruct (prompt [] 0 (stdin w)) as [[lines rest]|]; cbn; by rewrite app_nil_r.
Qed.

Lemma emits_in_callback {A} (m : IO A) :
  emits P m -> emits P (in_callback m).
Proof.
  intros Hm w. unfold in_callback. specialize (Hm w).
  by destruct (m w) as [[a|e|h] w1].
Qed.

Lemma emits_writeResponse (id text : string) (b : bool) :
  (forall t, P (EvWrite (response_file id) t)) ->
  emits P (writeResponse id text b).
Proof.
  intros H. unfold writeResponse. sbind; [apply steps_Date_now, _|intros now].
  by apply emits_writeFileSync.
Qed.

Lemma emits_promptUser (q : Question) :
  (forall t, P (EvWrite (response_file (q_id q)) t)) ->
  emits P (promptUser q).
Proof.
  intros H. unfold promptUser. sbind; [apply emits_read_answer|intros lines].
  apply emits_in_callback. destruct (String.eqb _ _); by apply emits_writeResponse.
Qed.

Lemma emits_serve (questions : list json) (seen : gset string) :
  (forall q, P (EvPresent q)) ->
  (forall id t, P (EvWrite (response_file id) t)) ->
  emits P (serve questions seen).
Proof.
  intros H1 H2. revert seen.
  induction questions as [|data qs IH]; intros seen; cbn [serve];
    [apply steps_ret, _|].
  destruct (Codec.as_question data) as [q|]; [|apply steps_stop, _].
  case_decide; [apply IH|]. unfold printQuestion.
  sbind; [by apply emits_event|intros _].
  sbind; [by apply emits_promptUser|intros _]. apply IH.
Qed.

Lemma emits_iteration (seen : gset string) :
  P EvExistsDir -> P EvMkdir -> P EvReaddir -> (forall f, P (EvRead f)) ->
  (forall q, P (EvPresent q)) ->
  (forall id t, P (EvWrite (response_file id) t)) ->
  emits P (iteration seen).
Proof.
  intros. unfold iteration.
  sbind; [by apply emits_getPendingQuestions|intros qs]. by apply emits_serve.
Qed.

Lemma emits_main_loop (seen : gset string) (naps : list interval) :
  P EvExistsDir -> P EvMkdir -> P EvReaddir -> (forall f, P (EvRead f)) ->
  (forall q, P (EvPresent q)) ->
  (forall id t, P (EvWrite (response_file id) t)) ->
  emits P (main_loop seen naps).
Proof.
  intros. revert seen.
  induction naps as [|nap naps IH]; intros seen; cbn [main_loop];
    (sbind; [by apply emits_iteration|intros seen']).
  - apply steps_ret, _.
  - sbind; [apply emits_sleep|intros _]. apply IH.
Qed.

Lemma emits_main (naps : list interval) :
  P EvExistsDir -> P EvMkdir -> P EvReaddir -> (forall f, P (EvRead f)) ->
  (forall q, P (EvPresent q)) ->
  (forall id t, P (EvWrite (response_file id) t)) ->
  (forall e, P (EvConsoleError e)) ->
  emits P (main naps).
Proof.
  intros. unfold main. scatch; [by apply emits_main_loop|intros e].
  sbind; [by apply emits_event|intros _]. apply steps_stop, _.
Qed.

End Emits.

(** *** Files of the mailbox under the Responder *)

Global Instance keeps_files_preorder : PreOrder keeps_files.
Proof.
  split.
  - intros w f t H. eauto.
  - intros w1 w2 w3 H12 H23 f t Hf.
    destruct (H12 f t Hf) as [[t2 H2] K2].
    destruct (H23 f t2 H2) as [S3 K3]. split; [done|].
    intros Hn. specialize (K2 Hn). rewrite K2 in H2. simplify_eq. by apply K3.
Qed.

Lemma keeps_unchanged {A} (m : IO A) :
  (forall w, mailbox (snd (m w)) = mailbox w) -> steps keeps_files m.
Proof. intros H w. unfold keeps_files. rewrite H. intros f t; eauto. Qed.

Lemma keeps_event (e : event) : steps keeps_files (emit e).
Proof. by apply keeps_unchanged. Qed.

Lemma keeps_mkdirSync : steps keeps_files mkdirSync.
Proof.
  intros [[d|] c a i l] f t; cbn; [by eauto|done].
Qed.

Lemma keeps_ensureIpcDir : steps keeps_files ensureIpcDir.
Proof.
  unfold ensureIpcDir. sbind; [by apply keeps_unchanged|intros []];
    [apply steps_ret, _ | apply keeps_mkdirSync].
Qed.

Lemma keeps_readdirSync : steps keeps_files readdirSync.
Proof.
  apply keeps_unchanged. intros [[d|] c a i l]; cbn; [by destruct (listable d)|done].
Qed.

Lemma keeps_readFileSync (f : string) : steps keeps_files (readFileSync f).
Proof.
  apply keeps_unchanged. intros [[d|] c a i l]; cbn; [by destruct (files d !! f)|done].
Qed.

Lemma keeps_writeFileSync (id t : string) :
  steps keeps_files (writeFileSync (response_file id) t).
Proof.
  intros [[d|] c a i l] f u; cbn; [|done]. destruct (writable d); cbn; [|by eauto].
  intros Hf. destruct (decide (f = response_file id)) as [->|Hne].
  - rewrite lookup_insert_eq. split; [by eauto|]. intros Hn. by destruct (Hn id).
  - rewrite lookup_insert_ne by done. eauto.
Qed.

Lemma keeps_read_questions (files : list string) :
  steps keeps_files (read_questions files).
Proof.
  induction files as [|f files IH]; cbn [read_questions]; [apply steps_ret, _|].
  sbind.
  - scatch; [|intros _; apply steps_ret, _].
    sbind; [by apply keeps_readFileSync|intros text].
    sbind; [apply steps_JSON_parse, _|intros data]. apply steps_ret, _.
  - intros r. sbind; [exact IH|intros qs]. apply steps_ret, _.
Qed.

Lemma keeps_getPendingQuestions : steps keeps_files getPendingQuestions.
Proof.
  unfold getPendingQuestions. sbind; [apply keeps_ensureIpcDir|intros _].
  sbind; [apply keeps_readdirSync|intros names]. apply keeps_read_questions.
Qed.

Lemma keeps_in_callback {A} (m : IO A) :
  steps keeps_files m -> steps keeps_files (in_callback m).
Proof.
  intros Hm w. unfold in_callback. specialize (Hm w).
  by destruct (m w) as [[a|e|h] w1].
Qed.

Lemma keeps_promptUser (q : Question) : steps keeps_files (promptUser q).
Proof.
  unfold promptUser. sbind.
  - apply keeps_unchanged. intros w. unfold read_answer.
    by destruct (prompt [] 0 (stdin w)) as [[lines rest]|].
  - intros lines. apply keeps_in_callback. unfold writeResponse.
    destruct (String.eqb _ _);
      (sbind; [apply steps_Date_now, _|intros now]); apply keeps_writeFileSync.
Qed.

Lemma keeps_serve (questions : list json) (seen : gset string) :
  steps keeps_files (serve questions seen).
Proof.
  revert seen.
  induction questions as [|data qs IH]; intros seen; cbn [serve];
    [apply steps_ret, _|].
  destruct (Codec.as_question data) as [q|]; [|apply steps_stop, _].
  case_decide; [apply IH|]. unfold printQuestion.
  sbind; [by apply keeps_event|intros _].
  sbind; [by apply keeps_promptUser|intros _]. apply IH.
Qed.

Lemma keeps_iteration (seen : gset string) : steps keeps_files (iteration seen).
Proof.
  unfold iteration. sbind; [apply keeps_getPendingQuestions|intros qs].
  apply keeps_serve.
Qed.

Lemma keeps_main_loop (seen : gset string) (naps : list interval) :
  Forall quiet naps -> steps keeps_files (main_loop seen naps).
Proof.
  intros Hq. revert seen.
  induction Hq as [|nap naps Hnap _ IH]; intros seen; cbn [main_loop];
    (sbind; [by apply keeps_iteration|intros seen']).
  - apply steps_ret, _.
  - sbind; [|intros _; apply IH].
    apply keeps_unchanged. intros w. cbn. apply Hnap.
Qed.

Lemma keeps_main (naps : list interval) :
  Forall quiet naps -> steps keeps_files (main naps).
Proof.
  intros. unfold main. scatch; [by apply keeps_main_loop|intros e].
  sbind; [by apply keeps_event|intros _]. apply steps_stop, _.
Qed.

(** *** Failures *)

Ltac responder_unfold :=
  unfold main, getPendingQuestions, ensureIpcDir, promptUser, writeResponse,
    read_answer, in_callback, printQuestion, existsSync_dir, mkdirSync,
    iteration, readdirSync, readFileSync, writeFileSync, JSON_parse, try_catch, bind, emit,
    get_mailbox, set_mailbox, Date_now, ret, throw, stop, logged, with_mailbox,
    with_stdin, file_of in *.

Lemma main_exits_when_listing_fails (naps : list interval) (w : world) (d : Dir) :
  mailbox w = Some d -> listable d = false ->
  main naps w
  = (Halt (Exit 1),
     logged [EvExistsDir; EvReaddir; EvConsoleError (FsError EACCES "")] w).
Proof.
  intros Hm Hl.
  assert (getPendingQuestions w
          = (Throw (FsError EACCES ""), logged [EvExistsDir; EvReaddir] w)) as E.
  { destruct w as [m c a i l]. cbn in Hm. subst m. responder_unfold. cbn.
    rewrite Hl. cbn. by rewrite <- app_assoc. }
  unfold main, try_catch.
  destruct naps; cbn [main_loop]; unfold iteration, bind at 1; unfold bind at 1;
    rewrite E; unfold bind, emit, stop; by rewrite logged_logged.
Qed.

Lemma promptUser_dies_when_writing_fails
    (q : Question) (w : world) (d : Dir) (lines rest : list string) :
  mailbox w = Some d -> writable d = false ->
  prompt [] 0 (stdin w) = Some (lines, rest) ->
  fst (promptUser q w)
  = Halt (UncaughtException (FsError EACCES (response_file (q_id q)))).
Proof.
  destruct w as [m c a i l]. cbn. intros -> Hw Hp.
  responder_unfold. cbn. rewrite Hp. cbn.
  destruct (String.eqb _ _); cbn; by rewrite Hw.
Qed.

Lemma read_questions_skips_unreadable (f : string) (files : list string) (w : world) :
  file_of (mailbox w) f = None
  \/ (exists text, file_of (mailbox w) f = Some text /\ Json.parse text = PSyntaxError) ->
  read_questions (f :: files) w = read_questions files (logged [EvRead f] w).
Proof.
  destruct w as [m c a i l]. cbn [read_questions]. intros H.
  unfold bind at 1.
  assert (try_catch
            (text <- readFileSync f ;; data <- JSON_parse text ;; ret (Some data))
            (fun _ => ret None) (mkWorld m c a i l)
          = (Val None, logged [EvRead f] (mkWorld m c a i l))) as ->.
  { responder_unfold. cbn -[Json.parse] in *.
    destruct H as [H|(text & H & Hp)].
    - destruct m as [d|]; [|done]. by rewrite H.
    - destruct m as [d|]; [|done]. rewrite H. cbn -[Json.parse]. by rewrite Hp. }
  unfold bind, ret. by destruct (read_questions files _) as [[qs|e|h] w1].
Qed.

(** C7 as stated fails: with a mailbox directory that cannot be listed, the
    Responder logs the error and exits with status 1 in its first iteration,
    although a second iteration was due. *)
Lemma responder_exits_on_listing_failure :
  Responder.main [Scenarios.uneventful] Scenarios.unlistable
  = (Halt (Exit 1),
     mkWorld (Some (mkDir false true ∅)) 0 false []
       [EvExistsDir; EvReaddir; EvConsoleError (FsError EACCES "")]).
Proof. reflexivity. Qed.

(** *** Input collection *)

Lemma prompt_skips_leading_blanks (blanks count : nat) (rest : list string) :
  prompt [] count (replicate blanks "" ++ rest) = prompt [] (blanks + count) rest.
Proof.
  revert count. induction blanks as [|n IH]; intros count; [done|].
  cbn [replicate app prompt]. cbn [String.eqb length Nat.ltb Nat.leb andb].
  rewrite IH. f_equal. lia.
Qed.

Lemma prompt_collects (lines body rest : list string) (count : nat) :
  Forall (fun l => l <> "") body ->
  lines ++ body <> [] ->
  prompt lines count (body ++ "" :: rest) = Some (lines ++ body, rest).
Proof.
  intros Hbody. revert lines count.
  induction Hbody as [|l body Hl _ IH]; intros lines count Hne.
  - rewrite app_nil_r in *. cbn [app prompt String.eqb].
    destruct lines; [done|]. reflexivity.
  - cbn [app prompt]. apply String.eqb_neq in Hl. rewrite Hl.
    rewrite IH, <- app_assoc; [done|]. by destruct lines.
Qed.

Lemma prompt_blanks_only (blanks count : nat) :
  prompt [] count (replicate blanks "") = None.
Proof.
  rewrite <- (app_nil_r (replicate blanks "")), prompt_skips_leading_blanks. done.
Qed.

(** C3, as the code has it. An empty line submits the answer exactly when a
    non-empty line has been entered before it: after any number of leading
    empty lines, the first empty line that follows the non-empty lines [body]
    ends the collection with [body]; empty lines alone, however many, never
    end it. *)
Theorem empty_line_submits_only_after_content
    (blanks : nat) (body rest : list string) :
  Forall (fun l => l <> "") body ->
  body <> [] ->
  prompt [] 0 (replicate blanks "" ++ body ++ "" :: rest) = Some (body, rest)
  /\ prompt [] 0 (replicate blanks "") = None.
Proof.
  intros Hbody Hne. split; [|apply prompt_blanks_only].
  rewrite prompt_skips_leading_blanks. by apply (prompt_collects []).
Qed.

Lemma empty_line_submits_only_after_content_witness :
  prompt [] 0 (replicate 2 "" ++ ["Use option B"] ++ "" :: ["next"])
  = Some (["Use option B"], ["next"])
  /\ prompt [] 0 (replicate 2 "") = None.
Proof.
  apply (empty_line_submits_only_after_content 2 ["Use option B"] ["next"]).
  - by repeat constructor.
  - done.
Defined.

(** C3 as stated fails: two consecutive empty lines with no line of content
    before them do not end the collection, which goes on to take the lines
    typed after them. *)
Lemma two_empty_lines_do_not_submit :
  prompt [] 0 [""; ""] = None
  /\ prompt [] 0 [""; ""; "late answer"; ""] = Some (["late answer"], []).
Proof. split; reflexivity. Qed.

End ResponderFacts.

(** ** The Responder: one question at a time, each once, in file order *)

Module ResponderOrder.
Import World Ipc Responder WorldFacts Traces ResponderFacts.
Local Open Scope io_scope.

Lemma all_answered_app (a b : list event) :
  all_answered a -> all_answered b -> all_answered (a ++ b).
Proof. induction 1; intros; cbn; [done|]. constructor. auto. Qed.

Lemma one_at_a_time_app (a b : list event) :
  all_answered a -> one_at_a_time b -> one_at_a_time (a ++ b).
Proof.
  intros Ha [evs Hb|evs q Hb].
  - apply one_at_a_time_done. by apply all_answered_app.
  - rewrite app_assoc. apply one_at_a_time_open. by apply all_answered_app.
Qed.

Lemma presented_app (a b : list event) :
  presented (a ++ b) = presented a ++ presented b.
Proof. apply omap_app. Qed.

Lemma exchange_app (a b : list event) : exchange (a ++ b) = exchange a ++ exchange b.
Proof. apply filter_app. Qed.

Lemma silent_presented (evs : list event) :
  Forall (fun e => interaction e = false) evs -> presented evs = [].
Proof.
  induction 1 as [|e evs He _ IH]; [done|]. unfold presented in *.
  destruct e; cbn in *; done.
Qed.

Lemma silent_exchange (evs : list event) :
  Forall (fun e => interaction e = false) evs -> exchange evs = [].
Proof.
  induction 1 as [|e evs He _ IH]; [done|]. unfold exchange in *.
  rewrite filter_cons, IH. case_decide; [congruence|done].
Qed.

(** Events without a part in the exchange leave everything as it is. *)
Lemma serving_silent_l (seen : gset string) (r : res (gset string))
    (evs evs' : list event) :
  Forall (fun e => interaction e = false) evs ->
  serving seen r evs' -> serving seen r (evs ++ evs').
Proof.
  intros Hs H. unfold serving in *.
  rewrite presented_app, exchange_app, (silent_presented evs),
    (silent_exchange evs) by done.
  exact H.
Qed.

Lemma serving_silent_r (seen : gset string) (r : res (gset string))
    (evs evs' : list event) :
  Forall (fun e => interaction e = false) evs' ->
  serving seen r evs -> serving seen r (evs ++ evs').
Proof.
  intros Hs H. unfold serving in *.
  rewrite presented_app, exchange_app, (silent_presented evs'),
    (silent_exchange evs'), !app_nil_r by done.
  exact H.
Qed.

Lemma serving_nothing (seen : gset string) (r : res (gset string)) :
  match r with Val seen' => seen' = seen | _ => True end ->
  serving seen r [].
Proof.
  intros Hr. unfold serving. cbn. split; [constructor|]. split; [set_solver|].
  destruct r; [|by repeat constructor..]. split; [constructor|]. set_solver.
Qed.

Lemma serving_seq (seen seen1 : gset string) (r : res (gset string))
    (evs1 evs2 : list event) :
  serving seen (Val seen1) evs1 -> serving seen1 r evs2 ->
  serving seen r (evs1 ++ evs2).
Proof.
  unfold serving. intros (N1 & D1 & A1 & ->) (N2 & D2 & S2).
  rewrite presented_app, exchange_app, fmap_app.
  split; [|split].
  - apply NoDup_app. split; [done|]. split; [|done].
    intros id H1 H2. apply (D2 id H2). set_solver.
  - intros id [H|H]%elem_of_app; [by apply D1|].
    specialize (D2 id H). set_solver.
  - destruct r as [seen2|e|h].
    + destruct S2 as [A2 ->]. split; [by apply all_answered_app|].
      rewrite list_to_set_app_L. set_solver.
    + by apply one_at_a_time_app.
    + by apply one_at_a_time_app.
Qed.

(** How [promptUser] can end: still waiting for a line, or with the reply
    written or its write failed. *)
Lemma promptUser_cases (q : Question) (w : world) :
  (fst (promptUser q w) = Halt AwaitingLine /\ log (snd (promptUser q w)) = log w)
  \/ exists text,
       log (snd (promptUser q w))
       = log w ++ [EvWrite (response_file (q_id q)) text]
       /\ (fst (promptUser q w) = Val tt
           \/ exists e, fst (promptUser q w) = Halt (UncaughtException e)).
Proof.
  destruct w as [m c a i l]. responder_unfold. cbn.
  destruct (prompt [] 0 i) as [[lines rest]|]; cbn; [|by left].
  right. destruct (String.eqb _ _); cbn; eexists;
    (destruct m as [d|]; [destruct (writable d)|]; cbn; eauto).
Qed.

Lemma serve_serves (questions : list json) (seen : gset string) :
  serves seen (serve questions seen).
Proof.
  revert seen. induction questions as [|data qs IH]; intros seen w; cbn [serve].
  { exists []. rewrite app_nil_r. split; [done|]. by apply serving_nothing. }
  destruct (Codec.as_question data) as [q|];
    [|exists []; rewrite app_nil_r; split; [done|]; by apply serving_nothing].
  case_decide as Hseen; [apply IH|].
  set (w1 := logged [EvPresent q] w).
  replace ((printQuestion q;; promptUser q;; serve qs ({[q_id q]} ∪ seen)) w)
    with (match promptUser q w1 with
          | (Val _, w2) => serve qs ({[q_id q]} ∪ seen) w2
          | (Throw e, w2) => (Throw e, w2)
          | (Halt h, w2) => (Halt h, w2)
          end) by reflexivity.
  assert (serving seen (Halt AwaitingLine) [EvPresent q]) as Hopen.
  { unfold serving. cbn. split; [apply NoDup_singleton|]. split; [set_solver|].
    by apply (one_at_a_time_open []), all_answered_nil. }
  destruct (promptUser_cases q w1) as [[Hr Hl]|(text & Hl & Hr)];
    destruct (promptUser q w1) as [[[]|e|h] w2] eqn:E; cbn in Hr, Hl; simplify_eq.
  - exists [EvPresent q]. cbn [fst snd]. by rewrite Hl.
  - assert (serving seen (Val ({[q_id q]} ∪ seen))
              [EvPresent q; EvWrite (response_file (q_id q)) text]) as Hdone.
    { unfold serving. cbn. split; [apply NoDup_singleton|]. split; [set_solver|].
      split; [by repeat constructor|set_solver]. }
    destruct (IH ({[q_id q]} ∪ seen) w2) as (evs2 & E2 & S2).
    exists ([EvPresent q; EvWrite (response_file (q_id q)) text] ++ evs2).
    split; [rewrite E2, Hl; cbn; by rewrite <- !app_assoc|].
    eapply serving_seq; [exact Hdone|exact S2].
  - destruct Hr as [|[e' ?]]; done.
  - destruct Hr as [?|[e' ?]]; [done|]. simplify_eq.
    exists [EvPresent q; EvWrite (response_file (q_id q)) text]. cbn [fst snd].
    split; [rewrite Hl; cbn; by rewrite <- !app_assoc|].
    unfold serving. cbn. split; [apply NoDup_singleton|]. split; [set_solver|].
    apply one_at_a_time_done. by repeat constructor.
Qed.

Lemma getPendingQuestions_silent :
  emits (fun e => interaction e = false) getPendingQuestions.
Proof. by apply emits_getPendingQuestions. Qed.

Lemma iteration_serves (seen : gset string) : serves seen (iteration seen).
Proof.
  intros w. unfold iteration, bind.
  destruct (getPendingQuestions_silent w) as (evs1 & E1 & F1).
  destruct (getPendingQuestions w) as [[qs|e|h] w1]; cbn in E1.
  - destruct (serve_serves qs seen w1) as (evs2 & E2 & S2).
    exists (evs1 ++ evs2). rewrite E2, E1, app_assoc. split; [done|].
    by apply serving_silent_l.
  - exists evs1. split; [done|]. rewrite <- (app_nil_r evs1).
    by apply serving_silent_l, serving_nothing.
  - exists evs1. split; [done|]. rewrite <- (app_nil_r evs1).
    by apply serving_silent_l, serving_nothing.
Qed.

Lemma main_loop_unfold (seen : gset string) (naps : list interval) (w : world) :
  main_loop seen naps w
  = match iteration seen w with
    | (Val seen1, w1) =>
        match naps with
        | [] => (Val seen1, w1)
        | nap :: rest => main_loop seen1 rest (during nap w1)
        end
    | (Throw e, w1) => (Throw e, w1)
    | (Halt h, w1) => (Halt h, w1)
    end.
Proof.
  destruct naps; cbn [main_loop]; unfold bind at 1;
    by destruct (iteration seen w) as [[seen1|e|h] w1].
Qed.

Lemma main_loop_serves (seen : gset string) (naps : list interval) :
  serves seen (main_loop seen naps).
Proof.
  revert seen. induction naps as [|nap naps IH]; intros seen w;
    rewrite main_loop_unfold; destruct (iteration_serves seen w) as (evs1 & E1 & S1);
    destruct (iteration seen w) as [[seen1|e|h] w1]; cbn [fst snd] in *;
    try (by exists evs1).
  destruct (IH seen1 (during nap w1)) as (evs2 & E2 & S2).
  exists (evs1 ++ evs2). cbn in E2. rewrite E2, E1, app_assoc. split; [done|].
  by eapply serving_seq.
Qed.

Lemma main_serves (naps : list interval) (w : world) :
  exists evs,
    log (snd (main naps w)) = log w ++ evs
    /\ NoDup (q_id <$> presented evs)
    /\ one_at_a_time (exchange evs).
Proof.
  unfold main, try_catch.
  destruct (main_loop_serves ∅ naps w) as (evs & E & N & D & S).
  destruct (main_loop ∅ naps w) as [[seen|e|h] w1]; cbn in E, S.
  - exists evs. split; [done|]. split; [done|]. by apply one_at_a_time_done, S.
  - exists (evs ++ [EvConsoleError e]). unfold bind, emit, stop. cbn.
    rewrite E, app_assoc. split; [done|].
    rewrite presented_app, exchange_app, app_nil_r. cbn. by rewrite !app_nil_r.
  - by exists evs.
Qed.

(** *** Order of presentation *)

Lemma pending_files_sorted (d : Dir) : StronglySorted String.le (pending_files d).
Proof. unfold pending_files. apply StronglySorted_merge_sort; apply _. Qed.

Lemma elem_of_pending_files (d : Dir) (f : string) :
  f ∈ pending_files d <-> is_question_file f = true /\ is_Some (files d !! f).
Proof.
  unfold pending_files. rewrite merge_sort_Permutation, list_elem_of_filter.
  apply and_iff_compat_l. rewrite list_elem_of_fmap. split.
  - intros ([g t] & -> & H%elem_of_map_to_list). by eexists.
  - intros [t H]. exists (f, t). split; [done|]. by apply elem_of_map_to_list.
Qed.

Lemma getPendingQuestions_listing (w : world) (d : Dir) :
  mailbox w = Some d -> listable d = true ->
  getPendingQuestions w
  = read_questions (pending_files d) (logged [EvExistsDir; EvReaddir] w).
Proof.
  destruct w as [m c a i l]. cbn. intros -> Hl.
  responder_unfold. cbn. rewrite Hl. cbn. by rewrite <- app_assoc.
Qed.

Lemma read_questions_cons (f : string) (names : list string) (w : world) (d : Dir) :
  mailbox w = Some d ->
  read_questions (f :: names) w
  = match read_questions names (logged [EvRead f] w) with
    | (Val qs, w1) =>
        (Val (match parsed_in d f with Some data => data :: qs | None => qs end), w1)
    | (Throw e, w1) => (Throw e, w1)
    | (Halt h, w1) => (Halt h, w1)
    end
  \/ read_questions (f :: names) w = (Halt Unmodelled, logged [EvRead f] w).
Proof.
  intros Hm. cbn [read_questions].
  assert (exists r,
            try_catch
              (text <- readFileSync f ;; data <- JSON_parse text ;; ret (Some data))
              (fun _ => ret None) w
            = (r, logged [EvRead f] w)
            /\ (r = Val (parsed_in d f) \/ r = Halt Unmodelled)) as (r & E & Hr).
  { destruct w as [m c a i l]. cbn in Hm. subst m. unfold parsed_in.
    responder_unfold. cbn -[Json.parse].
    destruct (files d !! f) as [text|]; cbn -[Json.parse]; [|by eauto].
    destruct (Json.parse text); cbn; eauto. }
  destruct Hr as [-> | ->]; [left|right]; unfold bind at 1; rewrite E; [|done].
  unfold bind, ret.
  by destruct (read_questions names (logged [EvRead f] w)) as [[qs|e|h] w1].
Qed.

Lemma read_questions_result (names : list string) (w : world) (d : Dir) :
  mailbox w = Some d ->
  exists evs,
    log (snd (read_questions names w)) = log w ++ evs
    /\ Forall (fun e => interaction e = false) evs
    /\ (fst (read_questions names w) = Val (omap (parsed_in d) names)
        \/ fst (read_questions names w) = Halt Unmodelled).
Proof.
  revert w. induction names as [|f names IH]; intros w Hm.
  { exists []. rewrite app_nil_r. cbn. eauto. }
  destruct (read_questions_cons f names w d Hm) as [-> | ->];
    [|exists [EvRead f]; cbn; eauto].
  destruct (IH (logged [EvRead f] w) Hm) as (evs & El & Fl & Hres).
  destruct (read_questions names (logged [EvRead f] w)) as [[qs|e|h] w1];
    cbn [fst snd] in *; exists (EvRead f :: evs);
    (split; [rewrite El; cbn; by rewrite <- app_assoc|]); (split; [by constructor|]);
    destruct Hres as [Hres|Hres]; simplify_eq; eauto.
Qed.

Lemma serve_presents_in_order (questions : list json) (seen : gset string) (w : world) :
  exists evs,
    log (snd (serve questions seen w)) = log w ++ evs
    /\ sublist (presented evs) (omap Codec.as_question questions).
Proof.
  revert seen w. induction questions as [|data qs IH]; intros seen w; cbn [serve].
  { exists []. rewrite app_nil_r. split; [done|]. constructor. }
  change (omap Codec.as_question (data :: qs))
    with (match Codec.as_question data with
          | Some y => y :: omap Codec.as_question qs
          | None => omap Codec.as_question qs
          end).
  destruct (Codec.as_question data) as [q|];
    [|exists []; rewrite app_nil_r; split; [done|]; apply sublist_nil_l].
  case_decide as Hseen.
  { destruct (IH seen w) as (evs & E & S). exists evs. split; [done|].
    by apply sublist_cons. }
  set (w1 := logged [EvPresent q] w).
  replace ((printQuestion q;; promptUser q;; serve qs ({[q_id q]} ∪ seen)) w)
    with (match promptUser q w1 with
          | (Val _, w2) => serve qs ({[q_id q]} ∪ seen) w2
          | (Throw e, w2) => (Throw e, w2)
          | (Halt h, w2) => (Halt h, w2)
          end) by reflexivity.
  assert (sublist [q] (q :: omap Codec.as_question qs)) as Hone.
  { apply sublist_skip, sublist_nil_l. }
  destruct (promptUser_cases q w1) as [[Hr Hl]|(text & Hl & Hr)];
    destruct (promptUser q w1) as [[[]|e|h] w2] eqn:E; cbn in Hr, Hl; simplify_eq.
  - exists [EvPresent q]. cbn [fst snd]. by rewrite Hl.
  - destruct (IH ({[q_id q]} ∪ seen) w2) as (evs2 & E2 & S2).
    exists ([EvPresent q; EvWrite (response_file (q_id q)) text] ++ evs2).
    split; [rewrite E2, Hl; cbn; by rewrite <- !app_assoc|].
    cbn. by apply sublist_skip.
  - destruct Hr as [|[e' ?]]; done.
  - exists [EvPresent q; EvWrite (response_file (q_id q)) text]. cbn [fst snd].
    split; [rewrite Hl; cbn; by rewrite <- !app_assoc|]. done.
Qed.

Lemma omap_parsed_question (d : Dir) (names : list string) :
  omap Codec.as_question (omap (parsed_in d) names) = omap (question_in d) names.
Proof.
  induction names as [|f names IH]; [done|]. cbn. unfold question_in at 1.
  destruct (parsed_in d f) as [v|]; cbn; [|done]. by rewrite IH.
Qed.

Lemma iteration_presents_in_file_order (seen : gset string) (w : world) (d : Dir) :
  mailbox w = Some d -> listable d = true ->
  exists evs,
    log (snd (iteration seen w)) = log w ++ evs
    /\ sublist (presented evs) (omap (question_in d) (pending_files d)).
Proof.
  intros Hm Hl. unfold iteration, bind.
  rewrite (getPendingQuestions_listing w d Hm Hl).
  set (w0 := logged [EvExistsDir; EvReaddir] w).
  destruct (read_questions_result (pending_files d) w0 d Hm) as (evs1 & E1 & F1 & R1).
  assert (presented ([EvExistsDir; EvReaddir] ++ evs1) = []) as Hsilent.
  { by rewrite presented_app, (silent_presented evs1). }
  destruct (read_questions (pending_files d) w0) as [[qs|e|h] w1]; cbn [fst snd] in *.
  - destruct R1 as [R1|R1]; [|done]. simplify_eq.
    destruct (serve_presents_in_order (omap (parsed_in d) (pending_files d)) seen w1)
      as (evs2 & E2 & S2).
    exists (([EvExistsDir; EvReaddir] ++ evs1) ++ evs2).
    split; [rewrite E2, E1; cbn; by rewrite <- !app_assoc|].
    rewrite presented_app, Hsilent. cbn [app].
    by rewrite <- omap_parsed_question.
  - exists ([EvExistsDir; EvReaddir] ++ evs1).
    split; [rewrite E1; cbn; by rewrite <- !app_assoc|].
    rewrite Hsilent. apply sublist_nil_l.
  - exists ([EvExistsDir; EvReaddir] ++ evs1).
    split; [rewrite E1; cbn; by rewrite <- !app_assoc|].
    rewrite Hsilent. apply sublist_nil_l.
Qed.

End ResponderOrder.

(** ** From the human's lines to the tool's result *)

Module RoundTrip.
Import World Ipc WorldFacts Traces JsonFacts RequesterFacts ResponderFacts.
Local Open Scope io_scope.

(** The lines [prompt] collects are the non-empty ones among those it has
    taken from the input. *)
Lemma prompt_takes_nonempty (lines input collected rest : list string) (count : nat) :
  Responder.prompt lines count input = Some (collected, rest) ->
  exists entered,
    input = entered ++ rest
    /\ collected = lines ++ filter (fun l => l <> "") entered.
Proof.
  revert lines count. induction input as [|line input IH]; intros lines count; [done|].
  cbn [Responder.prompt]. destruct (String.eqb_spec line "") as [->|Hne].
  - destruct ((1 <=? S count)%nat && (0 <? length lines)%nat).
    + intros [= <- <-]. exists [""]. split; [done|]. cbn. by rewrite app_nil_r.
    + intros (entered & -> & ->)%IH. exists ("" :: entered). done.
  - intros (entered & -> & ->)%IH. exists (line :: entered). split; [done|].
    rewrite filter_cons. case_decide; [|done]. by rewrite <- app_assoc.
Qed.

Lemma promptUser_writes (q : Question) (w : world) (d : Dir) (lines rest : list string) :
  mailbox w = Some d -> writable d = true ->
  Responder.prompt [] 0 (stdin w) = Some (lines, rest) ->
  let text := Codec.stringify_Response (Responder.reply_to q lines (clock w)) in
  Responder.promptUser q w
  = (Val tt,
     with_mailbox (Some (put_file (response_file (q_id q)) text d))
       (with_stdin rest (logged [EvWrite (response_file (q_id q)) text] w))).
Proof.
  destruct w as [m c a i l]. cbn. intros -> Hw Hp. unfold Responder.reply_to.
  responder_unfold. cbn. rewrite Hp. cbn.
  destruct (String.eqb _ _); cbn; by rewrite Hw.
Qed.

Lemma tick_consumes_reply qf rf ts tm st (w : world) (d : Dir) (r : Response) :
  qf <> rf ->
  aborted w = false -> (clock w - st >? tm) = false ->
  mailbox w = Some d -> writable d = true ->
  files d !! rf = Some (Codec.stringify_Response r) ->
  fst (Requester.tick qf rf ts tm st w)
  = Val (Some (if r_responded r
               then Requester.answered_result (Some (JStr (r_response r)))
               else Requester.user_cancelled_result)).
Proof.
  intros Hne Ha Ht Hm Hw Hf.
  destruct (tick_reply_parsed qf rf ts tm st w d _ _ Hne Ha Ht Hm Hw Hf
              (parse_stringify_Response r)) as [evs ->].
  destruct r as [i t b n]. cbn. by destruct b.
Qed.

(** C1. When the human submits an answer that is not the cancel word, the
    lines collected are the non-empty lines entered; the Responder writes a
    reply record with [responded = true] whose text is those lines joined
    with newlines and trimmed; and an iteration of the Requester that finds
    this record (not aborted, not past the deadline, deletion permitted)
    returns that very text as its response. *)
Theorem answered_text_round_trip
    (q : Question) (w : world) (d : Dir) (lines rest : list string) :
  mailbox w = Some d -> writable d = true ->
  Responder.prompt [] 0 (stdin w) = Some (lines, rest) ->
  JsString.toLowerCase (Responder.answer_text lines) <> "cancel" ->
  let text := JsString.trim (JsString.join Responder.newline lines) in
  let record := Codec.stringify_Response (mkResponse (q_id q) text true (clock w)) in
  (exists entered,
     stdin w = entered ++ rest /\ lines = filter (fun l => l <> "") entered)
  /\ fst (Responder.promptUser q w) = Val tt
  /\ file_of (mailbox (snd (Responder.promptUser q w))) (response_file (q_id q))
     = Some record
  /\ (forall ts tm st w2 d2,
        aborted w2 = false -> (clock w2 - st >? tm) = false ->
        mailbox w2 = Some d2 -> writable d2 = true ->
        files d2 !! response_file (q_id q) = Some record ->
        fst (Requester.tick (question_file (q_id q)) (response_file (q_id q))
               ts tm st w2)
        = Val (Some (Requester.mkResult true (Some (JStr text)) false None))).
Proof.
  intros Hm Hw Hp Hanswer text record.
  assert (Responder.reply_to q lines (clock w) = mkResponse (q_id q) text true (clock w)) as Hr.
  { unfold Responder.reply_to. apply String.eqb_neq in Hanswer. by rewrite Hanswer. }
  split; [apply (prompt_takes_nonempty [] _ _ _ 0%nat Hp)|].
  rewrite (promptUser_writes q w d lines rest Hm Hw Hp), Hr. cbn [fst snd].
  split; [done|]. split; [cbn; apply lookup_insert_eq|].
  intros ts tm st w2 d2 Ha Ht Hm2 Hw2 Hf.
  by rewrite (tick_consumes_reply _ _ ts tm st w2 d2 _
                (question_response_differ (q_id q)) Ha Ht Hm2 Hw2 Hf).
Qed.

Lemma tick_reason_iff_cancelled qf rf ts tm st (w w' : world) (o : Requester.ToolResult) :
  Requester.tick qf rf ts tm st w = (Val (Some o), w') ->
  is_Some (Requester.reason o) <-> Requester.cancelled o = true.
Proof.
  intros H. destruct (aborted w) eqn:Ha.
  { rewrite tick_aborted in H by done. unfold bind, ret in H.
    destruct (Requester.unlink_if_exists qf w) as [[[]|e|h] w1]; simplify_eq.
    cbn. split; [done|by eauto]. }
  destruct (clock w - st >? tm) eqn:Ht.
  { rewrite tick_timed_out in H by done. unfold bind, ret in H.
    destruct (Requester.unlink_if_exists qf w) as [[[]|e|h] w1]; simplify_eq.
    cbn. split; [done|by eauto]. }
  destruct (tick_reply_path_results _ _ _ _ _ _ _ _ Ha Ht H) as [[t ->]| ->]; cbn.
  - split; [by intros [? ?]|done].
  - split; [done|by eauto].
Qed.

(** C4. When the text collected is the word cancel in any letter case, the
    Responder writes a reply record with [responded = false] and an empty
    text; an iteration of the Requester that finds this record returns
    [{responded: false, response: "", cancelled: true, reason: "User cancelled
    the request"}]; and whatever an iteration returns has a [reason] exactly
    when it has [cancelled = true]. *)
Theorem cancel_word_yields_user_cancelled
    (q : Question) (w : world) (d : Dir) (lines rest : list string) :
  mailbox w = Some d -> writable d = true ->
  Responder.prompt [] 0 (stdin w) = Some (lines, rest) ->
  JsString.toLowerCase (JsString.trim (JsString.join Responder.newline lines))
  = "cancel" ->
  let record := Codec.stringify_Response (mkResponse (q_id q) "" false (clock w)) in
  fst (Responder.promptUser q w) = Val tt
  /\ file_of (mailbox (snd (Responder.promptUser q w))) (response_file (q_id q))
     = Some record
  /\ (forall ts tm st w2 d2,
        aborted w2 = false -> (clock w2 - st >? tm) = false ->
        mailbox w2 = Some d2 -> writable d2 = true ->
        files d2 !! response_file (q_id q) = Some record ->
        fst (Requester.tick (question_file (q_id q)) (response_file (q_id q))
               ts tm st w2)
        = Val (Some (Requester.mkResult false (Some (JStr "")) true
                       (Some "User cancelled the request"))))
  /\ (forall qf rf ts tm st w1 w1' o,
        Requester.tick qf rf ts tm st w1 = (Val (Some o), w1') ->
        is_Some (Requester.reason o) <-> Requester.cancelled o = true).
Proof.
  intros Hm Hw Hp Hcancel record.
  assert (Responder.reply_to q lines (clock w) = mkResponse (q_id q) "" false (clock w)) as Hr.
  { unfold Responder.reply_to, Responder.answer_text. by rewrite Hcancel. }
  rewrite (promptUser_writes q w d lines rest Hm Hw Hp), Hr. cbn [fst snd].
  split; [done|]. split; [cbn; apply lookup_insert_eq|]. split.
  - intros ts tm st w2 d2 Ha Ht Hm2 Hw2 Hf.
    by rewrite (tick_consumes_reply _ _ ts tm st w2 d2 _
                  (question_response_differ (q_id q)) Ha Ht Hm2 Hw2 Hf).
  - intros. by eapply tick_reason_iff_cancelled.
Qed.

End RoundTrip.

(** ** File names and ids *)

Module NameFacts.
Import World Ipc Responder JsonFacts.

Lemma rev_app_append (a b c : string) :
  String.rev_app (a +:+ b) c = String.rev_app b (String.rev_app a c).
Proof.
  revert c. induction a as [|x a IH]; intros c; [done|].
  rewrite app_cons. cbn [String.rev_app]. apply IH.
Qed.

Lemma rev_app_acc (a c : string) : String.rev_app a c = String.rev a +:+ c.
Proof.
  revert c. induction a as [|x a IH]; intros c; [done|].
  unfold String.rev. cbn [String.rev_app].
  rewrite (IH (String x c)), (IH (String x "")), app_assoc_string. done.
Qed.

Lemma rev_append (a b : string) : String.rev (a +:+ b) = String.rev b +:+ String.rev a.
Proof. unfold String.rev at 1. by rewrite rev_app_append, rev_app_acc. Qed.

Lemma prefix_append (p s : string) : String.prefix p (p +:+ s) = true.
Proof.
  induction p as [|x p IH]; [by destruct s|].
  rewrite app_cons. cbn [String.prefix]. by destruct (ascii_dec x x).
Qed.

Lemma startsWith_append (p s : string) : JsString.startsWith (p +:+ s) p = true.
Proof. apply prefix_append. Qed.

Lemma endsWith_append (s p : string) : JsString.endsWith (s +:+ p) p = true.
Proof. unfold JsString.endsWith. rewrite rev_append. apply prefix_append. Qed.

Lemma append_inv_tail (a b t : string) : a +:+ t = b +:+ t -> a = b.
Proof.
  revert b. induction a as [|x a IH]; intros [|y b] H.
  - done.
  - apply (f_equal String.length) in H.
    rewrite !length_app_string in H. cbn in H. lia.
  - apply (f_equal String.length) in H.
    rewrite !length_app_string in H. cbn in H. lia.
  - rewrite !app_cons in H. injection H as -> H. f_equal. by apply IH.
Qed.

Lemma question_file_is_request (id : string) :
  is_question_file (question_file id) = true.
Proof.
  unfold is_question_file, question_file.
  rewrite startsWith_append.
  rewrite <- app_assoc_string, endsWith_append. done.
Qed.

Lemma response_file_is_no_request (id : string) :
  is_question_file (response_file id) = false.
Proof. reflexivity. Qed.

(** X1. Every request record of the Requester passes the file filter of the
    Responder, and no reply record does: whatever the id, the name
    [question_<id>.json] starts with [question_] and ends with [.json], and
    the name [response_<id>.json] is not taken for that of a request. *)
Theorem request_files_pass_the_filter (id : string) :
  is_question_file (question_file id) = true
  /\ is_question_file (response_file id) = false.
Proof. split; [apply question_file_is_request|apply response_file_is_no_request]. Qed.

(** X3. Two calls get the same id from [generateQuestionId] only when they
    read the same clock value and draw the same random suffix. *)
Theorem generated_ids_differ (random random' : string) (w w' : world) :
  fst (Requester.generateQuestionId random w)
  = fst (Requester.generateQuestionId random' w') ->
  clock w = clock w' /\ random = random'.
Proof.
  unfold Requester.generateQuestionId, bind, Date_now, ret. cbn [fst].
  intros [= H].
  change (JsString.of_Z (clock w) +:+ String "_" random
          = JsString.of_Z (clock w') +:+ String "_" random') in H.
  pose proof (parse_number_of_Z (clock w) "_" random eq_refl) as E.
  pose proof (parse_number_of_Z (clock w') "_" random' eq_refl) as E'.
  rewrite H in E. rewrite E in E'. by simplify_eq.
Qed.

End NameFacts.

(** ** Records of which only a part is written *)

Module PartialFacts.
Import Json JsonFacts Partial.

Lemma append_eq_append (p rest a b : string) :
  p +:+ rest = a +:+ b ->
  (exists a2, a2 <> "" /\ a = p +:+ a2 /\ rest = a2 +:+ b)
  \/ (exists p2, p = a +:+ p2 /\ b = p2 +:+ rest).
Proof.
  revert a. induction p as [|x p IH]; intros [|y a] H.
  - right. by exists "".
  - left. exists (String y a). by rewrite !app_nil in *.
  - right. exists (String x p). by rewrite !app_nil in *.
  - rewrite !app_cons in H. injection H as -> H.
    destruct (IH _ H) as [(a2 & ? & -> & ->)|(p2 & -> & ->)].
    + left. by exists a2.
    + right. by exists p2.
Qed.

Lemma append_nil_r (s : string) : s +:+ "" = s.
Proof. induction s as [|c s IH]; [done|]. by rewrite app_cons, IH. Qed.

Lemma elem_of_proper_prefixes (text part : string) :
  part ∈ proper_prefixes text <-> cut_short text part.
Proof.
  revert part. induction text as [|c text IH]; intros part; cbn [proper_prefixes].
  - split; [by intros ?%elem_of_nil|].
    intros (rest & Hne & H). by destruct part, rest.
  - rewrite elem_of_cons, list_elem_of_fmap. split.
    + intros [->|(p & -> & (rest & Hne & ->)%IH)].
      * by exists (String c text).
      * by exists rest.
    + intros (rest & Hne & H). destruct part as [|x part]; [by left|right].
      rewrite app_cons in H. injection H as <- ->.
      exists part. split; [done|]. apply IH. by exists rest.
Qed.

(** A property of all proper initial parts of a text, checked on the list of
    them. *)
Lemma cut_short_forall (P : string -> Prop) (text part : string) :
  Forall P (proper_prefixes text) -> cut_short text part -> P part.
Proof.
  intros HP Hc%elem_of_proper_prefixes. by eapply Forall_forall in HP.
Qed.

Lemma parse_chars_escape_char_cut (c : ascii) :
  Forall (fun p => parse_chars p = PSyntaxError) (proper_prefixes (escape_char c)).
Proof. destruct c as [[] [] [] [] [] [] [] []]; repeat constructor. Qed.

(** The characters of a string literal of which the text holds only a
    part. *)
Lemma parse_chars_part (s tail p rest : string) :
  p +:+ rest = escape s +:+ String "034" tail ->
  parse_chars p = PSyntaxError
  \/ exists p', p = escape s +:+ String "034" p' /\ tail = p' +:+ rest.
Proof.
  revert p. induction s as [|c s IH]; intros p H.
  - cbn [escape] in H. rewrite app_nil in H.
    destruct p as [|x p]; [by left|right].
    rewrite app_cons in H. injection H as -> <-. by exists p.
  - cbn [escape] in H. rewrite app_assoc_string in H.
    apply append_eq_append in H as [(a2 & Hne & Hc & _)|(p2 & -> & H)].
    + left.
      apply (cut_short_forall (fun p => parse_chars p = PSyntaxError) (escape_char c));
        [apply parse_chars_escape_char_cut|by exists a2].
    + rewrite parse_chars_escape_char.
      destruct (IH _ (eq_sym H)) as [->|(p' & -> & ->)]; [by left|right].
      exists p'. cbn [escape]. by rewrite app_assoc_string.
Qed.

(** Digits *)

Lemma span_digits_all (s : string) :
  forallb is_digit (list_ascii_of_string s) = true -> span_digits s = (s, "").
Proof.
  induction s as [|c s IH]; [done|]. cbn.
  intros [Hc Hs]%andb_true_iff. by rewrite Hc, IH.
Qed.

Lemma uint_digits (d : Decimal.uint) :
  forallb is_digit (list_ascii_of_string (NilEmpty.string_of_uint d)) = true.
Proof. induction d; cbn; done. Qed.

Lemma digits_part (p rest : string) :
  forallb is_digit (list_ascii_of_string (p +:+ rest)) = true ->
  forallb is_digit (list_ascii_of_string p) = true.
Proof.
  induction p as [|c p IH]; [done|]. rewrite app_cons. cbn.
  intros [Hc Hs]%andb_true_iff. by rewrite Hc, IH.
Qed.

Lemma parse_digits_all (s : string) :
  forallb is_digit (list_ascii_of_string s) = true ->
  parse_digits s = PSyntaxError \/ exists n, parse_digits s = POk (n, "").
Proof.
  intros H. unfold parse_digits. rewrite (span_digits_all _ H).
  destruct s as [|d ds]; [by left|].
  destruct (Ascii.eqb d "0" && negb (String.eqb ds "")); [by left|].
  destruct (NilEmpty.uint_of_string (String d ds)); [right; eauto|by left].
Qed.

Lemma parse_number_part (z : Z) (p rest : string) :
  JsString.of_Z z = p +:+ rest ->
  parse_number p = PSyntaxError \/ exists n, parse_number p = POk (n, "").
Proof.
  unfold JsString.of_Z, JsString.decimal. intros H.
  destruct p as [|c p]; [by left|].
  rewrite app_cons in H. unfold parse_number.
  destruct (z <? 0).
  - injection H as <- H. cbn.
    destruct (parse_digits_all p) as [->|[n ->]]; [|by left|right; eauto].
    apply (digits_part _ rest). rewrite <- H. apply uint_digits.
  - assert (forallb is_digit (list_ascii_of_string (String c p)) = true) as Hd.
    { apply (digits_part _ rest). rewrite app_cons, <- H. apply uint_digits. }
    assert (Ascii.eqb c "-" = false) as ->.
    { cbn in Hd. apply andb_true_iff in Hd as [Hc _].
      destruct c as [[] [] [] [] [] [] [] []]; done. }
    destruct (parse_digits_all _ Hd) as [->|[n ->]]; [by left|right; eauto].
Qed.

(** A member's value of which the text holds only a part (or all, and
    nothing after it): a syntax error, or a value with nothing left to
    read. *)
Lemma parse_value_part (f : nat) (v : scalar) (p a2 : string) :
  print_scalar v = p +:+ a2 ->
  parse_value (S f) (String " " p) = PSyntaxError
  \/ exists j, parse_value (S f) (String " " p) = POk (j, "").
Proof.
  intros H. destruct v as [s|b|z]; cbn [print_scalar] in H.
  - destruct p as [|x p]; [by left|].
    unfold quote in H. rewrite app_cons in H. injection H as <- H.
    rewrite parse_value_string_eq.
    destruct (parse_chars_part s "" p a2 (eq_sym H)) as [->|(p' & -> & H')];
      [by left|right].
    destruct p'; [|done]. rewrite parse_chars_escape. by eexists.
  - assert (cut_short (print_bool b +:+ "x") p) as Hc.
    { exists (a2 +:+ "x"). split; [by destruct a2|].
      by rewrite H, app_assoc_string. }
    revert Hc.
    apply (cut_short_forall
             (fun p => parse_value (S f) (String " " p) = PSyntaxError
                       \/ exists j, parse_value (S f) (String " " p) = POk (j, ""))).
    destruct b;
      match goal with
      | |- Forall _ ?l => let l' := eval vm_compute in l in change l with l'
      end;
      repeat first [apply Forall_nil_2
                   |apply Forall_cons_2; [(by left) || (right; by eexists)|]].
  - destruct p as [|c p]; [by left|].
    destruct (number_head z) as (a & s' & Hz & Ha).
    assert (a = c) as -> by (rewrite Hz, app_cons in H; by injection H).
    rewrite (parse_value_number_eq _ _ _ Ha).
    destruct (parse_number_part z _ _ H) as [->|[n ->]]; [by left|right].
    by eexists.
Qed.

Lemma print_members_cons_eq (k : string) (v : scalar) (ms : list (string * scalar)) :
  print_members ((k, v) :: ms) +:+ String "010" "}"
  = String "010" (String " " (String " " (String "034"
      (escape k +:+ String "034" (String ":" (String " "
         (print_scalar v
          +:+ match ms with
              | [] => String "010" "}"
              | _ :: _ => String "," (print_members ms +:+ String "010" "}")
              end))))))).
Proof.
  cbn [print_members]. unfold quote.
  repeat (rewrite app_cons || rewrite app_assoc_string || rewrite app_nil).
  by destruct ms.
Qed.

(** The members of a printed object of which the text holds only a part. *)
Lemma parse_members_part (ms : list (string * scalar)) :
  ms <> [] ->
  forall (f : nat) (p rest : string) (acc : list (string * json)),
    rest <> "" ->
    p +:+ rest = print_members ms +:+ String "010" "}" ->
    (String.length p <= f)%nat ->
    parse_members (S f) p acc = PSyntaxError.
Proof.
  induction ms as [|[k v] ms IH]; [done|].
  intros _ f p rest acc Hrest H Hlen.
  rewrite print_members_cons_eq in H.
  do 4 (destruct p as [|? p]; [done|]; rewrite app_cons in H; injection H as -> H).
  rewrite parse_members_key_eq.
  destruct (parse_chars_part _ _ _ _ H) as [->|(p2 & -> & H2)]; [done|].
  rewrite parse_chars_escape. cbn [pbind].
  destruct p2 as [|? p2]; [done|]. rewrite app_cons in H2. injection H2 as <- H2.
  change (skip_ws (String ":" p2)) with (String ":" p2). cbv iota.
  destruct f as [|f]; [cbn in Hlen; lia|].
  destruct p2 as [|? p2]; [done|]. rewrite app_cons in H2. injection H2 as <- H2.
  apply eq_sym, append_eq_append in H2 as [(a2 & _ & Hv & _)|(p4 & -> & H4)].
  { destruct (parse_value_part f v _ _ Hv) as [->|[j ->]]; done. }
  destruct p4 as [|c p5].
  { destruct (parse_value_part f v (print_scalar v +:+ "") "") as [->|[j ->]];
      [by rewrite !append_nil_r|done..]. }
  rewrite app_cons in H4. destruct ms as [|m ms].
  - injection H4 as <- H4.
    rewrite (parse_value_scalar f v "010" p5 eq_refl). cbn [pbind].
    destruct p5 as [|? p5]; [done|]. rewrite app_cons in H4. injection H4 as _ H4.
    by destruct p5, rest.
  - injection H4 as <- H4.
    rewrite (parse_value_scalar f v "," p5 eq_refl). cbn [pbind].
    change (skip_ws (String "," p5)) with (String "," p5). cbv iota.
    apply (IH ltac:(done) f p5 rest); [done|done|].
    cbn in Hlen. rewrite !length_app_string in Hlen. cbn in Hlen.
    rewrite !length_app_string in Hlen. cbn in Hlen. lia.
Qed.

(** Of a printed record, no initial part short of the whole can be
    parsed. *)
Lemma parse_print_object_part (ms : list (string * scalar)) (part : string) :
  cut_short (print_object ms) part -> Json.parse part = PSyntaxError.
Proof.
  intros (rest & Hrest & H). destruct ms as [|m ms].
  - apply (cut_short_forall (fun p => Json.parse p = PSyntaxError) "{}");
      [repeat constructor|by exists rest].
  - destruct m as [k v].
    cbn [print_object] in H. destruct part as [|c p]; [done|].
    rewrite app_cons in H.
    assert (c = "{"%char
            /\ p +:+ rest = print_members ((k, v) :: ms) +:+ String "010" "}")
      as [-> H0].
    { injection H as Hc Hp. split; [done|]. symmetry. exact Hp. }
    assert (parse_value (S (String.length (String "{" p))) (String "{" p)
            = PSyntaxError) as E.
    { cbn [String.length].
      transitivity (parse_members (S (String.length p)) p []).
      - pose proof H0 as H'. rewrite print_members_cons_eq in H'.
        do 4 (destruct p as [|? p]; [done|]; rewrite app_cons in H';
              injection H' as -> H').
        reflexivity.
      - by apply (parse_members_part ((k, v) :: ms) ltac:(done) _ p rest). }
    unfold Json.parse. by rewrite E.
Qed.

End PartialFacts.

(** ** The Responder's scan of the mailbox *)

Module ResponderScan.
Import World Ipc Responder Traces ResponderFacts ResponderOrder WorldFacts.
Import Partial PartialFacts NameFacts JsonFacts.
Local Open Scope io_scope.

(** *** Which files are read *)

Lemma emits_read_questions_of (P : event -> Prop) (names : list string) :
  Forall (fun f => P (EvRead f)) names -> emits P (read_questions names).
Proof.
  induction 1 as [|f names Hf _ IH]; cbn [read_questions]; [apply steps_ret, _|].
  sbind.
  - scatch; [|intros _; apply steps_ret, _].
    sbind; [by apply emits_readFileSync|intros text].
    sbind; [apply steps_JSON_parse, _|intros data]. apply steps_ret, _.
  - intros r. sbind; [exact IH|intros qs]. apply steps_ret, _.
Qed.

(** X14. The Responder reads only request files: every file it reads in a
    run has a name that starts with [question_] and ends with [.json]; in
    particular it never reads a reply record. *)
Theorem only_request_files_are_read (naps : list interval) (w : world) :
  exists evs,
    log (snd (main naps w)) = log w ++ evs
    /\ Forall (fun e => forall f, e = EvRead f -> is_question_file f = true) evs
    /\ (forall id, EvRead (response_file id) ∉ evs).
Proof.
  cut (exists evs,
         log (snd (main naps w)) = log w ++ evs
         /\ Forall (fun e => forall f, e = EvRead f -> is_question_file f = true) evs).
  { intros (evs & E & F). exists evs. split; [done|]. split; [done|].
    intros id Hin. eapply Forall_forall in F; [|exact Hin].
    specialize (F _ eq_refl). by rewrite response_file_is_no_request in F. }
  set (P := fun e => forall f, e = EvRead f -> is_question_file f = true).
  assert (forall seen, emits P (iteration seen)) as Hit.
  { intros seen. unfold iteration. sbind; [|intros qs; by apply emits_serve].
    unfold getPendingQuestions.
    sbind; [by apply emits_ensureIpcDir|intros _].
    sbind; [by apply emits_readdirSync|intros names].
    apply emits_read_questions_of, Forall_forall. intros f Hf g [= <-].
    rewrite merge_sort_Permutation in Hf. by apply list_elem_of_filter in Hf as [? _]. }
  assert (forall seen, emits P (main_loop seen naps)) as Hloop.
  { induction naps as [|nap naps IH]; intros seen; cbn [main_loop];
      (sbind; [apply Hit|intros seen']); [apply steps_ret, _|].
    sbind; [apply emits_sleep|intros _]. apply IH. }
  assert (emits P (main naps)) as Hmain.
  { unfold main. scatch; [apply Hloop|intros e].
    sbind; [by apply emits_event|intros _]. apply steps_stop, _. }
  exact (Hmain w).
Qed.

(** *** The scan of the directory *)

Lemma read_questions_step (f : string) (names : list string) (w : world) :
  read_questions (f :: names) w
  = match file_of (mailbox w) f with
    | Some text =>
        match Json.parse text with
        | POk data =>
            match read_questions names (logged [EvRead f] w) with
            | (Val qs, w1) => (Val (data :: qs), w1)
            | (Throw e, w1) => (Throw e, w1)
            | (Halt h, w1) => (Halt h, w1)
            end
        | PSyntaxError => read_questions names (logged [EvRead f] w)
        | PUnmodelled => (Halt Unmodelled, logged [EvRead f] w)
        end
    | None => read_questions names (logged [EvRead f] w)
    end.
Proof.
  destruct (file_of (mailbox w) f) as [text|] eqn:Hf;
    [destruct (Json.parse text) eqn:Hp|].
  - cbn [read_questions]. unfold bind at 1.
    assert (try_catch
              (text <- readFileSync f ;; data <- JSON_parse text ;; ret (Some data))
              (fun _ => ret None) w
            = (Val (Some a), logged [EvRead f] w)) as ->.
    { destruct w as [[d|] c ab i l]; [|done]. responder_unfold.
      cbn -[Json.parse] in *. rewrite Hf. cbn -[Json.parse]. by rewrite Hp. }
    unfold bind, ret. by destruct (read_questions names _) as [[qs|e|h] w1].
  - apply read_questions_skips_unreadable. eauto.
  - cbn [read_questions]. unfold bind at 1.
    assert (try_catch
              (text <- readFileSync f ;; data <- JSON_parse text ;; ret (Some data))
              (fun _ => ret None) w
            = (Halt Unmodelled, logged [EvRead f] w)) as ->; [|done].
    destruct w as [[d|] c ab i l]; [|done]. responder_unfold.
    cbn -[Json.parse] in *. rewrite Hf. cbn -[Json.parse]. by rewrite Hp.
  - apply read_questions_skips_unreadable. eauto.
Qed.

Lemma read_questions_mailbox (names : list string) (w : world) :
  mailbox (snd (read_questions names w)) = mailbox w
  /\ stdin (snd (read_questions names w)) = stdin w.
Proof.
  revert w. induction names as [|f names IH]; intros w; [done|].
  rewrite read_questions_step.
  pose proof (IH (logged [EvRead f] w)) as IH'.
  destruct (file_of (mailbox w) f) as [text|]; [|done].
  destruct (Json.parse text); [|done..].
  by destruct (read_questions names _) as [[qs|e|h] w1].
Qed.

Lemma pending_files_NoDup (d : Dir) : NoDup (pending_files d).
Proof.
  unfold pending_files. rewrite merge_sort_Permutation.
  apply NoDup_filter, NoDup_fst_map_to_list.
Qed.

(** The list of request files is determined by which of them exist. *)
Lemma pending_files_unique (d : Dir) (names : list string) :
  StronglySorted String.le names -> NoDup names ->
  (forall f, f ∈ names <-> is_question_file f = true /\ is_Some (files d !! f)) ->
  pending_files d = names.
Proof.
  intros Hs Hn He. apply (StronglySorted_unique String.le).
  - apply pending_files_sorted.
  - done.
  - apply NoDup_Permutation; [apply pending_files_NoDup|done|].
    intros f. by rewrite elem_of_pending_files, He.
Qed.

Lemma pending_files_none (d : Dir) :
  (forall f, is_question_file f = true -> files d !! f = None) ->
  pending_files d = [].
Proof.
  intros H. apply pending_files_unique; [constructor|constructor|].
  intros f. split; [by intros ?%elem_of_nil|].
  intros [Hq [t Hf]]. rewrite (H f Hq) in Hf. done.
Qed.

Lemma pending_files_one (d : Dir) (f : string) :
  is_question_file f = true -> is_Some (files d !! f) ->
  (forall g, is_question_file g = true -> is_Some (files d !! g) -> g = f) ->
  pending_files d = [f].
Proof.
  intros Hq Hf H. apply pending_files_unique.
  - repeat constructor.
  - apply NoDup_singleton.
  - intros g. rewrite list_elem_of_singleton. split; [by intros ->|].
    intros [? ?]. by apply H.
Qed.

Lemma StronglySorted_filter {A} (R : relation A) (P : A -> Prop)
    `{!forall x, Decision (P x)} (l : list A) :
  StronglySorted R l -> StronglySorted R (filter P l).
Proof.
  induction 1 as [|x l _ IH Hx]; [constructor|].
  rewrite filter_cons. case_decide; [|done].
  constructor; [done|].
  apply Forall_forall. intros y [_ Hy]%list_elem_of_filter.
  by eapply Forall_forall in Hx.
Qed.

Lemma pending_files_remove (d : Dir) (f : string) :
  pending_files (remove_file f d) = filter (fun g => g <> f) (pending_files d).
Proof.
  apply pending_files_unique.
  - apply StronglySorted_filter, pending_files_sorted.
  - apply NoDup_filter, pending_files_NoDup.
  - intros g. rewrite list_elem_of_filter, elem_of_pending_files. cbn.
    destruct (decide (g = f)) as [->|Hne].
    + rewrite lookup_delete_eq. split; [by intros [? _]|by intros [_ [? ?]]].
    + rewrite lookup_delete_ne by done. naive_solver.
Qed.

Lemma read_questions_without (d : Dir) (f part : string) (names : list string) :
  files d !! f = Some part -> Json.parse part = PSyntaxError ->
  forall w w',
    mailbox w = Some d -> mailbox w' = Some (remove_file f d) ->
    fst (read_questions names w)
    = fst (read_questions (filter (fun g => g <> f) names) w').
Proof.
  intros Hf Hp. induction names as [|g names IH]; intros w w' Hm Hm'; [done|].
  rewrite read_questions_step, filter_cons. case_decide as Hg.
  - rewrite read_questions_step, Hm, Hm'. cbn [file_of remove_file files].
    rewrite lookup_delete_ne by done.
    pose proof (IH (logged [EvRead g] w) (logged [EvRead g] w') Hm Hm') as IH'.
    destruct (files d !! g) as [text|]; [|done].
    destruct (Json.parse text); [|done..].
    destruct (read_questions names _) as [[qs|e|h] w1],
             (read_questions (filter _ names) _) as [[qs'|e'|h'] w1'];
      cbn in IH' |- *; by simplify_eq.
  - subst g. rewrite Hm. cbn [file_of]. rewrite Hf, Hp.
    by apply IH.
Qed.

(** X6. A request record of which only a part is written yet is passed
    over as if it were not there: [getPendingQuestions] returns what it
    returns for the mailbox without that file. *)
Theorem half_written_request_is_passed_over
    (w : world) (d : Dir) (f part : string) (q : Question) :
  mailbox w = Some d -> listable d = true ->
  files d !! f = Some part ->
  cut_short (Codec.stringify_Question q) part ->
  fst (getPendingQuestions w)
  = fst (getPendingQuestions (with_mailbox (without f (mailbox w)) w)).
Proof.
  intros Hm Hl Hf Hc%parse_print_object_part.
  rewrite (getPendingQuestions_listing w d Hm Hl).
  rewrite (getPendingQuestions_listing _ (remove_file f d));
    [|by rewrite Hm|done].
  rewrite pending_files_remove.
  apply (read_questions_without d f part); [done|done|done|].
  by rewrite Hm.
Qed.

(** X15. With no request file in the mailbox an iteration of the Responder
    presents nothing: it creates the directory if it is missing, lists it,
    reads no file, takes no line from the terminal, and leaves the set of
    processed ids as it is. *)
Theorem no_request_nothing_presented (seen : gset string) (w : world) :
  (forall f, is_question_file f = true -> file_of (mailbox w) f = None) ->
  (forall d, mailbox w = Some d -> listable d = true) ->
  exists evs,
    iteration seen w
    = (Val seen,
       with_mailbox (Some (default (mkDir true true ∅) (mailbox w))) (logged evs w))
    /\ (evs = [EvExistsDir; EvReaddir] \/ evs = [EvExistsDir; EvMkdir; EvReaddir]).
Proof.
  intros Hnone Hl. destruct w as [[d|] c a i l].
  - exists [EvExistsDir; EvReaddir]. split; [|by left].
    unfold iteration, bind at 1.
    rewrite (getPendingQuestions_listing (mkWorld (Some d) c a i l) d eq_refl
               (Hl d eq_refl)).
    rewrite (pending_files_none d) by exact Hnone. done.
  - exists [EvExistsDir; EvMkdir; EvReaddir]. split; [|by right].
    unfold iteration. responder_unfold. cbn.
    rewrite map_to_list_empty. cbn. by rewrite <- !app_assoc.
Qed.

(** X4. The request record the Requester writes reads back, through
    [JSON.parse], as the very question written: id, question, title (present
    or not), session, message and timestamp. *)
Theorem request_record_reads_back (d : Dir) (f : string) (q : Question) :
  files d !! f = Some (Codec.stringify_Question q) ->
  question_in d f = Some q.
Proof.
  intros H. unfold question_in, parsed_in.
  rewrite H, parse_stringify_Question. by destruct q as [i t [ti|] s m ts].
Qed.

End ResponderScan.

(** ** The answer the human types *)

Module AnswerFacts.
Import World Ipc Responder ResponderFacts RoundTrip JsonFacts NameFacts Texts.
Local Open Scope io_scope.

(** *** The lines of an answer *)

(** X17. The count of empty lines has no effect: whatever its value, the
    prompt goes the same way on the same input. (The test
    [emptyLineCount >= 1] is made after the increment, so [lines.length > 0]
    alone decides.) *)
Theorem empty_line_count_has_no_effect
    (lines input : list string) (count count' : nat) :
  prompt lines count input = prompt lines count' input.
Proof.
  revert lines count count'.
  induction input as [|line input IH]; intros lines count count'; [done|].
  cbn [prompt]. destruct (String.eqb line ""); [|apply IH].
  cbn [Nat.leb andb]. destruct (0 <? length lines)%nat; [done|apply IH].
Qed.

Lemma prompt_after_content (lines input collected rest : list string) (count : nat) :
  lines <> [] ->
  prompt lines count input = Some (collected, rest) ->
  exists body,
    input = body ++ "" :: rest /\ collected = lines ++ body
    /\ Forall (fun l => l <> "") body.
Proof.
  revert lines count. induction input as [|line input IH]; intros lines count Hne; [done|].
  cbn [prompt]. destruct (String.eqb_spec line "") as [->|Hl].
  - cbn [Nat.leb andb]. destruct lines as [|l0 lines]; [done|]. cbn.
    intros [= <- <-]. exists []. by rewrite app_nil_r.
  - intros (body & -> & -> & Hb)%IH; [|by destruct lines].
    exists (line :: body). rewrite <- app_assoc. by repeat constructor.
Qed.

Lemma prompt_from_start (input collected rest : list string) (count : nat) :
  prompt [] count input = Some (collected, rest) ->
  exists blanks,
    input = replicate blanks "" ++ collected ++ "" :: rest
    /\ collected <> [] /\ Forall (fun l => l <> "") collected.
Proof.
  revert count. induction input as [|line input IH]; intros count; [done|].
  cbn [prompt]. destruct (String.eqb_spec line "") as [->|Hl].
  - cbn [Nat.leb andb length Nat.ltb]. intros (blanks & -> & ? & ?)%IH.
    by exists (S blanks).
  - intros (body & -> & -> & Hb)%prompt_after_content; [|done].
    exists 0%nat. cbn. split; [done|]. split; [done|]. by constructor.
Qed.

(** X16. The prompt ends with the answer [lines] exactly when the input
    is: any number of empty lines, then the lines [lines], none of them empty
    and at least one, then an empty line. What follows that line stays on the
    terminal. *)
Theorem submitted_answer_shape (input lines rest : list string) :
  prompt [] 0 input = Some (lines, rest)
  <-> exists blanks,
        input = replicate blanks "" ++ lines ++ "" :: rest
        /\ lines <> [] /\ Forall (fun l => l <> "") lines.
Proof.
  split; [apply prompt_from_start|].
  intros (blanks & -> & Hne & Hb).
  rewrite prompt_skips_leading_blanks. by apply (prompt_collects []).
Qed.

(** *** The text of an answer *)

Lemma blank_append (a b : string) : blank (a +:+ b) = blank a && blank b.
Proof.
  induction a as [|c a IH]; [done|]. rewrite app_cons. cbn [blank].
  by rewrite IH, andb_assoc.
Qed.

Lemma blank_join (lines : list string) :
  Forall (fun l => blank l = true) lines ->
  blank (JsString.join newline lines) = true.
Proof.
  unfold JsString.join. induction 1 as [|l lines Hl Hls IH]; [done|].
  destruct lines as [|l' lines]; [done|].
  change (blank (l +:+ newline +:+ String.concat newline (l' :: lines)) = true).
  by rewrite !blank_append, Hl, IH.
Qed.

Lemma trimStart_blank (s : string) : blank s = true -> JsString.trimStart s = "".
Proof.
  induction s as [|c s IH]; [done|]. cbn.
  intros [-> Hs]%andb_true_iff. by apply IH.
Qed.

Lemma answer_text_blank (lines : list string) :
  Forall (fun l => blank l = true) lines -> answer_text lines = "".
Proof.
  intros H. unfold answer_text, JsString.trim.
  by rewrite (trimStart_blank _ (blank_join _ H)).
Qed.

Lemma trimStart_begins (s : string) :
  begins_with_white_space (JsString.trimStart s) = false.
Proof.
  induction s as [|c s IH]; [done|]. cbn.
  destruct (JsString.is_white_space c) eqn:E; [done|]. cbn. done.
Qed.

Lemma trimStart_append (a b : string) (c : ascii) :
  JsString.is_white_space c = false ->
  JsString.trimStart (a +:+ String c b) = JsString.trimStart a +:+ String c b.
Proof.
  intros Hc. induction a as [|x a IH].
  - rewrite !app_nil. cbn. by rewrite Hc.
  - rewrite app_cons. cbn [JsString.trimStart].
    destruct (JsString.is_white_space x); [done|]. by rewrite app_cons.
Qed.

Lemma rev_cons (c : ascii) (s : string) :
  String.rev (String c s) = String.rev s +:+ String c "".
Proof. unfold String.rev at 1. cbn [String.rev_app]. apply rev_app_acc. Qed.

Lemma rev_involutive (s : string) : String.rev (String.rev s) = s.
Proof.
  induction s as [|c s IH]; [done|].
  by rewrite rev_cons, rev_append, IH.
Qed.

Lemma begins_append (a b : string) :
  a <> "" -> begins_with_white_space (a +:+ b) = begins_with_white_space a.
Proof. by destruct a. Qed.

(** X20. The text of an answer has white space at neither end. *)
Theorem answer_has_no_white_space_at_its_ends (lines : list string) :
  begins_with_white_space (answer_text lines) = false
  /\ ends_with_white_space (answer_text lines) = false.
Proof.
  unfold answer_text, JsString.trim, JsString.trimEnd, ends_with_white_space.
  rewrite rev_involutive. split; [|apply trimStart_begins].
  pose proof (trimStart_begins (JsString.join newline lines)) as Hb.
  destruct (JsString.trimStart (JsString.join newline lines)) as [|c u]; [done|].
  cbn in Hb. rewrite rev_cons, (trimStart_append _ _ _ Hb), rev_append. done.
Qed.

(** X18. An answer of white space only is sent as an empty response, not
    as a cancellation: the reply record has [responded = true] and an empty
    text, and the Requester returns it as an answer whose response is
    empty. *)
Theorem blank_answer_is_an_empty_response
    (q : Question) (w : world) (d : Dir) (lines rest : list string) :
  mailbox w = Some d -> writable d = true ->
  prompt [] 0 (stdin w) = Some (lines, rest) ->
  Forall (fun l => blank l = true) lines ->
  let record := Codec.stringify_Response (mkResponse (q_id q) "" true (clock w)) in
  fst (promptUser q w) = Val tt
  /\ file_of (mailbox (snd (promptUser q w))) (response_file (q_id q)) = Some record
  /\ (forall ts tm st w2 d2,
        aborted w2 = false -> (clock w2 - st >? tm) = false ->
        mailbox w2 = Some d2 -> writable d2 = true ->
        files d2 !! response_file (q_id q) = Some record ->
        fst (Requester.tick (question_file (q_id q)) (response_file (q_id q))
               ts tm st w2)
        = Val (Some (Requester.mkResult true (Some (JStr "")) false None))).
Proof.
  intros Hm Hw Hp Hb record.
  rewrite (promptUser_writes q w d lines rest Hm Hw Hp).
  unfold reply_to. rewrite (answer_text_blank lines Hb).
  cbn [JsString.toLowerCase String.eqb fst snd mailbox with_mailbox file_of put_file files].
  rewrite lookup_insert_eq. split; [done|]. split; [done|].
  intros ts tm st w2 d2 Ha Ht Hm2 Hw2 Hf.
  by rewrite (tick_consumes_reply _ _ ts tm st w2 d2 _
                (WorldFacts.question_response_differ _) Ha Ht Hm2 Hw2 Hf).
Qed.

End AnswerFacts.

(** ** A whole call of the tool *)

Module CallFacts.
Import World Ipc Requester Traces RequesterFacts WorldFacts Call.
Import Partial PartialFacts NameFacts JsonFacts.
Local Open Scope io_scope.

Lemma execute_cases (args : Args) (context : Context) (random : string)
    (naps : list interval) (w : world) :
  execute args context random naps w
  = if permits_changes (mailbox w)
    then await_response (id_of random w) (timeout_of args) (clock w) naps
           (started args context random w)
    else (Throw (FsError EACCES (question_file (id_of random w))),
          logged [EvExistsDir;
                  EvWrite (question_file (id_of random w))
                    (Codec.stringify_Question (record_of args context random w))] w).
Proof.
  destruct w as [[d|] c a i l]; cbn [permits_changes mailbox].
  - unfold execute, ensureIpcDir, generateQuestionId, existsSync_dir, writeFileSync,
      bind, emit, get_mailbox, set_mailbox, Date_now, ret, throw.
    cbn. destruct (writable d); cbn; unfold started, logged; cbn;
      by rewrite <- !app_assoc.
  - unfold execute, ensureIpcDir, generateQuestionId, existsSync_dir, mkdirSync,
      writeFileSync, bind, emit, get_mailbox, set_mailbox, Date_now, ret.
    cbn. unfold started, logged. cbn. by rewrite <- !app_assoc.
Qed.

Lemma execute_returned (args : Args) (context : Context) (random : string)
    (naps : list interval) (w w' : world) (o : option ToolResult) :
  execute args context random naps w = (Val o, w') ->
  permits_changes (mailbox w) = true
  /\ poll (question_file (id_of random w)) (response_file (id_of random w))
       (timeout_of args) (timeout_of args * 1000) (clock w) naps
       (started args context random w)
     = (Val o, w').
Proof.
  rewrite execute_cases. destruct (permits_changes (mailbox w)); [|done].
  intros H. split; [done|]. by apply await_response_returned.
Qed.

(** X12. When the mailbox directory is not writable the call fails at
    once: [execute] throws the error of writing the request record, having
    made no other call than the existence test of the directory; it does not
    poll, and the mailbox is unchanged. *)
Theorem unwritable_mailbox_fails_the_call_at_once
    (args : Args) (context : Context) (random : string) (naps : list interval)
    (w : world) (d : Dir) :
  mailbox w = Some d -> writable d = false ->
  let run := execute args context random naps w in
  fst run = Throw (FsError EACCES (question_file (id_of random w)))
  /\ mailbox (snd run) = mailbox w
  /\ log (snd run)
     = log w ++ [EvExistsDir;
                 EvWrite (question_file (id_of random w))
                   (Codec.stringify_Question (record_of args context random w))].
Proof.
  intros Hm Hw run. unfold run. rewrite execute_cases, Hm. cbn [permits_changes].
  rewrite Hw. done.
Qed.

(** *** What a returning iteration has seen and left *)

Lemma tick_result_cause qf rf ts tm st (w w' : world) (o : ToolResult) :
  tick qf rf ts tm st w = (Val (Some o), w') ->
  (o = aborted_result /\ aborted w = true)
  \/ (o = timeout_result ts /\ aborted w = false /\ clock w - st > tm)
  \/ (((exists t, o = answered_result t) \/ o = user_cancelled_result)
      /\ aborted w = false /\ clock w - st <= tm
      /\ exists text data,
           file_of (mailbox w) rf = Some text /\ Json.parse text = POk data).
Proof.
  intros H. destruct (aborted w) eqn:Ha.
  { left. split; [|done]. rewrite tick_aborted in H by done.
    unfold bind, ret in H.
    destruct (unlink_if_exists qf w) as [[[]|e|h] w1]; by simplify_eq. }
  right. destruct (clock w - st >? tm) eqn:Ht.
  { left. split; [|split; [done|lia]]. rewrite tick_timed_out in H by done.
    unfold bind, ret in H.
    destruct (unlink_if_exists qf w) as [[[]|e|h] w1]; by simplify_eq. }
  right. split; [by eapply tick_reply_path_results|].
  split; [done|]. split; [lia|].
  destruct (file_of (mailbox w) rf) as [text|] eqn:Hf.
  - exists text. destruct (Json.parse text) as [data| |] eqn:Hp; [by eauto| |].
    + rewrite (tick_reply_unparsable qf rf ts tm st w text) in H by done. done.
    + exfalso. destruct w as [[d|] c a i l]; [|done]. cbn in Ha, Ht, Hf. subst a.
      revert H. io_run. done.
  - rewrite tick_waiting in H by done. done.
Qed.

Lemma tick_result_clean qf rf ts tm st (w w' : world) (o : ToolResult) :
  qf <> rf ->
  tick qf rf ts tm st w = (Val (Some o), w') ->
  file_of (mailbox w') qf = None
  /\ ((exists t, o = answered_result t) \/ o = user_cancelled_result ->
      file_of (mailbox w') rf = None).
Proof.
  intros Hne H.
  assert (forall w1, unlink_if_exists qf w = (Val tt, w1) ->
                     file_of (mailbox w1) qf = None) as Hq.
  { intros w1 U.
    destruct (unlink_if_exists_cases qf w) as [[U' Hf]|[[U' _]|[U' _]]];
      rewrite U' in U; simplify_eq; [done|].
    cbn. rewrite file_of_without. by case_decide. }
  destruct (tick_result_cause _ _ _ _ _ _ _ _ H)
    as [[-> Ha]|[(-> & Ha & Ht)|(Ho & Ha & Ht & text & data & Hf & Hp)]].
  - rewrite tick_aborted in H by done. unfold bind, ret in H.
    destruct (unlink_if_exists qf w) as [[[]|e|h] w1] eqn:U; simplify_eq.
    split; [by apply Hq|]. by intros [[t [=]]|[=]].
  - rewrite tick_timed_out in H by (done || lia). unfold bind, ret in H.
    destruct (unlink_if_exists qf w) as [[[]|e|h] w1] eqn:U; simplify_eq.
    split; [by apply Hq|]. by intros [[t [=]]|[=]].
  - destruct (mailbox w) as [d|] eqn:Hm; [|done]. cbn in Hf.
    assert ((clock w - st >? tm) = false) as Ht' by lia.
    destruct (writable d) eqn:Hw.
    + destruct (tick_reply_parsed qf rf ts tm st w d text data Hne Ha Ht' Hm Hw Hf Hp)
        as [evs E].
      rewrite E in H. injection H as _ <-. cbn.
      rewrite lookup_delete_ne, !lookup_delete_eq by done. done.
    + exfalso. clear Hq Ho. destruct w as [m c a i l]. cbn in Hm, Ha, Ht'. subst m a.
      destruct (files d !! qf) as [tq|] eqn:Hq; revert H; by io_run.
Qed.

(** X8. A call that returns leaves no request record behind: when
    [execute] returns a result, [question_<id>.json] is not in the mailbox;
    and when the result is an answer or the cancellation by the user, neither
    is [response_<id>.json]. *)
Theorem a_returned_call_leaves_no_request
    (args : Args) (context : Context) (random : string) (naps : list interval)
    (w w' : world) (o : ToolResult) :
  execute args context random naps w = (Val (Some o), w') ->
  file_of (mailbox w') (question_file (id_of random w)) = None
  /\ ((exists t, o = answered_result t) \/ o = user_cancelled_result ->
      file_of (mailbox w') (response_file (id_of random w)) = None).
Proof.
  intros [_ (w1 & _ & Ht)%poll_returns]%execute_returned.
  eapply tick_result_clean; [apply question_response_differ|exact Ht].
Qed.

(** X9. Each result tells what the iteration that returned it saw. The
    abort result is returned only by an iteration that found the abort flag
    set; the timeout result only by one that found the flag clear and more
    than [timeout * 1000] milliseconds gone since the start; an answer or the
    cancellation by the user only by one that found neither, and a reply
    record that parses. The timeout is [args.timeout], or 300 when there is
    none. *)
Theorem a_result_tells_what_its_iteration_saw
    (args : Args) (context : Context) (random : string) (naps : list interval)
    (w w' : world) (o : ToolResult) :
  execute args context random naps w = (Val (Some o), w') ->
  let id := id_of random w in
  let ts := timeout_of args in
  exists w1,
    iteration_begins (question_file id) (response_file id) ts (ts * 1000) (clock w)
      naps (started args context random w) w1
    /\ ((o = aborted_result /\ aborted w1 = true)
        \/ (o = timeout_result ts /\ aborted w1 = false
            /\ clock w1 - clock w > ts * 1000)
        \/ (((exists t, o = answered_result t) \/ o = user_cancelled_result)
            /\ aborted w1 = false /\ clock w1 - clock w <= ts * 1000
            /\ exists text data,
                 file_of (mailbox w1) (response_file id) = Some text
                 /\ Json.parse text = POk data)).
Proof.
  intros [_ (w1 & Hb & Ht)%poll_returns]%execute_returned id ts.
  exists w1. split; [done|]. by eapply tick_result_cause.
Qed.

(** *** The files and calls of a call *)

Global Instance others_untouched_preorder (id : string) : PreOrder (others_untouched id).
Proof.
  split; [by intros w f|].
  intros w1 w2 w3 H12 H23 f Hq Hr. by rewrite H23, H12.
Qed.

Ltac own_events :=
  repeat first [apply Forall_nil_2 | apply Forall_cons_2; [cbn; by auto|]].

Lemma unlink_if_exists_own (id f : string) :
  f = question_file id \/ f = response_file id ->
  emits (own_event id) (unlink_if_exists f)
  /\ steps (others_untouched id) (unlink_if_exists f).
Proof.
  intros Hf. split; intros w;
    destruct (unlink_if_exists_cases f w) as [[U _]|[[U _]|[U _]]]; rewrite U.
  - exists [EvExists f]. split; [done|]. own_events.
  - exists [EvExists f; EvUnlink f None]. split; [done|]. own_events.
  - exists [EvExists f; EvUnlink f (Some EACCES)]. split; [done|]. own_events.
  - by intros g.
  - intros g Hq Hr. cbn. apply file_of_without_ne. by destruct Hf as [-> | ->].
  - by intros g.
Qed.

Lemma tick_own (id : string) ts tm st :
  emits (own_event id) (tick (question_file id) (response_file id) ts tm st)
  /\ steps (others_untouched id) (tick (question_file id) (response_file id) ts tm st).
Proof.
  set (qf := question_file id). set (rf := response_file id).
  assert (forall f, f = qf \/ f = rf ->
            emits (own_event id) (unlink_if_exists f)
            /\ steps (others_untouched id) (unlink_if_exists f)) as Hu.
  { intros f. apply unlink_if_exists_own. }
  assert (emits (own_event id) (unlinkSync rf)
          /\ steps (others_untouched id) (unlinkSync rf)) as [Hd1 Hd2].
  { split; intros [m c a i l]; unfold unlinkSync, bind, emit, get_mailbox,
      set_mailbox, throw, logged, with_mailbox; cbn;
      repeat (case_match; cbn);
      try (eexists; split; [reflexivity|]; own_events);
      intros g Hq Hr; cbn; rewrite ?lookup_delete_ne by done; done. }
  assert (emits (own_event id) (existsSync rf)
          /\ steps (others_untouched id) (existsSync rf)) as [He1 He2].
  { split; intros [m c a i l]; [|by intros g].
    eexists. split; [reflexivity|]. own_events. }
  assert (emits (own_event id) (readFileSync rf)) as Hr1 by by apply emits_readFileSync.
  assert (steps (others_untouched id) (readFileSync rf)) as Hr2.
  { intros [m c a i l]. unfold readFileSync, bind, emit, get_mailbox, throw, ret.
    cbn. repeat (case_match; cbn); by intros g. }
  assert (forall data key,
            emits (own_event id) (property data key)
            /\ steps (others_untouched id) (property data key)) as Hp.
  { intros data key. unfold property.
    destruct (Json.get_prop data key);
      (split; [apply emits_ret || apply emits_throw
              |apply steps_ret, _ || apply steps_throw, _]). }
  split; unfold tick.
  - sbind; [apply steps_abort_aborted, _|intros a]. destruct a.
    { sbind; [apply Hu; by left|intros _]. apply steps_ret, _. }
    sbind; [apply steps_Date_now, _|intros now]. destruct (now - st >? tm).
    { sbind; [apply Hu; by left|intros _]. apply steps_ret, _. }
    sbind; [exact He1|intros present]. destruct present; [|apply steps_ret, _].
    scatch; [|intros _; apply steps_ret, _].
    sbind; [exact Hr1|intros text].
    sbind; [apply steps_JSON_parse, _|intros data].
    sbind; [apply Hu; by left|intros _].
    sbind; [exact Hd1|intros _].
    sbind; [apply Hp|intros r]. destruct (Json.truthy r); [|apply steps_ret, _].
    sbind; [apply Hp|intros t]. apply steps_ret, _.
  - sbind; [apply steps_abort_aborted, _|intros a]. destruct a.
    { sbind; [apply Hu; by left|intros _]. apply steps_ret, _. }
    sbind; [apply steps_Date_now, _|intros now]. destruct (now - st >? tm).
    { sbind; [apply Hu; by left|intros _]. apply steps_ret, _. }
    sbind; [exact He2|intros present]. destruct present; [|apply steps_ret, _].
    scatch; [|intros _; apply steps_ret, _].
    sbind; [exact Hr2|intros text].
    sbind; [apply steps_JSON_parse, _|intros data].
    sbind; [apply Hu; by left|intros _].
    sbind; [exact Hd2|intros _].
    sbind; [apply Hp|intros r]. destruct (Json.truthy r); [|apply steps_ret, _].
    sbind; [apply Hp|intros t]. apply steps_ret, _.
Qed.

Lemma poll_own (id : string) ts tm st (naps : list interval) :
  emits (own_event id) (poll (question_file id) (response_file id) ts tm st naps)
  /\ (Forall quiet naps ->
      steps (others_untouched id)
        (poll (question_file id) (response_file id) ts tm st naps)).
Proof.
  destruct (tick_own id ts tm st) as [T1 T2].
  induction naps as [|nap naps [IH1 IH2]]; cbn [poll]; (split; [|intros Hq]).
  - sbind; [exact T1|]. intros [o|]; apply steps_ret, _.
  - sbind; [exact T2|]. intros [o|]; apply steps_ret, _.
  - sbind; [exact T1|]. intros [o|]; [apply steps_ret, _|].
    sbind; [apply emits_sleep|by intros _].
  - apply Forall_cons in Hq as [Hn Hq].
    sbind; [exact T2|]. intros [o|]; [apply steps_ret, _|].
    sbind; [|intros _; by apply IH2].
    intros w g _ _. cbn. by rewrite Hn.
Qed.

Lemma await_response_own (id : string) ts st (naps : list interval) :
  emits (own_event id) (await_response id ts st naps)
  /\ (Forall quiet naps ->
      steps (others_untouched id) (await_response id ts st naps)).
Proof.
  destruct (poll_own id ts (ts * 1000) st naps) as [P1 P2].
  destruct (unlink_if_exists_own id (question_file id)) as [Q1 Q2]; [by left|].
  destruct (unlink_if_exists_own id (response_file id)) as [R1 R2]; [by right|].
  unfold await_response. split; [|intros Hq].
  - scatch; [exact P1|intros e].
    sbind; [exact Q1|intros _]. sbind; [exact R1|intros _]. apply steps_throw, _.
  - scatch; [by apply P2|intros e].
    sbind; [exact Q2|intros _]. sbind; [exact R2|intros _]. apply steps_throw, _.
Qed.

(** X7. A call touches only its own two records. Besides looking for and
    creating the directory, every [fs] call of [execute] is on
    [question_<id>.json] or [response_<id>.json] of the id it generated: it
    writes only the former, reads only the latter, and never lists the
    directory. And while no other process changes the mailbox, every other
    file is at the end of the call as it was at its start. *)
Theorem a_call_touches_only_its_own_records
    (args : Args) (context : Context) (random : string) (naps : list interval)
    (w : world) :
  let id := id_of random w in
  let run := execute args context random naps w in
  (exists evs, log (snd run) = log w ++ evs /\ Forall (own_event id) evs)
  /\ (Forall quiet naps ->
      forall f, f <> question_file id -> f <> response_file id ->
        file_of (mailbox (snd run)) f = file_of (mailbox w) f).
Proof.
  intros id run. unfold run. rewrite execute_cases.
  destruct (permits_changes (mailbox w)) eqn:Hperm; cbv iota.
  - destruct (await_response_own id (timeout_of args) (clock w) naps) as [A1 A2].
    split.
    + destruct (A1 (started args context random w)) as (evs & E & Hevs).
      fold id. rewrite E.
      eexists. split; [unfold started; cbn; by rewrite <- app_assoc|].
      apply Forall_app. split; [|done].
      apply Forall_app. split; [destruct (mailbox w)|]; own_events.
    + intros Hq f Hf1 Hf2. fold id.
      rewrite (A2 Hq (started args context random w) f Hf1 Hf2).
      unfold started. cbn. rewrite lookup_insert_ne by done.
      by destruct (mailbox w).
  - split; [|done]. eexists. split; [reflexivity|]. own_events.
Qed.

(** *** Replies out of the ordinary *)

(** X11. A parsed reply other than [null] is judged by the truthiness of
    its [responded] member alone: when it is truthy the result carries
    whatever the [response] member is, an absent one included; otherwise, and
    for every value that is not an object, the result is the cancellation by
    the user. The [id] in the record is not looked at, and both records are
    removed either way. *)
Theorem a_reply_is_judged_by_truthiness
    (id : string) (ts tm st : Z) (w : world) (d : Dir) (text : string) (data : json) :
  aborted w = false -> (clock w - st >? tm) = false ->
  mailbox w = Some d -> writable d = true ->
  files d !! response_file id = Some text -> Json.parse text = POk data ->
  data <> JNull ->
  let run := tick (question_file id) (response_file id) ts tm st w in
  fst run
  = Val (Some match data with
              | JObj m =>
                  if Json.truthy (Json.lookup_last "responded" m)
                  then answered_result (Json.lookup_last "response" m)
                  else user_cancelled_result
              | _ => user_cancelled_result
              end)
  /\ file_of (mailbox (snd run)) (question_file id) = None
  /\ file_of (mailbox (snd run)) (response_file id) = None.
Proof.
  intros Ha Ht Hm Hw Hf Hp Hnull run. unfold run.
  destruct (tick_reply_parsed _ _ ts tm st w d text data
              (question_response_differ id) Ha Ht Hm Hw Hf Hp) as [evs ->].
  cbn [fst snd mailbox with_mailbox]. split; [|split].
  - destruct data as [|b|n|s|l|m]; try done. cbn.
    by destruct (Json.truthy (Json.lookup_last "responded" m)).
  - cbn. by rewrite lookup_delete_ne, lookup_delete_eq.
  - cbn. by rewrite lookup_delete_eq.
Qed.

(** X10. A reply record that parses to [null] is consumed without a
    result: the iteration removes both records, the [TypeError] of
    [responseData.responded] is swallowed, nothing is returned, and the next
    iteration (no other process having touched the mailbox) finds no reply
    and goes on waiting. *)
Theorem a_null_reply_is_consumed_without_result
    (id : string) (ts tm st : Z) (w : world) (d : Dir) (text : string) (nap : interval) :
  aborted w = false -> (clock w - st >? tm) = false ->
  mailbox w = Some d -> writable d = true ->
  files d !! response_file id = Some text -> Json.parse text = POk JNull ->
  quiet nap -> aborted_after nap = false -> (clock_after nap - st >? tm) = false ->
  let run := tick (question_file id) (response_file id) ts tm st w in
  fst run = Val None
  /\ file_of (mailbox (snd run)) (question_file id) = None
  /\ file_of (mailbox (snd run)) (response_file id) = None
  /\ fst (tick (question_file id) (response_file id) ts tm st (during nap (snd run)))
     = Val None.
Proof.
  intros Ha Ht Hm Hw Hf Hp Hq Ha' Ht' run. unfold run.
  destruct (tick_reply_parsed _ _ ts tm st w d text JNull
              (question_response_differ id) Ha Ht Hm Hw Hf Hp) as [evs ->].
  cbn [fst snd mailbox with_mailbox Json.get_prop].
  assert (file_of (without (response_file id) (without (question_file id) (Some d)))
            (response_file id) = None) as Hgone.
  { cbn. by rewrite lookup_delete_eq. }
  split; [done|]. split; [|split; [done|]].
  - cbn. by rewrite lookup_delete_ne, lookup_delete_eq.
  - rewrite tick_waiting; [done|done|done|]. cbn [during mailbox with_mailbox].
    by rewrite Hq.
Qed.

(** X24. A reply that cannot be removed is not delivered: when the
    directory refuses the removal, the iteration reads and parses the reply,
    the refusal is swallowed like any other exception thrown there, and the
    iteration returns nothing and changes nothing. *)
Theorem a_reply_that_cannot_be_removed_is_not_delivered
    (qf rf : string) (ts tm st : Z) (w : world) (d : Dir) (text : string) :
  aborted w = false -> (clock w - st >? tm) = false ->
  mailbox w = Some d -> writable d = false ->
  files d !! rf = Some text -> Json.parse text <> PUnmodelled ->
  fst (tick qf rf ts tm st w) = Val None
  /\ mailbox (snd (tick qf rf ts tm st w)) = mailbox w.
Proof.
  destruct w as [m c a i l]. cbn [aborted clock mailbox].
  intros -> Ht -> Hw Hf Hp.
  destruct (Json.parse text) as [data| |] eqn:E; [| |done];
    destruct (files d !! qf) as [tq|] eqn:Hq; by io_run.
Qed.

(** *** Abort and timeout out of the ordinary *)

(** X23. When the request record cannot be removed, an abort or a timeout
    makes the call fail instead of return: the removal is refused in the
    iteration and refused again in the catch block, which so never gets to
    the reply file, and the call throws [EACCES] for the request file. *)
Theorem a_request_that_cannot_be_removed_fails_abort_and_timeout
    (id : string) (ts st : Z) (naps : list interval) (w : world) (d : Dir) (t : string) :
  aborted w = true \/ (clock w - st >? ts * 1000) = true ->
  mailbox w = Some d -> writable d = false ->
  files d !! question_file id = Some t ->
  let denied := [EvExists (question_file id);
                 EvUnlink (question_file id) (Some EACCES)] in
  await_response id ts st naps w
  = (Throw (FsError EACCES (question_file id)), logged (denied ++ denied) w).
Proof.
  intros Hterm Hm Hw Hf denied.
  set (qf := question_file id). set (rf := response_file id).
  assert (tick qf rf ts (ts * 1000) st w
          = (Throw (FsError EACCES qf), logged denied w)) as T.
  { assert (tick qf rf ts (ts * 1000) st w
            = (unlink_if_exists qf ;;
               ret (Some (if aborted w then aborted_result else timeout_result ts))) w)
      as ->.
    { destruct (aborted w) eqn:Ha; [by apply tick_aborted|].
      destruct Hterm as [|Ht]; [done|]. by apply tick_timed_out. }
    unfold bind. by rewrite (unlink_if_exists_denied qf w d t). }
  unfold await_response, try_catch. fold qf rf.
  assert (poll qf rf ts (ts * 1000) st naps w
          = (Throw (FsError EACCES qf), logged denied w)) as ->.
  { rewrite poll_unfold, T. by destruct naps. }
  unfold bind at 1.
  rewrite (unlink_if_exists_denied qf (logged denied w) d t) by done.
  by rewrite logged_logged.
Qed.

(** X25. A call that is aborted from the start, or whose timeout is
    negative, returns in its first iteration, whatever the waits would bring:
    the request record is written and removed again, the reply file is not
    looked at, and the result is the abort result, else the timeout
    result. *)
Theorem a_call_overdue_from_the_start_returns_at_once
    (args : Args) (context : Context) (random : string) (naps : list interval)
    (w : world) :
  permits_changes (mailbox w) = true ->
  aborted w = true \/ timeout_of args < 0 ->
  let file := question_file (id_of random w) in
  let text := Codec.stringify_Question (record_of args context random w) in
  execute args context random naps w
  = (Val (Some (if aborted w then aborted_result
                else timeout_result (timeout_of args))),
     with_mailbox (Some (remove_file file (opened (mailbox w))))
       (logged (opening (mailbox w)
                ++ [EvWrite file text; EvExists file; EvUnlink file None]) w)).
Proof.
  intros Hperm Hterm file text.
  rewrite execute_cases, Hperm.
  set (w0 := started args context random w).
  set (ts := timeout_of args) in *.
  assert (mailbox w0 = Some (put_file file text (opened (mailbox w)))) as Hm by done.
  assert (tick file (response_file (id_of random w)) ts (ts * 1000) (clock w) w0
          = (unlink_if_exists file ;;
             ret (Some (if aborted w then aborted_result else timeout_result ts))) w0)
    as T.
  { destruct (aborted w) eqn:Ha; [by apply tick_aborted|].
    destruct Hterm as [|Ht]; [done|]. apply tick_timed_out; [done|]. cbn. lia. }
  apply await_response_returns. rewrite poll_unfold. fold file. rewrite T.
  unfold bind, ret.
  rewrite (unlink_if_exists_removes file w0 _ text Hm).
  - assert (remove_file file (put_file file text (opened (mailbox w)))
            = remove_file file (opened (mailbox w))) as ->.
    { unfold remove_file, put_file. cbn. by rewrite delete_insert_eq. }
    unfold w0, started. fold file text. unfold logged, with_mailbox. cbn.
    by rewrite <- !app_assoc.
  - cbn. by rewrite lookup_insert_eq.
  - cbn. by destruct (mailbox w).
Qed.

End CallFacts.

(** ** A whole round of the two programs *)

Module RoundFacts.
Import World Ipc Requester Responder Traces RequesterFacts ResponderFacts ResponderOrder.
Import WorldFacts RoundTrip Call CallFacts Round ResponderScan NameFacts JsonFacts.
Local Open Scope io_scope.

Lemma as_question_members (q : Question) :
  Codec.as_question (Json.json_of_object (Codec.Question_members q)) = Some q.
Proof. by destruct q as [i t [ti|] s m ts]. Qed.

(** One iteration of the Responder over a mailbox whose only request is
    [q], not yet processed, with an answer typed. *)
Lemma iteration_answers_one
    (seen : gset string) (w : world) (d : Dir) (q : Question) (lines rest : list string) :
  mailbox w = Some d -> writable d = true -> listable d = true ->
  files d !! question_file (q_id q) = Some (Codec.stringify_Question q) ->
  (forall g, is_question_file g = true -> is_Some (files d !! g) ->
             g = question_file (q_id q)) ->
  q_id q ∉ seen ->
  prompt [] 0 (stdin w) = Some (lines, rest) ->
  let file := response_file (q_id q) in
  let text := Codec.stringify_Response (reply_to q lines (clock w)) in
  iteration seen w
  = (Val ({[q_id q]} ∪ seen),
     with_mailbox (Some (put_file file text d))
       (with_stdin rest
          (logged [EvExistsDir; EvReaddir; EvRead (question_file (q_id q));
                   EvPresent q; EvWrite file text] w))).
Proof.
  intros Hm Hw Hl Hf Hone Hseen Hp file text.
  unfold iteration, bind at 1.
  rewrite (getPendingQuestions_listing w d Hm Hl).
  rewrite (pending_files_one d (question_file (q_id q)));
    [|apply question_file_is_request|by eauto|done].
  rewrite read_questions_step. cbn [mailbox logged file_of]. rewrite Hm. cbn [file_of].
  rewrite Hf, parse_stringify_Question. cbn [read_questions ret].
  cbn [serve]. rewrite as_question_members.
  case_decide; [done|].
  unfold printQuestion, bind at 1, emit. unfold bind at 1.
  rewrite (promptUser_writes q _ d lines rest); [|done..].
  cbn [serve ret]. unfold logged, with_mailbox, with_stdin. cbn.
  by rewrite <- !app_assoc.
Qed.

(** X19. A whole round. The Requester makes a call in a mailbox that holds
    no request; while it waits, the Responder makes one iteration, the human's
    answer being typed. Then the Responder presents exactly the question of
    the call; the call returns the answer in its second iteration (the
    cancellation by the user, when the answer is the cancel word); and the
    mailbox directory is left with the files it had before the call. *)
Theorem a_round_returns_the_answer_and_restores_the_mailbox
    (args : Args) (context : Context) (random : string) (w : world)
    (seen : gset string) (now later : Z) (input lines rest : list string) :
  let d := opened (mailbox w) in
  let id := id_of random w in
  let q := record_of args context random w in
  let ts := timeout_of args in
  writable d = true -> listable d = true ->
  aborted w = false -> 0 <= ts -> later - clock w <= ts * 1000 ->
  (forall f, is_question_file f = true -> files d !! f = None) ->
  files d !! response_file id = None ->
  id ∉ seen ->
  prompt [] 0 input = Some (lines, rest) ->
  let reply := reply_to q lines now in
  let turn := responder_turn seen now input later false in
  let asked := responder_world (mailbox (started args context random w)) now input in
  presented (log (snd (iteration seen asked))) = [q]
  /\ fst (execute args context random [turn] w)
     = Val (Some (if r_responded reply
                  then answered_result (Some (JStr (r_response reply)))
                  else user_cancelled_result))
  /\ mailbox (snd (execute args context random [turn] w)) = Some d.
Proof.
  intros d id q ts Hw Hl Ha Hts Hlater Hnone Hnoreply Hseen Hp reply turn asked.
  set (qf := question_file id). set (rf := response_file id).
  set (tq := Codec.stringify_Question q).
  set (tr := Codec.stringify_Response reply).
  set (d1 := put_file qf tq d).
  assert (mailbox (started args context random w) = Some d1) as Hm0 by done.
  assert (qf <> rf) as Hne by apply question_response_differ.
  (* the Responder's turn *)
  assert (iteration seen asked
          = (Val ({[id]} ∪ seen),
             with_mailbox (Some (put_file rf tr d1))
               (with_stdin rest
                  (logged [EvExistsDir; EvReaddir; EvRead qf; EvPresent q;
                           EvWrite rf tr] asked)))) as Hturn.
  { apply (iteration_answers_one seen asked d1 q lines rest); try done.
    - cbn. apply lookup_insert_eq.
    - intros g Hg [t Ht]. destruct (decide (g = qf)) as [->|Hgq]; [done|].
      cbn in Ht. rewrite lookup_insert_ne in Ht by done.
      by rewrite (Hnone g Hg) in Ht. }
  split; [by rewrite Hturn|].
  (* the Requester's call *)
  assert (permits_changes (mailbox w) = true) as Hperm.
  { unfold d in Hw. by destruct (mailbox w). }
  rewrite execute_cases, Hperm. fold id ts.
  set (w0 := started args context random w).
  assert (tick qf rf ts (ts * 1000) (clock w) w0 = (Val None, logged [EvExists rf] w0))
    as T0.
  { apply tick_waiting; [done|cbn; lia|].
    unfold w0. rewrite Hm0. cbn. by rewrite lookup_insert_ne. }
  set (w1 := during turn (logged [EvExists rf] w0)).
  assert (mailbox w1 = Some (put_file rf tr d1)) as Hm1.
  { unfold w1, during, turn, responder_turn. cbn [mailbox others logged].
    unfold w0. rewrite Hm0.
    change (mailbox (snd (iteration seen asked)) = Some (put_file rf tr d1)).
    by rewrite Hturn. }
  destruct (tick_reply_parsed qf rf ts (ts * 1000) (clock w) w1 (put_file rf tr d1)
              tr (Codec.json_of_Response reply) Hne) as [evs T1]; try done.
  { cbn. lia. }
  { cbn. apply lookup_insert_eq. }
  { apply parse_stringify_Response. }
  assert (poll qf rf ts (ts * 1000) (clock w) [turn] w0
          = (Val (Some (if r_responded reply
                        then answered_result (Some (JStr (r_response reply)))
                        else user_cancelled_result)),
             with_mailbox (without rf (without qf (Some (put_file rf tr d1))))
               (logged evs w1))) as P.
  { rewrite poll_unfold, T0. fold w1. rewrite poll_unfold, T1.
    destruct reply as [ri rt [] rn]; reflexivity. }
  rewrite (await_response_returns id ts (clock w) [turn] w0 _ _ P).
  split; [done|].
  assert (delete rf (delete qf (<[rf:=tr]> (<[qf:=tq]> (files d)))) = files d) as Hmap.
  { rewrite delete_insert_ne, !delete_insert_eq by done.
    rewrite (delete_id (files d) qf) by (apply Hnone, question_file_is_request).
    by rewrite delete_id. }
  cbn [snd mailbox with_mailbox]. unfold without, d1, remove_file, put_file.
  cbn [fmap option_fmap option_map files listable writable].
  rewrite Hmap. by destruct d.
Qed.

End RoundFacts.

(** ** Waiting, and a whole pass of the Responder *)

Module PassFacts.
Import World Ipc Requester Responder Traces RequesterFacts ResponderFacts ResponderOrder.
Import WorldFacts RoundTrip Call CallFacts Round ResponderScan NameFacts JsonFacts.
Import Partial PartialFacts RoundFacts Pass.
Local Open Scope io_scope.

(** X5. A reply record of which only a part is written yet is left alone
    and read again. An iteration that finds any proper initial part of a
    reply record gets a syntax error from [JSON.parse], returns nothing and
    removes nothing: its only calls are the existence test and the read of
    the reply file. And when the record is complete after the wait, the next
    iteration returns its result. *)
Theorem a_half_written_reply_is_read_again_when_complete
    (id : string) (ts tm st : Z) (w : world) (r : Response) (part : string)
    (nap : interval) (d' : Dir) :
  aborted w = false -> (clock w - st >? tm) = false ->
  file_of (mailbox w) (response_file id) = Some part ->
  cut_short (Codec.stringify_Response r) part ->
  others nap (mailbox w) = Some d' -> writable d' = true ->
  files d' !! response_file id = Some (Codec.stringify_Response r) ->
  aborted_after nap = false -> (clock_after nap - st >? tm) = false ->
  tick (question_file id) (response_file id) ts tm st w
  = (Val None, logged [EvExists (response_file id); EvRead (response_file id)] w)
  /\ fst (poll (question_file id) (response_file id) ts tm st [nap] w)
     = Val (Some (if r_responded r
                  then answered_result (Some (JStr (r_response r)))
                  else user_cancelled_result)).
Proof.
  intros Ha Ht Hf Hc Hm' Hw' Hf' Ha' Ht'.
  assert (tick (question_file id) (response_file id) ts tm st w
          = (Val None, logged [EvExists (response_file id); EvRead (response_file id)] w))
    as T.
  { apply (tick_reply_unparsable _ _ _ _ _ _ part); try done.
    by apply (parse_print_object_part (Codec.Response_members r)). }
  split; [done|]. rewrite poll_unfold, T, poll_unfold.
  set (w1 := during nap _).
  pose proof (tick_consumes_reply (question_file id) (response_file id) ts tm st w1 d' r
                (question_response_differ id) Ha' Ht' Hm' Hw' Hf') as E.
  destruct (tick _ _ ts tm st w1) as [[[o|]|e|h] w2]; cbn in E |- *; by simplify_eq.
Qed.

(** *** Waiting *)

Lemma poll_waits (qf rf : string) (ts tm st : Z) (naps : list interval) (w : world) :
  aborted w = false -> (clock w - st >? tm) = false ->
  file_of (mailbox w) rf = None ->
  Forall (fun nap => quiet nap /\ aborted_after nap = false
                     /\ (clock_after nap - st >? tm) = false) naps ->
  exists w',
    poll qf rf ts tm st naps w = (Val None, w')
    /\ mailbox w' = mailbox w
    /\ log w' = log w ++ replicate (S (length naps)) (EvExists rf).
Proof.
  intros Ha Ht Hf Hnaps. revert w Ha Ht Hf.
  induction Hnaps as [|nap naps (Hq & Ha' & Ht') _ IH]; intros w Ha Ht Hf;
    rewrite poll_unfold, tick_waiting by done.
  - by eexists.
  - destruct (IH (during nap (logged [EvExists rf] w))) as (w' & -> & Hm & Hl);
      [done|done|by cbn; rewrite Hq|].
    exists w'. split; [done|]. split; [by rewrite Hm; cbn; rewrite Hq|].
    rewrite Hl. cbn. by rewrite <- app_assoc.
Qed.

(** X22. A call that gets no reply waits and then times out. While it is
    not aborted, the deadline has not passed and there is no reply file, each
    iteration makes one existence test of the reply file and no other call,
    and the mailbox stays as it is; the first iteration that begins after the
    deadline removes the request record, if it is there, and returns the
    timeout result. *)
Theorem an_unanswered_call_waits_and_times_out
    (id : string) (ts st : Z) (pre post : list interval) (nap : interval) (w : world) :
  let file := question_file id in
  let reply := response_file id in
  aborted w = false -> (clock w - st >? ts * 1000) = false ->
  file_of (mailbox w) reply = None ->
  permits_changes (mailbox w) = true ->
  Forall (fun nap => quiet nap /\ aborted_after nap = false
                     /\ (clock_after nap - st >? ts * 1000) = false) pre ->
  quiet nap -> aborted_after nap = false ->
  (clock_after nap - st >? ts * 1000) = true ->
  exists w1 w' evs,
    poll file reply ts (ts * 1000) st pre w = (Val None, w1)
    /\ mailbox w1 = mailbox w
    /\ log w1 = log w ++ replicate (S (length pre)) (EvExists reply)
    /\ await_response id ts st (pre ++ nap :: post) w
       = (Val (Some (timeout_result ts)), w')
    /\ mailbox w' = without file (mailbox w)
    /\ log w' = log w1 ++ evs
    /\ (evs = [EvExists file] \/ evs = [EvExists file; EvUnlink file None]).
Proof.
  intros file reply Ha Ht Hf Hperm Hpre Hq Ha' Ht'. subst file reply.
  set (file := question_file id). set (reply := response_file id).
  destruct (poll_waits file reply ts (ts * 1000) st pre w Ha Ht Hf Hpre)
    as (w1 & Hpoll & Hm1 & Hl1).
  set (w2 := during nap w1).
  assert (mailbox w2 = mailbox w) as Hm2.
  { unfold w2, during. cbn. by rewrite Hq, Hm1. }
  destruct (tick_terminal file reply ts (ts * 1000) st w2) as (evs & T & Hevs).
  { by right. }
  { by rewrite Hm2. }
  exists w1, (with_mailbox (without file (mailbox w2)) (logged evs w2)), evs.
  split; [done|]. split; [done|]. split; [done|]. split; [|by rewrite Hm2].
  apply await_response_returns. fold file reply.
  rewrite (poll_app _ _ _ _ _ pre post nap w w1 Hpoll). fold w2. rewrite poll_unfold, T.
  change (aborted w2) with (aborted_after nap). rewrite Ha'. by destruct post.
Qed.

(** *** A whole pass of the Responder *)

Lemma read_questions_all (d : Dir) (names : list string) (qs : list Question) :
  Forall2 (fun f q => question_in d f = Some q) names qs ->
  forall w, mailbox w = Some d ->
    exists datas,
      read_questions names w = (Val datas, logged (EvRead <$> names) w)
      /\ Forall2 (fun data q => Codec.as_question data = Some q) datas qs.
Proof.
  induction 1 as [|f q names qs Hq _ IH]; intros w Hm.
  { exists []. split; [|constructor]. cbn. by rewrite logged_nil. }
  unfold question_in, parsed_in in Hq.
  destruct (files d !! f) as [text|] eqn:Hf; [|done].
  destruct (Json.parse text) as [data| |] eqn:Hp; [|done..]. cbn in Hq.
  destruct (IH (logged [EvRead f] w) Hm) as (datas & E & Hd).
  exists (data :: datas). split; [|by constructor].
  rewrite read_questions_step, Hm. cbn [file_of]. rewrite Hf, Hp, E.
  by rewrite logged_logged.
Qed.

Lemma typed_cons (lines : list string) (answers : list (list string)) (rest : list string) :
  typed (lines :: answers) ++ rest = lines ++ "" :: (typed answers ++ rest).
Proof. unfold typed. cbn. by rewrite <- !app_assoc. Qed.

Lemma response_file_inj (a b : string) : response_file a = response_file b -> a = b.
Proof. unfold response_file. intros H%(inj _). by apply append_inv_tail in H. Qed.

Lemma serve_all (datas : list json) (qs : list Question) :
  Forall2 (fun data q => Codec.as_question data = Some q) datas qs ->
  forall (answers : list (list string)) (seen : gset string) (w : world) (d : Dir)
         (rest : list string),
    Forall2 (fun _ lines => answer lines) qs answers ->
    NoDup (q_id <$> qs) -> (forall q, q ∈ qs -> q_id q ∉ seen) ->
    mailbox w = Some d -> writable d = true ->
    stdin w = typed answers ++ rest ->
    exists w',
      serve datas seen w = (Val (list_to_set (q_id <$> qs) ∪ seen), w')
      /\ log w' = log w ++ exchanged (clock w) qs answers
      /\ stdin w' = rest /\ clock w' = clock w
      /\ Forall2 (fun q lines =>
                    file_of (mailbox w') (response_file (q_id q))
                    = Some (Codec.stringify_Response (reply_to q lines (clock w))))
           qs answers
      /\ (forall f, (forall q, q ∈ qs -> f <> response_file (q_id q)) ->
                    file_of (mailbox w') f = file_of (mailbox w) f).
Proof.
  induction 1 as [|data q datas qs Hq _ IH];
    intros answers seen w d rest Hans Hnd Hseen Hm Hw Hin.
  { apply Forall2_nil_inv_l in Hans as ->. exists w. cbn [serve ret].
    split.
    { unfold ret. do 2 f_equal. cbn. set_solver. }
    split; [cbn; by rewrite app_nil_r|].
    split; [by rewrite Hin|]. split; [done|]. split; [constructor|done]. }
  apply Forall2_cons_inv_l in Hans as (lines & answers' & [Hne Hl] & Hans & ->).
  cbn [fmap list_fmap] in Hnd. apply NoDup_cons in Hnd as [Hfresh Hnd].
  cbn [serve]. rewrite Hq. case_decide as Hs.
  { exfalso. by apply (Hseen q); [left|]. }
  set (w1 := logged [EvPresent q] w).
  set (file := response_file (q_id q)).
  set (text := Codec.stringify_Response (reply_to q lines (clock w))).
  assert (promptUser q w1
          = (Val tt,
             with_mailbox (Some (put_file file text d))
               (with_stdin (typed answers' ++ rest) (logged [EvWrite file text] w1))))
    as Hprompt.
  { apply (promptUser_writes q w1 d lines); [done|done|].
    cbn [stdin w1 logged]. rewrite Hin, typed_cons.
    by apply (prompt_collects [] lines). }
  replace ((printQuestion q;; promptUser q;; serve datas ({[q_id q]} ∪ seen)) w)
    with (match promptUser q w1 with
          | (Val _, w2) => serve datas ({[q_id q]} ∪ seen) w2
          | (Throw e, w2) => (Throw e, w2)
          | (Halt h, w2) => (Halt h, w2)
          end) by reflexivity.
  rewrite Hprompt.
  set (w2 := with_mailbox _ _).
  destruct (IH answers' ({[q_id q]} ∪ seen) w2 (put_file file text d) rest)
    as (w' & E & Hlog & Hstdin & Hclock & Hfiles & Hframe); try done.
  { intros q' Hq' [Heq%elem_of_singleton|Hs']%elem_of_union.
    - apply Hfresh. rewrite <- Heq. by apply list_elem_of_fmap_2.
    - by apply (Hseen q'); [right|]. }
  exists w'. split; [rewrite E; f_equal; f_equal; cbn; set_solver|].
  split; [rewrite Hlog; cbn; by rewrite <- !app_assoc|].
  split; [done|]. split; [done|]. split.
  - constructor; [|done]. rewrite Hframe.
    + cbn. apply lookup_insert_eq.
    + intros q' Hq' Heq%response_file_inj. apply Hfresh. rewrite Heq.
      by apply list_elem_of_fmap_2.
  - intros f Hf. rewrite Hframe.
    + cbn. rewrite Hm. cbn. apply lookup_insert_ne. intros <-.
      by apply (Hf q); [left|].
    + intros q' Hq'. apply Hf. by right.
Qed.

(** The iteration over a mailbox whose only request file cannot be parsed. *)
Lemma iteration_skips_one (seen : gset string) (w : world) (d : Dir) (f text : string) :
  mailbox w = Some d -> listable d = true ->
  is_question_file f = true -> files d !! f = Some text ->
  Json.parse text = PSyntaxError ->
  (forall g, is_question_file g = true -> is_Some (files d !! g) -> g = f) ->
  iteration seen w = (Val seen, logged [EvExistsDir; EvReaddir; EvRead f] w).
Proof.
  intros Hm Hl Hq Hf Hp Hone. unfold iteration, bind at 1.
  rewrite (getPendingQuestions_listing w d Hm Hl).
  rewrite (pending_files_one d f) by eauto.
  rewrite read_questions_step. cbn [mailbox logged]. rewrite Hm. cbn [file_of].
  rewrite Hf, Hp. cbn [read_questions ret serve]. unfold ret.
  by rewrite logged_logged.
Qed.

(** X26. A request record of which only a part is written yet is
    presented once it is complete. The iteration that finds the part reads
    the file, presents nothing and marks nothing as processed; the iteration
    after the wait in which the record is completed presents the question and
    writes its reply. *)
Theorem a_half_written_request_is_presented_once_complete
    (w : world) (d : Dir) (q : Question) (part : string) (nap : interval)
    (lines rest : list string) :
  let file := question_file (q_id q) in
  let reply := response_file (q_id q) in
  let text := Codec.stringify_Response (reply_to q lines (clock_after nap)) in
  mailbox w = Some d -> writable d = true -> listable d = true ->
  files d !! file = Some part -> cut_short (Codec.stringify_Question q) part ->
  (forall g, is_question_file g = true -> is_Some (files d !! g) -> g = file) ->
  others nap (Some d) = Some (put_file file (Codec.stringify_Question q) d) ->
  prompt [] 0 (stdin w) = Some (lines, rest) ->
  let run := main_loop ∅ [nap] w in
  fst run = Val ({[q_id q]} ∪ ∅)
  /\ log (snd run)
     = log w ++ [EvExistsDir; EvReaddir; EvRead file;
                 EvExistsDir; EvReaddir; EvRead file; EvPresent q; EvWrite reply text]
  /\ file_of (mailbox (snd run)) reply = Some text.
Proof.
  intros file reply text Hm Hw Hl Hf Hc Hone Hnap Hp run. unfold run.
  rewrite main_loop_unfold.
  rewrite (iteration_skips_one ∅ w d file part); try done;
    [|apply question_file_is_request
     |by apply (parse_print_object_part (Codec.Question_members q))].
  set (w1 := during nap _). rewrite main_loop_unfold.
  set (d2 := put_file file (Codec.stringify_Question q) d).
  assert (mailbox w1 = Some d2) as Hm1.
  { unfold w1, during. cbn [mailbox logged]. by rewrite Hm, Hnap. }
  rewrite (iteration_answers_one ∅ w1 d2 q lines rest); try done.
  - cbn [fst snd log mailbox with_mailbox with_stdin logged].
    split; [done|]. split; [|cbn; apply lookup_insert_eq].
    unfold w1, during. cbn. by rewrite <- !app_assoc.
  - cbn. apply lookup_insert_eq.
  - intros g Hg [t Ht]. destruct (decide (g = file)) as [->|Hne]; [done|].
    cbn in Ht. rewrite lookup_insert_ne in Ht by done. by apply Hone.
Qed.

End PassFacts.

(** ** Paths and plain ids *)

Module PathFacts.
Import World Ipc Responder JsonFacts NameFacts Paths Call.

Lemma contains_cons (c x : ascii) (s : string) :
  contains c (String x s) = Ascii.eqb c x || contains c s.
Proof. reflexivity. Qed.

Lemma contains_append (c : ascii) (a b : string) :
  contains c (a +:+ b) = contains c a || contains c b.
Proof.
  induction a as [|x a IH]; [done|].
  rewrite app_cons, !contains_cons, IH. by rewrite orb_assoc.
Qed.

Lemma segments_whole (s : string) : contains "/" s = false -> segments s = [s].
Proof.
  induction s as [|x s IH]; [done|].
  rewrite contains_cons. intros [Hx Hs]%orb_false_elim.
  cbn [segments]. rewrite Ascii.eqb_sym, Hx, IH; done.
Qed.

(** A name without separator that is not [.] or [..] is a file of the
    directory. *)
Lemma path_join_whole (s : string) :
  contains "/" s = false -> contains "000" s = false ->
  s <> "" -> s <> "." -> s <> ".." ->
  path_join s = Some s.
Proof.
  intros Hs Hn H0 H1 H2. unfold path_join. rewrite Hn, (segments_whole s Hs).
  cbn [List.last normalize].
  apply String.eqb_neq in H0, H1, H2. by rewrite H0, H1, H2.
Qed.

Lemma plain_contains (id : string) :
  plain id = true ->
  contains "/" id = false /\ contains "\" id = false /\ contains "000" id = false.
Proof.
  unfold plain. intros [[H1 H2]%andb_prop H3]%andb_prop.
  by repeat split; apply negb_true_iff.
Qed.

Lemma path_join_record (id : string) (c : ascii) (r : string) :
  contains "/" (String c r) = false -> contains "000" (String c r) = false ->
  c <> "."%char ->
  plain id = true ->
  path_join (String c r +:+ id +:+ ".json") = Some (String c r +:+ id +:+ ".json").
Proof.
  intros Hs Hn Hc (P1 & _ & P3)%plain_contains.
  apply path_join_whole.
  - by rewrite !contains_append, Hs, P1.
  - by rewrite !contains_append, Hn, P3.
  - by rewrite app_cons.
  - rewrite app_cons. intros [= ? _]. done.
  - rewrite app_cons. intros [= ? _]. done.
Qed.

Lemma path_join_response (id : string) :
  plain id = true -> path_join (response_file id) = Some (response_file id).
Proof. intros H. by apply (path_join_record id "r" "esponse_"). Qed.

Lemma path_join_question (id : string) :
  plain id = true -> path_join (question_file id) = Some (question_file id).
Proof. intros H. by apply (path_join_record id "q" "uestion_"). Qed.

(** The ids of [generateQuestionId] are plain, when the random suffix
    is. *)
Lemma decimal_plain (c : ascii) (d : Decimal.uint) :
  c = "/"%char \/ c = "\"%char \/ c = "000"%char ->
  contains c (NilEmpty.string_of_uint d) = false.
Proof. intros [->|[->| ->]]; induction d; cbn; done. Qed.

Lemma of_Z_plain (c : ascii) (z : Z) :
  c = "/"%char \/ c = "\"%char \/ c = "000"%char ->
  contains c (JsString.of_Z z) = false.
Proof.
  intros Hc. unfold JsString.of_Z, JsString.decimal.
  destruct (z <? 0); [|by apply decimal_plain].
  rewrite contains_cons, decimal_plain by done.
  by destruct Hc as [->|[->| ->]].
Qed.

Lemma generated_id_plain (random : string) (w : world) :
  plain random = true -> plain (id_of random w) = true.
Proof.
  intros (P1 & P2 & P3)%plain_contains. unfold plain, id_of.
  rewrite !contains_append, !of_Z_plain, P1, P2, P3 by auto. done.
Qed.

(** X2. For ids without a path separator the files of a request are the
    files [question_<id>.json] and [response_<id>.json] of the mailbox
    directory, and they determine the id: requests with different ids share
    neither their request file nor their reply file, and no request file is
    the reply file of any request. The ids [generateQuestionId] makes are of
    that kind when the random suffix is. *)
Theorem file_names_identify_the_request (a b : string) :
  plain a = true -> plain b = true ->
  path_join (question_file a) = Some (question_file a)
  /\ path_join (response_file a) = Some (response_file a)
  /\ (path_join (question_file a) = path_join (question_file b) -> a = b)
  /\ (path_join (response_file a) = path_join (response_file b) -> a = b)
  /\ path_join (question_file a) <> path_join (response_file b)
  /\ (forall random w, plain random = true -> plain (id_of random w) = true).
Proof.
  intros Ha Hb.
  rewrite !path_join_question, !path_join_response by done.
  split; [done|]. split; [done|]. split; [|split; [|split]].
  - unfold question_file. intros [= H%(inj _)]. by apply append_inv_tail in H.
  - unfold response_file. intros [= H%(inj _)]. by apply append_inv_tail in H.
  - discriminate.
  - apply generated_id_plain.
Qed.

(** Without the restriction the names do not tell the files apart. *)
Example crossing_id :
  path_join (response_file "/../question_a") = Some (question_file "a")
  /\ is_question_file (question_file "a") = true.
Proof. split; reflexivity. Qed.

End PathFacts.

(** ** The Responder with [path.join] in place *)

Module DiskFacts.
Import World Ipc Responder WorldFacts Traces ResponderFacts ResponderOrder.
Import NameFacts ResponderScan Paths PathFacts.
Local Open Scope io_scope.

(** *** For plain ids [path.join] changes nothing *)

Lemma writeResponse_plain (id text : string) (b : bool) :
  plain id = true -> Disk.writeResponse id text b = writeResponse id text b.
Proof.
  intros H. unfold Disk.writeResponse. rewrite (path_join_response id H).
  reflexivity.
Qed.

Lemma promptUser_plain (q : Question) (w : world) :
  plain (q_id q) = true -> Disk.promptUser q w = promptUser q w.
Proof.
  intros H. unfold Disk.promptUser, promptUser, bind.
  destruct (read_answer w) as [[lines|e|h] w1]; [|done..].
  by rewrite !writeResponse_plain.
Qed.

Lemma serve_plain (datas : list json) (seen : gset string) (w : world) :
  (forall data q, data ∈ datas -> Codec.as_question data = Some q ->
                  plain (q_id q) = true) ->
  Disk.serve datas seen w = serve datas seen w.
Proof.
  revert seen w. induction datas as [|data datas IH]; intros seen w H; [done|].
  cbn [Disk.serve serve].
  destruct (Codec.as_question data) as [q|] eqn:Hq; [|done].
  assert (forall seen' w', Disk.serve datas seen' w' = serve datas seen' w') as IH'.
  { intros seen' w'. apply IH. intros data' q' Hin. apply H. by right. }
  case_decide; [apply IH'|].
  unfold bind, printQuestion, emit.
  rewrite promptUser_plain by (apply (H data); [by left|done]).
  destruct (promptUser q _) as [[[]|e|h] w1]; [apply IH'|done..].
Qed.

Lemma getPendingQuestions_plain (w w1 : world) (datas : list json) :
  Disk.plain_requests (mailbox w) ->
  getPendingQuestions w = (Val datas, w1) ->
  forall data q, data ∈ datas -> Codec.as_question data = Some q ->
                 plain (q_id q) = true.
Proof.
  intros Hplain E data q Hin Hq.
  destruct (mailbox w) as [d|] eqn:Hm.
  - destruct (listable d) eqn:Hl.
    + rewrite (getPendingQuestions_listing w d Hm Hl) in E.
      destruct (read_questions_result (pending_files d)
                  (logged [EvExistsDir; EvReaddir] w) d Hm) as (evs & _ & _ & R).
      rewrite E in R. cbn in R. destruct R as [R|R]; [|done]. simplify_eq.
      apply list_elem_of_omap in Hin as (f & Hf & Hp).
      apply elem_of_pending_files in Hf as [Hf _].
      apply (Hplain d f q); [done|done|]. unfold question_in. by rewrite Hp.
    + exfalso. destruct w as [m c a i l]. cbn in Hm. subst m. revert E.
      responder_unfold. cbn. by rewrite Hl.
  - destruct w as [m c a i l]. cbn in Hm. subst m.
    assert (datas = []) as ->; [|by apply elem_of_nil in Hin].
    revert E. responder_unfold. cbn. rewrite map_to_list_empty. cbn.
    by intros [= <- _].
Qed.

Lemma iteration_plain (seen : gset string) (w : world) :
  Disk.plain_requests (mailbox w) -> Disk.iteration seen w = iteration seen w.
Proof.
  intros H. unfold Disk.iteration, iteration, bind.
  destruct (getPendingQuestions w) as [[datas|e|h] w1] eqn:E; [|done..].
  rewrite serve_plain; [done|]. by eapply getPendingQuestions_plain.
Qed.

(** *** What the Responder leaves as it is *)

Global Instance changes_replies_only_preorder : PreOrder Disk.changes_replies_only.
Proof.
  split; [by intros w f|].
  intros w1 w2 w3 H12 H23 f Hf. by rewrite H23, H12.
Qed.

Lemma same_unchanged {A} (m : IO A) :
  (forall w, mailbox (snd (m w)) = mailbox w) -> steps Disk.changes_replies_only m.
Proof. intros H w f _. by rewrite H. Qed.

Lemma same_getPendingQuestions : steps Disk.changes_replies_only getPendingQuestions.
Proof.
  unfold getPendingQuestions, ensureIpcDir. sbind.
  - sbind; [by apply same_unchanged|intros []]; [apply steps_ret, _|].
    intros [[d|] c a i l] f _; done.
  - intros _. sbind.
    + apply same_unchanged.
      intros [[d|] c a i l]; cbn; [by destruct (listable d)|done].
    + intros names. apply same_unchanged. intros w. apply read_questions_mailbox.
Qed.

Lemma same_in_callback {A} (m : IO A) :
  steps Disk.changes_replies_only m -> steps Disk.changes_replies_only (in_callback m).
Proof.
  intros Hm w. unfold in_callback. specialize (Hm w).
  by destruct (m w) as [[a|e|h] w1].
Qed.

Lemma same_promptUser (q : Question) : steps Disk.changes_replies_only (promptUser q).
Proof.
  unfold promptUser. sbind.
  - apply same_unchanged. intros w. unfold read_answer.
    by destruct (prompt [] 0 (stdin w)) as [[lines rest]|].
  - intros lines. apply same_in_callback. unfold writeResponse.
    destruct (String.eqb _ _);
      (sbind; [apply steps_Date_now, _|intros now]);
      (intros [[d|] c a i l] f Hf; cbn; [|done]);
      (destruct (writable d); cbn; [|done]);
      by rewrite lookup_insert_ne.
Qed.

Lemma same_serve (questions : list json) (seen : gset string) :
  steps Disk.changes_replies_only (serve questions seen).
Proof.
  revert seen.
  induction questions as [|data qs IH]; intros seen; cbn [serve];
    [apply steps_ret, _|].
  destruct (Codec.as_question data) as [q|]; [|apply steps_stop, _].
  case_decide; [apply IH|]. unfold printQuestion.
  sbind; [by apply same_unchanged|intros _].
  sbind; [by apply same_promptUser|intros _]. apply IH.
Qed.

Lemma same_iteration (seen : gset string) :
  steps Disk.changes_replies_only (iteration seen).
Proof.
  unfold iteration. sbind; [apply same_getPendingQuestions|intros qs].
  apply same_serve.
Qed.

Lemma plain_requests_kept (w w' : world) :
  Disk.changes_replies_only w w' ->
  Disk.plain_requests (mailbox w) -> Disk.plain_requests (mailbox w').
Proof.
  intros Hsame Hplain d' f q Hm' Hf Hq.
  assert (files d' !! f = file_of (mailbox w) f) as E.
  { specialize (Hsame f). rewrite Hm' in Hsame. cbn in Hsame. apply Hsame.
    intros id ->. by rewrite response_file_is_no_request in Hf. }
  destruct (mailbox w) as [d|] eqn:Hm; cbn in E.
  - apply (Hplain d f q); [done|done|].
    revert Hq. unfold question_in, parsed_in. by rewrite E.
  - revert Hq. unfold question_in, parsed_in. by rewrite E.
Qed.

Lemma disk_main_loop_unfold (seen : gset string) (naps : list interval) (w : world) :
  Disk.main_loop seen naps w
  = match Disk.iteration seen w with
    | (Val seen1, w1) =>
        match naps with
        | [] => (Val seen1, w1)
        | nap :: rest => Disk.main_loop seen1 rest (during nap w1)
        end
    | (Throw e, w1) => (Throw e, w1)
    | (Halt h, w1) => (Halt h, w1)
    end.
Proof.
  destruct naps; cbn [Disk.main_loop]; unfold bind at 1;
    by destruct (Disk.iteration seen w) as [[seen1|e|h] w1].
Qed.

Lemma main_loop_plain (naps : list interval) :
  Forall quiet naps ->
  forall seen w,
    Disk.plain_requests (mailbox w) ->
    Disk.main_loop seen naps w = main_loop seen naps w.
Proof.
  induction 1 as [|nap naps Hnap _ IH]; intros seen w Hplain;
    rewrite disk_main_loop_unfold, main_loop_unfold, iteration_plain by done;
    [done|].
  pose proof (same_iteration seen w) as Hsame.
  destruct (iteration seen w) as [[seen1|e|h] w1]; [|done..].
  apply IH. cbn. rewrite Hnap. by apply (plain_requests_kept w w1).
Qed.

Lemma main_plain (naps : list interval) (w : world) :
  Forall quiet naps -> Disk.plain_requests (mailbox w) ->
  Disk.main naps w = main naps w.
Proof.
  intros Hq Hplain. unfold Disk.main, main, try_catch.
  by rewrite main_loop_plain.
Qed.

Lemma same_main (naps : list interval) :
  Forall quiet naps -> steps Disk.changes_replies_only (main naps).
Proof.
  intros Hq. unfold main. scatch.
  - revert Hq. generalize (∅ : gset string) as seen. intros seen Hq. revert seen.
    induction Hq as [|nap naps Hnap _ IH]; intros seen; cbn [main_loop];
      (sbind; [by apply same_iteration|intros seen']).
    + apply steps_ret, _.
    + sbind; [|intros _; apply IH].
      apply same_unchanged. intros w. cbn. apply Hnap.
  - intros e. sbind; [by apply same_unchanged|intros _]. apply steps_stop, _.
Qed.

(** *** Calls of the Responder *)

Section Emits.
Context (P : event -> Prop).
Context (Hdir : P EvExistsDir) (Hmk : P EvMkdir) (Hls : P EvReaddir).
Context (Hread : forall f, P (EvRead f)) (Hshow : forall q, P (EvPresent q)).
Context (Hwrite : forall r f,
           path_join (response_file (r_id r)) = Some f ->
           P (EvWrite f (Codec.stringify_Response r))).

Lemma emits_disk_writeResponse (id text : string) (b : bool) :
  emits P (Disk.writeResponse id text b).
Proof.
  unfold Disk.writeResponse. sbind; [apply steps_Date_now, _|intros now].
  destruct (path_join (response_file id)) as [f|] eqn:E; [|apply steps_stop, _].
  apply emits_writeFileSync. by apply Hwrite.
Qed.

Lemma emits_disk_promptUser (q : Question) : emits P (Disk.promptUser q).
Proof.
  unfold Disk.promptUser. sbind; [apply emits_read_answer|intros lines].
  apply emits_in_callback. destruct (String.eqb _ _); apply emits_disk_writeResponse.
Qed.

Lemma emits_disk_serve (questions : list json) (seen : gset string) :
  emits P (Disk.serve questions seen).
Proof.
  revert seen.
  induction questions as [|data qs IH]; intros seen; cbn [Disk.serve];
    [apply steps_ret, _|].
  destruct (Codec.as_question data) as [q|]; [|apply steps_stop, _].
  case_decide; [apply IH|]. unfold printQuestion.
  sbind; [by apply emits_event|intros _].
  sbind; [by apply emits_disk_promptUser|intros _]. apply IH.
Qed.

Lemma emits_disk_main_loop (seen : gset string) (naps : list interval) :
  emits P (Disk.main_loop seen naps).
Proof.
  revert seen.
  induction naps as [|nap naps IH]; intros seen; cbn [Disk.main_loop];
    (sbind; [|intros seen']).
  1,3: unfold Disk.iteration;
       (sbind; [by apply emits_getPendingQuestions|intros qs]); apply emits_disk_serve.
  - apply steps_ret, _.
  - sbind; [apply emits_sleep|intros _]. apply IH.
Qed.

Lemma emits_disk_main (naps : list interval) :
  (forall e, P (EvConsoleError e)) -> emits P (Disk.main naps).
Proof.
  intros. unfold Disk.main. scatch; [by apply emits_disk_main_loop|intros e].
  sbind; [by apply emits_event|intros _]. apply steps_stop, _.
Qed.

End Emits.

(** *** Files of the mailbox under the Responder, whatever the ids *)

Global Instance writes_replies_only_preorder : PreOrder Disk.writes_replies_only.
Proof.
  split.
  - intros w f t H. eauto.
  - intros w1 w2 w3 H12 H23 f t Hf.
    destruct (H12 f t Hf) as [[t2 H2] K2].
    destruct (H23 f t2 H2) as [S3 K3]. split; [done|].
    intros Hn. specialize (K2 Hn). rewrite K2 in H2. simplify_eq. by apply K3.
Qed.

Lemma kept_unchanged {A} (m : IO A) :
  (forall w, mailbox (snd (m w)) = mailbox w) -> steps Disk.writes_replies_only m.
Proof. intros H w. unfold Disk.writes_replies_only. rewrite H. intros f t; eauto. Qed.

Lemma kept_getPendingQuestions : steps Disk.writes_replies_only getPendingQuestions.
Proof.
  unfold getPendingQuestions, ensureIpcDir. sbind.
  - sbind; [by apply kept_unchanged|intros []]; [apply steps_ret, _|].
    intros [[d|] c a i l] f t; cbn; [by eauto|done].
  - intros _. sbind.
    + apply kept_unchanged.
      intros [[d|] c a i l]; cbn; [by destruct (listable d)|done].
    + intros names. apply kept_unchanged. intros w. apply read_questions_mailbox.
Qed.

Lemma kept_writeResponse (id text : string) (b : bool) :
  steps Disk.writes_replies_only (Disk.writeResponse id text b).
Proof.
  unfold Disk.writeResponse. sbind; [apply steps_Date_now, _|intros now].
  destruct (path_join (response_file id)) as [g|] eqn:E; [|apply steps_stop, _].
  intros [[d|] c a i l] f u; cbn; [|done]. destruct (writable d); cbn; [|by eauto].
  intros Hf. destruct (decide (f = g)) as [->|Hne].
  - rewrite lookup_insert_eq. split; [by eauto|]. intros Hn. by destruct (Hn id).
  - rewrite lookup_insert_ne by done. eauto.
Qed.

Lemma kept_promptUser (q : Question) :
  steps Disk.writes_replies_only (Disk.promptUser q).
Proof.
  unfold Disk.promptUser. sbind.
  - apply kept_unchanged. intros w. unfold read_answer.
    by destruct (prompt [] 0 (stdin w)) as [[lines rest]|].
  - intros lines.
    assert (forall m : IO unit,
              steps Disk.writes_replies_only m ->
              steps Disk.writes_replies_only (in_callback m)) as Hcb.
    { intros m Hm w. unfold in_callback. specialize (Hm w).
      by destruct (m w) as [[a|e|h] w1]. }
    apply Hcb. destruct (String.eqb _ _); apply kept_writeResponse.
Qed.

Lemma kept_serve (questions : list json) (seen : gset string) :
  steps Disk.writes_replies_only (Disk.serve questions seen).
Proof.
  revert seen.
  induction questions as [|data qs IH]; intros seen; cbn [Disk.serve];
    [apply steps_ret, _|].
  destruct (Codec.as_question data) as [q|]; [|apply steps_stop, _].
  case_decide; [apply IH|]. unfold printQuestion.
  sbind; [by apply kept_unchanged|intros _].
  sbind; [by apply kept_promptUser|intros _]. apply IH.
Qed.

Lemma kept_main (naps : list interval) :
  Forall quiet naps -> steps Disk.writes_replies_only (Disk.main naps).
Proof.
  intros Hq. unfold Disk.main. scatch.
  - generalize (∅ : gset string) as seen.
    induction Hq as [|nap naps Hnap _ IH]; intros seen; cbn [Disk.main_loop];
      (sbind; [|intros seen']).
    1,3: unfold Disk.iteration;
         (sbind; [apply kept_getPendingQuestions|intros qs]); apply kept_serve.
    + apply steps_ret, _.
    + sbind; [|intros _; apply IH].
      apply kept_unchanged. intros w. cbn. apply Hnap.
  - intros e. sbind; [by apply kept_unchanged|intros _]. apply steps_stop, _.
Qed.

(** C6, as the code has it. The Responder deletes nothing. In every run of
    its loop the calls it makes are: looking for, creating and listing the
    directory, reading files, presenting questions, logging an error, and
    writing reply records, each to the file that [path.join] makes of
    [response_<id>.json] for the id in the record; it never calls
    [unlinkSync]. While no other process changes the mailbox, every file that
    was in it is still there at the end, with its text unless [path.join]
    takes the name of a reply record to it. When moreover the ids held by the
    request files are plain, [path.join] changes nothing: the run is that of
    the Responder above, and every file whose name is not
    [response_<id>.json], each request record among them, is exactly as it
    was. *)
Theorem responder_deletes_nothing (naps : list interval) (w : world) :
  (exists evs,
     log (snd (Disk.main naps w)) = log w ++ evs
     /\ Forall Disk.disk_event evs
     /\ Forall (fun e => forall f o, e <> EvUnlink f o) evs)
  /\ (Forall quiet naps -> Disk.writes_replies_only w (snd (Disk.main naps w)))
  /\ (Forall quiet naps -> Disk.plain_requests (mailbox w) ->
      Disk.main naps w = main naps w
      /\ only_replies_written (mailbox w) (mailbox (snd (Disk.main naps w)))
      /\ forall f, (forall id, f <> response_file id) ->
           file_of (mailbox (snd (Disk.main naps w))) f = file_of (mailbox w) f).
Proof.
  split; [|split].
  - destruct (emits_disk_main Disk.disk_event) with (naps := naps) (w := w)
      as (evs & E & F); cbn; eauto.
    exists evs. split; [done|]. split; [done|].
    eapply Forall_impl; [exact F|]. intros e He f o ->. exact He.
  - intros Hq. by apply kept_main.
  - intros Hq Hplain. rewrite main_plain by done.
    split; [done|]. split; [by apply keeps_main|]. by apply same_main.
Qed.

(** C6 as stated fails: for a request whose id holds path separators the
    reply does not go to a file named [response_<id>.json]. With the id
    [/../question_a] in the request file [question_a.json], the Responder
    writes the reply over that request file. *)
Lemma reply_overwrites_a_request :
  is_question_file (question_file "a") = true
  /\ file_of (mailbox Cases.crossed) (question_file "a")
     = Some (Codec.stringify_Question Cases.crossing)
  /\ Disk.main [] Cases.crossed
     = (Val {["/../question_a"]},
        mkWorld
          (Scenarios.box
             [(question_file "a",
               Codec.stringify_Response
                 (mkResponse "/../question_a" "Use option B" true 1700))])
          1700 false []
          [EvExistsDir; EvReaddir; EvRead (question_file "a");
           EvPresent Cases.crossing;
           EvWrite (question_file "a")
             (Codec.stringify_Response
                (mkResponse "/../question_a" "Use option B" true 1700))]).
Proof. vm_compute. repeat split. Qed.

End DiskFacts.

(** ** The loop of the Responder, iteration by iteration *)

Module LoopFacts.
Import World Ipc Responder WorldFacts Traces ResponderFacts ResponderOrder.
Import RoundTrip NameFacts ResponderScan Pass PassFacts Paths PathFacts DiskFacts Loop.
Local Open Scope io_scope.

(** *** The loop, iteration by iteration *)

Lemma main_loop_app (seen seen0 : gset string) (pre post : list interval)
    (nap : interval) (w w0 : world) :
  main_loop seen pre w = (Val seen0, w0) ->
  main_loop seen (pre ++ nap :: post) w = main_loop seen0 post (during nap w0).
Proof.
  revert seen w. induction pre as [|nap' pre IH]; intros seen w;
    rewrite main_loop_unfold; cbn [app];
    rewrite (main_loop_unfold seen (_ :: _));
    destruct (iteration seen w) as [[seen1|e|h] w1]; try done.
  - by intros [= -> ->].
  - apply IH.
Qed.

Lemma main_loop_begins (naps : list interval) (w w1 : world) (seen : gset string) :
  iteration_begins naps w seen w1 ->
  match iteration seen w1 with
  | (Val seen1, w2) => True
  | (Throw e, w2) => main_loop ∅ naps w = (Throw e, w2)
  | (Halt h, w2) => main_loop ∅ naps w = (Halt h, w2)
  end.
Proof.
  intros [[-> ->]|(pre & nap & post & w0 & -> & E & ->)].
  - rewrite main_loop_unfold.
    by destruct (iteration ∅ w) as [[seen1|e|h] w2] eqn:Ei.
  - rewrite (main_loop_app _ _ _ _ _ _ _ E), main_loop_unfold.
    by destruct (iteration seen (during nap w0)) as [[seen1|e|h] w2].
Qed.

(** What an iteration throws is logged and the process exits; what stops it
    stops the process. *)
Lemma main_ends_with_iteration (naps : list interval) (w w1 : world)
    (seen : gset string) :
  iteration_begins naps w seen w1 ->
  (forall e, fst (iteration seen w1) = Throw e ->
             main naps w
             = (Halt (Exit 1), logged [EvConsoleError e] (snd (iteration seen w1))))
  /\ (forall h, fst (iteration seen w1) = Halt h ->
                main naps w = (Halt h, snd (iteration seen w1))).
Proof.
  intros Hb. unfold main, try_catch.
  pose proof (main_loop_begins naps w w1 seen Hb) as E.
  destruct (iteration seen w1) as [[seen1|e|h] w2]; cbn [fst snd];
    split; intros x [=]; subst; by rewrite E.
Qed.

Lemma iteration_listing_fails (seen : gset string) (w : world) (d : Dir) :
  mailbox w = Some d -> listable d = false ->
  iteration seen w = (Throw (FsError EACCES ""), logged [EvExistsDir; EvReaddir] w).
Proof.
  intros Hm Hl. destruct w as [m c a i l]. cbn in Hm. subst m.
  unfold iteration. responder_unfold. cbn. rewrite Hl. cbn. by rewrite <- app_assoc.
Qed.

(** *** The scan of legible request files *)

Lemma read_questions_legible (d : Dir) (names : list string) :
  Forall (legible d) names ->
  forall w, mailbox w = Some d ->
    read_questions names w
    = (Val (omap (parsed_in d) names), logged (EvRead <$> names) w)
    /\ Forall2 (fun data q => Codec.as_question data = Some q)
         (omap (parsed_in d) names) (omap (question_in d) names).
Proof.
  induction 1 as [|f names Hf _ IH]; intros w Hm.
  { cbn. rewrite logged_nil. split; [done|constructor]. }
  destruct (IH (logged [EvRead f] w) Hm) as [E F].
  rewrite read_questions_step, Hm, E, logged_logged. cbn [file_of].
  change (omap (parsed_in d) (f :: names))
    with (match parsed_in d f with
          | Some y => y :: omap (parsed_in d) names
          | None => omap (parsed_in d) names
          end).
  change (omap (question_in d) (f :: names))
    with (match question_in d f with
          | Some y => y :: omap (question_in d) names
          | None => omap (question_in d) names
          end).
  unfold legible in Hf. unfold question_in at 1.
  assert (parsed_in d f
          = match files d !! f with
            | Some text => match Json.parse text with POk v => Some v | _ => None end
            | None => None
            end) as -> by reflexivity.
  destruct (files d !! f) as [text|]; [|done].
  destruct (Json.parse text) as [data| |]; [|done..].
  destruct Hf as [q Hq]. cbn [mbind option_bind]. rewrite Hq.
  split; [done|]. by constructor.
Qed.

(** *** A pass over requests of which some are processed already *)

Lemma due_nil (seen : gset string) : due seen [] [].
Proof.
  split; [constructor|]. split; [constructor|].
  split; intros q Hq; by apply elem_of_nil in Hq.
Qed.

Lemma due_skip (seen : gset string) (q : Question) (qs ps : list Question) :
  q_id q ∈ seen -> due seen qs ps -> due seen (q :: qs) ps.
Proof.
  intros Hs (S & N & C & F). split; [by apply sublist_cons|]. split; [done|].
  split.
  - intros q0 [->|Hin]%elem_of_cons Hq0; [done|by apply C].
  - intros p Hp. destruct (F p Hp) as (Hps & before & after & -> & Hb).
    split; [done|]. exists (q :: before), after. split; [done|].
    cbn. intros [Heq|Hin]%elem_of_cons; [|done]. by rewrite Heq in Hps.
Qed.

Lemma due_take (seen : gset string) (q : Question) (qs ps : list Question) :
  q_id q ∉ seen -> due ({[q_id q]} ∪ seen) qs ps -> due seen (q :: qs) (q :: ps).
Proof.
  intros Hs (S & N & C & F).
  assert (forall p, p ∈ ps -> q_id p <> q_id q) as Hne.
  { intros p Hp Heq. destruct (F p Hp) as [Hps _]. set_solver. }
  split; [by apply sublist_skip|]. split.
  { cbn. apply NoDup_cons. split; [|done].
    intros (p & Heq & Hp)%list_elem_of_fmap. by apply (Hne p). }
  split.
  - intros q0 Hin Hq0. cbn. destruct (decide (q_id q0 = q_id q)) as [->|Hd]; [by left|].
    right. apply elem_of_cons in Hin as [->|Hin]; [done|].
    apply C; [done|]. set_solver.
  - intros p [->|Hp]%elem_of_cons.
    + split; [done|]. exists [], qs. split; [done|]. cbn. apply not_elem_of_nil.
    + destruct (F p Hp) as (Hps & before & after & -> & Hb).
      split; [set_solver|]. exists (q :: before), after. split; [done|].
      cbn. intros [Heq|Hin]%elem_of_cons; [by apply (Hne p)|done].
Qed.

Lemma serve_due (datas : list json) (qs : list Question) :
  Forall2 (fun data q => Codec.as_question data = Some q) datas qs ->
  forall (answers : list (list string)) (seen : gset string) (w : world) (d : Dir)
         (rest : list string),
    Forall answer answers -> (length qs <= length answers)%nat ->
    mailbox w = Some d -> writable d = true ->
    stdin w = typed answers ++ rest ->
    exists ps used unused w',
      answers = used ++ unused /\ length used = length ps
      /\ due seen qs ps
      /\ serve datas seen w = (Val (list_to_set (q_id <$> ps) ∪ seen), w')
      /\ log w' = log w ++ exchanged (clock w) ps used
      /\ stdin w' = typed unused ++ rest
      /\ Forall2 (fun q lines =>
                    file_of (mailbox w') (response_file (q_id q))
                    = Some (Codec.stringify_Response (reply_to q lines (clock w))))
           ps used
      /\ (forall f, (forall q, q ∈ ps -> f <> response_file (q_id q)) ->
                    file_of (mailbox w') f = file_of (mailbox w) f).
Proof.
  induction 1 as [|data q datas qs Hq _ IH];
    intros answers seen w d rest Hans Hlen Hm Hw Hin.
  { exists [], [], answers, w. cbn [serve ret]. split; [done|]. split; [done|].
    split; [apply due_nil|]. split.
    { unfold ret. do 2 f_equal. cbn. set_solver. }
    split; [cbn; by rewrite app_nil_r|]. split; [done|]. split; [constructor|done]. }
  cbn [serve]. rewrite Hq. case_decide as Hs.
  { destruct (IH answers seen w d rest) as (ps & used & unused & w' & H);
      [done|cbn in Hlen; lia|done..|].
    destruct H as (Ha & Hl & Hdue & H). exists ps, used, unused, w'.
    split; [done|]. split; [done|]. split; [by apply due_skip|done]. }
  destruct answers as [|lines answers']; [cbn in Hlen; lia|].
  apply Forall_cons in Hans as [[Hne Hl] Hans].
  set (w1 := logged [EvPresent q] w).
  set (file := response_file (q_id q)).
  set (text := Codec.stringify_Response (reply_to q lines (clock w))).
  assert (promptUser q w1
          = (Val tt,
             with_mailbox (Some (put_file file text d))
               (with_stdin (typed answers' ++ rest) (logged [EvWrite file text] w1))))
    as Hprompt.
  { apply (promptUser_writes q w1 d lines); [done|done|].
    cbn [stdin w1 logged]. rewrite Hin, typed_cons.
    by apply (prompt_collects [] lines). }
  replace ((printQuestion q;; promptUser q;; serve datas ({[q_id q]} ∪ seen)) w)
    with (match promptUser q w1 with
          | (Val _, w2) => serve datas ({[q_id q]} ∪ seen) w2
          | (Throw e, w2) => (Throw e, w2)
          | (Halt h, w2) => (Halt h, w2)
          end) by reflexivity.
  rewrite Hprompt.
  set (w2 := with_mailbox _ _).
  destruct (IH answers' ({[q_id q]} ∪ seen) w2 (put_file file text d) rest)
    as (ps & used & unused & w' & -> & Hlu & Hdue & E & Hlog & Hstdin & Hfiles & Hframe);
    [done|cbn in Hlen; lia|done..|].
  assert (forall p, p ∈ ps -> q_id p <> q_id q) as Hother.
  { intros p Hp Heq. destruct Hdue as (_ & _ & _ & F).
    destruct (F p Hp) as [Hps _]. set_solver. }
  exists (q :: ps), (lines :: used), unused, w'.
  split; [done|]. split; [cbn; by rewrite Hlu|].
  split; [by apply due_take|].
  split; [rewrite E; f_equal; f_equal; cbn; set_solver|].
  split; [rewrite Hlog; cbn; by rewrite <- !app_assoc|].
  split; [done|]. split.
  - constructor; [|done]. rewrite Hframe.
    + cbn. apply lookup_insert_eq.
    + intros p Hp Heq%response_file_inj. by apply (Hother p).
  - intros f Hf. rewrite Hframe.
    + cbn. rewrite Hm. cbn. apply lookup_insert_ne. intros <-.
      by apply (Hf q); [left|].
    + intros p Hp. apply Hf. by right.
Qed.

Lemma plain_requests_of (d : Dir) :
  Disk.plain_requests (Some d)
  <-> Forall (fun q => plain (q_id q) = true) (omap (question_in d) (pending_files d)).
Proof.
  rewrite Forall_forall. split.
  - intros H q (f & Hf & Hq)%list_elem_of_omap.
    apply elem_of_pending_files in Hf as [Hf _]. by apply (H d f q).
  - intros H d' f q [= <-] Hf Hq. apply H, list_elem_of_omap. exists f.
    split; [|done]. apply elem_of_pending_files. split; [done|].
    unfold question_in, parsed_in in Hq. by destruct (files d !! f).
Qed.

Lemma iteration_due (seen : gset string) (w : world) (d : Dir)
    (answers : list (list string)) (rest : list string) :
  mailbox w = Some d -> writable d = true -> listable d = true ->
  Forall (legible d) (pending_files d) ->
  Forall answer answers ->
  (length (omap (question_in d) (pending_files d)) <= length answers)%nat ->
  stdin w = typed answers ++ rest ->
  exists ps used unused,
    answers = used ++ unused /\ length used = length ps
    /\ due seen (omap (question_in d) (pending_files d)) ps
    /\ fst (iteration seen w) = Val (list_to_set (q_id <$> ps) ∪ seen)
    /\ log (snd (iteration seen w))
       = log w ++ [EvExistsDir; EvReaddir] ++ (EvRead <$> pending_files d)
         ++ exchanged (clock w) ps used
    /\ stdin (snd (iteration seen w)) = typed unused ++ rest
    /\ Forall2 (fun q lines =>
                  file_of (mailbox (snd (iteration seen w))) (response_file (q_id q))
                  = Some (Codec.stringify_Response (reply_to q lines (clock w))))
         ps used
    /\ (forall f, (forall q, q ∈ ps -> f <> response_file (q_id q)) ->
                  file_of (mailbox (snd (iteration seen w))) f = file_of (mailbox w) f).
Proof.
  intros Hm Hw Hl Hleg Hans Hlen Hin. unfold iteration, bind.
  rewrite (getPendingQuestions_listing w d Hm Hl).
  set (w0 := logged [EvExistsDir; EvReaddir] w).
  destruct (read_questions_legible d _ Hleg w0 Hm) as [-> Hdatas].
  destruct (serve_due _ _ Hdatas answers seen
              (logged (EvRead <$> pending_files d) w0) d rest)
    as (ps & used & unused & w' & Ha & Hlu & Hdue & -> & Hlog & Hstdin & Hrep & Hframe);
    try done.
  exists ps, used, unused. cbn [fst snd].
  split; [done|]. split; [done|]. split; [done|]. split; [done|].
  split; [|done]. rewrite Hlog. cbn. by rewrite <- !app_assoc.
Qed.

Lemma serve_skips (skipped : list Question) (datas : list json) (qs : list Question)
    (seen : gset string) (w : world) :
  Forall2 (fun data q => Codec.as_question data = Some q) datas (skipped ++ qs) ->
  Forall (fun q => q_id q ∈ seen) skipped ->
  exists datas',
    serve datas seen w = serve datas' seen w
    /\ Forall2 (fun data q => Codec.as_question data = Some q) datas' qs.
Proof.
  revert datas. induction skipped as [|q skipped IH]; intros datas H Hs.
  { by exists datas. }
  apply Forall_cons in Hs as [Hq Hs].
  cbn [app] in H. apply Forall2_cons_inv_r in H as (data & datas0 & Hd & H & ->).
  destruct (IH datas0 H Hs) as (datas' & E & F). exists datas'. split; [|done].
  cbn [serve]. rewrite Hd. by case_decide.
Qed.

Lemma iteration_write_fails (seen : gset string) (w : world) (d : Dir)
    (q : Question) (skipped more : list Question) (lines rest : list string) :
  mailbox w = Some d -> listable d = true -> writable d = false ->
  Forall (legible d) (pending_files d) ->
  omap (question_in d) (pending_files d) = skipped ++ q :: more ->
  Forall (fun q' => q_id q' ∈ seen) skipped -> q_id q ∉ seen ->
  prompt [] 0 (stdin w) = Some (lines, rest) ->
  fst (iteration seen w)
  = Halt (UncaughtException (FsError EACCES (response_file (q_id q)))).
Proof.
  intros Hm Hl Hw Hleg Hqs Hsk Hq Hp. unfold iteration, bind.
  rewrite (getPendingQuestions_listing w d Hm Hl).
  set (w0 := logged [EvExistsDir; EvReaddir] w).
  destruct (read_questions_legible d _ Hleg w0 Hm) as [-> Hdatas].
  rewrite Hqs in Hdatas.
  destruct (serve_skips skipped _ (q :: more) seen
              (logged (EvRead <$> pending_files d) w0) Hdatas Hsk) as (datas' & -> & F).
  apply Forall2_cons_inv_r in F as (data & datas0 & Hd & _ & ->).
  cbn [serve]. rewrite Hd. case_decide; [done|].
  set (w1 := logged _ w0).
  replace ((printQuestion q;; promptUser q;; serve datas0 ({[q_id q]} ∪ seen)) w1)
    with (match promptUser q (logged [EvPresent q] w1) with
          | (Val _, w2) => serve datas0 ({[q_id q]} ∪ seen) w2
          | (Throw e, w2) => (Throw e, w2)
          | (Halt h, w2) => (Halt h, w2)
          end) by reflexivity.
  pose proof (promptUser_dies_when_writing_fails q (logged [EvPresent q] w1) d
                lines rest Hm Hw Hp) as E.
  by destruct (promptUser q _) as [[[]|e|h] w2]; cbn in E; simplify_eq.
Qed.

(** C7, as the code has it. A failure of the Responder's directory or
    file calls is not absorbed by its loop, in whichever iteration it
    occurs. Whatever an iteration throws is logged and the process exits with
    status 1, the iterations still to come not being made; this is what
    happens when the directory cannot be listed. When a reply cannot be
    written, the exception is thrown in the line callback and ends the
    process. Only a request file that cannot be read or parsed is skipped,
    and the scan goes on with the next file. *)
Theorem io_failure_ends_the_responder :
  (forall naps w seen w1 e,
     iteration_begins naps w seen w1 ->
     fst (iteration seen w1) = Throw e ->
     main naps w
     = (Halt (Exit 1), logged [EvConsoleError e] (snd (iteration seen w1))))
  /\ (forall naps w seen w1 d,
        iteration_begins naps w seen w1 ->
        mailbox w1 = Some d -> listable d = false ->
        main naps w
        = (Halt (Exit 1),
           logged [EvExistsDir; EvReaddir; EvConsoleError (FsError EACCES "")] w1))
  /\ (forall naps w seen w1 d q skipped more lines rest,
        iteration_begins naps w seen w1 ->
        mailbox w1 = Some d -> listable d = true -> writable d = false ->
        Forall (legible d) (pending_files d) ->
        omap (question_in d) (pending_files d) = skipped ++ q :: more ->
        Forall (fun q' => q_id q' ∈ seen) skipped -> q_id q ∉ seen ->
        plain (q_id q) = true ->
        prompt [] 0 (stdin w1) = Some (lines, rest) ->
        fst (main naps w)
        = Halt (UncaughtException (FsError EACCES (response_file (q_id q)))))
  /\ (forall f files w,
        file_of (mailbox w) f = None
        \/ (exists text, file_of (mailbox w) f = Some text
                         /\ Json.parse text = PSyntaxError) ->
        read_questions (f :: files) w = read_questions files (logged [EvRead f] w)).
Proof.
  split; [|split; [|split]].
  - intros naps w seen w1 e Hb. by apply main_ends_with_iteration.
  - intros naps w seen w1 d Hb Hm Hl.
    destruct (main_ends_with_iteration naps w w1 seen Hb) as [T _].
    pose proof (iteration_listing_fails seen w1 d Hm Hl) as E.
    rewrite (T (FsError EACCES "")) by (by rewrite E).
    rewrite E. cbn [snd]. by rewrite logged_logged.
  - intros naps w seen w1 d q skipped more lines rest Hb Hm Hl Hw Hleg Hqs Hsk Hq _ Hp.
    destruct (main_ends_with_iteration naps w w1 seen Hb) as [_ T].
    pose proof (iteration_write_fails seen w1 d q skipped more lines rest
                  Hm Hl Hw Hleg Hqs Hsk Hq Hp) as E.
    by rewrite (T _ E).
  - exact read_questions_skips_unreadable.
Qed.

(** C9. In every run of the Responder no request id is presented twice,
    and the questions are taken one at a time, each followed at once by the
    write of its own reply before another is presented; a request whose id
    is in [processedQuestions] is passed over, whatever the mailbox holds;
    within an iteration the request files are read in ascending order of
    their names and the questions are presented in that order. And the
    requests are presented: when the request files are legible, their ids
    plain, and the human types an answer for each question asked, an
    iteration reads all request files in the order of their names, then
    presents exactly the requests that are due (for each id not yet
    processed, the first request in file order that has it) in file order,
    writing the reply of each before it presents the next, and returns the
    processed ids with those presented added. *)
Theorem each_request_presented_once_in_file_order :
  (forall naps w,
     exists evs,
       log (snd (main naps w)) = log w ++ evs
       /\ NoDup (q_id <$> presented evs)
       /\ one_at_a_time (exchange evs))
  /\ (forall data q rest seen,
        Codec.as_question data = Some q -> q_id q ∈ seen ->
        serve (data :: rest) seen = serve rest seen)
  /\ (forall seen w d,
        mailbox w = Some d -> listable d = true ->
        StronglySorted String.le (pending_files d)
        /\ (forall f, f ∈ pending_files d
                      <-> is_question_file f = true /\ is_Some (files d !! f))
        /\ exists evs,
             log (snd (iteration seen w)) = log w ++ evs
             /\ sublist (presented evs) (omap (question_in d) (pending_files d)))
  /\ (forall seen w d answers rest,
        mailbox w = Some d -> writable d = true -> listable d = true ->
        Forall (legible d) (pending_files d) ->
        Disk.plain_requests (mailbox w) ->
        Forall answer answers ->
        (length (omap (question_in d) (pending_files d)) <= length answers)%nat ->
        stdin w = typed answers ++ rest ->
        exists ps used unused,
          answers = used ++ unused /\ length used = length ps
          /\ due seen (omap (question_in d) (pending_files d)) ps
          /\ Disk.iteration seen w = iteration seen w
          /\ fst (iteration seen w) = Val (list_to_set (q_id <$> ps) ∪ seen)
          /\ log (snd (iteration seen w))
             = log w ++ [EvExistsDir; EvReaddir] ++ (EvRead <$> pending_files d)
               ++ exchanged (clock w) ps used
          /\ stdin (snd (iteration seen w)) = typed unused ++ rest).
Proof.
  split; [exact main_serves|]. split; [|split].
  - intros data q rest seen Hq Hseen. cbn [serve]. rewrite Hq. by case_decide.
  - intros seen w d Hm Hl. split; [apply pending_files_sorted|].
    split; [apply elem_of_pending_files|].
    by apply iteration_presents_in_file_order.
  - intros seen w d answers rest Hm Hw Hl Hleg Hplain Hans Hlen Hin.
    destruct (iteration_due seen w d answers rest Hm Hw Hl Hleg Hans Hlen Hin)
      as (ps & used & unused & Ha & Hlu & Hdue & Hr & Hlog & Hstdin & _).
    exists ps, used, unused. by rewrite iteration_plain.
Qed.

(** X21. A whole pass of the Responder, [path.join] in place. When every
    request file holds a question, the ids are plain, distinct and not yet
    processed, and the human types one answer for each, one iteration
    presents the questions in the order of their files; writes after each the
    reply made from its answer, into the reply file of its id; adds the ids
    to the processed set; uses up exactly the lines typed; and leaves every
    file that is not one of these reply files as it was. *)
Theorem every_pending_request_is_answered_in_turn
    (seen : gset string) (w : world) (d : Dir) (qs : list Question)
    (answers : list (list string)) (rest : list string) :
  mailbox w = Some d -> writable d = true -> listable d = true ->
  Forall2 (fun f q => question_in d f = Some q) (pending_files d) qs ->
  Forall (fun q => plain (q_id q) = true) qs ->
  NoDup (q_id <$> qs) -> (forall q, q ∈ qs -> q_id q ∉ seen) ->
  Forall2 (fun _ lines => answer lines) qs answers ->
  stdin w = typed answers ++ rest ->
  let run := Disk.iteration seen w in
  fst run = Val (list_to_set (q_id <$> qs) ∪ seen)
  /\ log (snd run)
     = log w ++ [EvExistsDir; EvReaddir] ++ (EvRead <$> pending_files d)
       ++ exchanged (clock w) qs answers
  /\ stdin (snd run) = rest
  /\ Forall2 (fun q lines =>
                file_of (mailbox (snd run)) (response_file (q_id q))
                = Some (Codec.stringify_Response (reply_to q lines (clock w))))
       qs answers
  /\ (forall f, (forall q, q ∈ qs -> f <> response_file (q_id q)) ->
                file_of (mailbox (snd run)) f = file_of (mailbox w) f).
Proof.
  intros Hm Hw Hl Hfiles Hplain Hnd Hseen Hans Hin run. unfold run.
  assert (omap (question_in d) (pending_files d) = qs) as Hqs.
  { clear -Hfiles. induction Hfiles as [|f q fs qs Hq _ IH]; [done|].
    cbn. by rewrite Hq, IH. }
  rewrite iteration_plain by (rewrite Hm; apply plain_requests_of; by rewrite Hqs).
  unfold iteration, bind.
  rewrite (getPendingQuestions_listing w d Hm Hl).
  set (w0 := logged [EvExistsDir; EvReaddir] w).
  destruct (read_questions_all d _ qs Hfiles w0 Hm) as (datas & -> & Hdatas).
  destruct (serve_all datas qs Hdatas answers seen
              (logged (EvRead <$> pending_files d) w0) d rest)
    as (w' & -> & Hlog & Hstdin & _ & Hreplies & Hframe); try done.
  cbn [fst snd]. split; [done|]. split; [|done].
  rewrite Hlog. cbn. by rewrite <- !app_assoc.
Qed.

End LoopFacts.

(** ** The Requester among other processes *)

Module AmidFacts.
Import World Ipc Requester WorldFacts Traces RequesterFacts Call CallFacts.
Local Open Scope io_scope.


(** *** Without other processes at work *)


Lemma amid_poll_unfold qf rf ts tm st (now : Amid.Gaps)
    (later : list (interval * Amid.Gaps)) (w : world) :
  Amid.poll qf rf ts tm st now later w
  = match Amid.tick now qf rf ts tm st w with
    | (Val (Some result), w1) => (Val (Some result), w1)
    | (Val None, w1) =>
        match later with
        | [] => (Val None, w1)
        | (nap, next) :: rest => Amid.poll qf rf ts tm st next rest (during nap w1)
        end
    | (Throw e, w1) => (Throw e, w1)
    | (Halt h, w1) => (Halt h, w1)
    end.
Proof.
  destruct later as [|[nap next] rest]; cbn [Amid.poll]; unfold bind at 1;
    destruct (Amid.tick now qf rf ts tm st w) as [[[o|]|e|h] w1]; reflexivity.
Qed.




(** *** With other processes at work *)






Lemma amid_tick_aborted (g : Amid.Gaps) qf rf ts tm st (w : world) :
  aborted w = true ->
  Amid.tick g qf rf ts tm st w
  = (Amid.unlink_if_exists (Amid.in_request_deletion g) qf ;;
     ret (Some aborted_result)) w.
Proof. intros H. unfold Amid.tick, bind at 1, abort_aborted. by rewrite H. Qed.

Lemma amid_tick_timed_out (g : Amid.Gaps) qf rf ts tm st (w : world) :
  aborted w = false -> (clock w - st >? tm) = true ->
  Amid.tick g qf rf ts tm st w
  = (Amid.unlink_if_exists (Amid.in_request_deletion g) qf ;;
     ret (Some (timeout_result ts))) w.
Proof.
  intros Ha Ht. unfold Amid.tick, bind at 1, abort_aborted. rewrite Ha.
  unfold bind at 1, Date_now. by rewrite Ht.
Qed.

(** Past the two checks nothing thrown leaves the iteration, whatever the
    other processes do. *)
Lemma amid_tick_reply_path_never_throws (g : Amid.Gaps) qf rf ts tm st
    (w : world) (e : exn) :
  aborted w = false -> (clock w - st >? tm) = false ->
  fst (Amid.tick g qf rf ts tm st w) <> Throw e.
Proof.
  intros Ha Ht. unfold Amid.tick, bind at 1, abort_aborted. rewrite Ha.
  unfold bind at 1, Date_now. rewrite Ht. unfold bind at 1.
  destruct (existsSync rf w) as [[[]|e1|h1] w1] eqn:E; try done.
  unfold try_catch.
  match goal with |- context [?m w1] => destruct (m w1) as [[o|e2|h2] w2] end;
    done.
Qed.


Lemma appends_with_mailbox (P : event -> Prop) (m : option Dir) (w w' : world) :
  appends P w w' -> appends P w (with_mailbox m w').
Proof. done. Qed.








(** *** Whatever the other processes do *)

Lemma unlinkSync_throws (f : string) (w : world) (e : exn) :
  fst (unlinkSync f w) = Throw e -> Amid.fs_error e.
Proof.
  destruct w as [[d|] c a i l];
    unfold unlinkSync, bind, emit, get_mailbox, set_mailbox, throw; cbn.
  - destruct (files d !! f); [destruct (writable d)|]; cbn; intros [=]; subst;
      by eexists _, _.
  - intros [= <-]. by eexists _, _.
Qed.

Lemma amid_unlink_throws (between : option Dir -> option Dir) (f : string)
    (w : world) (e : exn) :
  fst (Amid.unlink_if_exists between f w) = Throw e -> Amid.fs_error e.
Proof.
  unfold Amid.unlink_if_exists. unfold bind at 1.
  destruct (existsSync f w) as [[b|e1|h1] w1] eqn:E; [|by revert E..].
  unfold bind, Amid.meanwhile. destruct b; [apply unlinkSync_throws|done].
Qed.

Lemma amid_tick_throws_fs (g : Amid.Gaps) qf rf ts tm st (w : world) (e : exn) :
  fst (Amid.tick g qf rf ts tm st w) = Throw e -> Amid.fs_error e.
Proof.
  pose proof (amid_unlink_throws (Amid.in_request_deletion g) qf w e) as Hu.
  destruct (aborted w) eqn:Ha.
  { rewrite amid_tick_aborted by done. unfold bind, ret.
    destruct (Amid.unlink_if_exists _ qf w) as [[[]|e'|h] w1]; cbn in *; try done.
    intros [= ->]. by apply Hu. }
  destruct (clock w - st >? tm) eqn:Ht.
  { rewrite amid_tick_timed_out by done. unfold bind, ret.
    destruct (Amid.unlink_if_exists _ qf w) as [[[]|e'|h] w1]; cbn in *; try done.
    intros [= ->]. by apply Hu. }
  intros H. by apply amid_tick_reply_path_never_throws in H.
Qed.

Lemma amid_poll_throws_fs qf rf ts tm st (later : list (interval * Amid.Gaps))
    (now : Amid.Gaps) (w : world) (e : exn) :
  fst (Amid.poll qf rf ts tm st now later w) = Throw e -> Amid.fs_error e.
Proof.
  revert now w. induction later as [|[nap next] later IH]; intros now w;
    rewrite amid_poll_unfold;
    pose proof (amid_tick_throws_fs now qf rf ts tm st w e) as Ht;
    destruct (Amid.tick now qf rf ts tm st w) as [[[o|]|e'|h] w1]; cbn [fst] in *;
    try done; try (intros [= ->]; by apply Ht).
  apply IH.
Qed.

Lemma amid_await_response_throws_fs (id : string) ts st (now : Amid.Gaps)
    (later : list (interval * Amid.Gaps)) (handler : Amid.Gaps) (w : world) (e : exn) :
  fst (Amid.await_response id ts st now later handler w) = Throw e -> Amid.fs_error e.
Proof.
  unfold Amid.await_response, try_catch.
  pose proof (amid_poll_throws_fs (question_file id) (response_file id) ts (ts * 1000)
                st later now w) as Hp.
  destruct (Amid.poll _ _ _ _ _ _ _ w) as [[o|e0|h] w1]; cbn [fst] in *; try done.
  unfold bind at 1.
  pose proof (amid_unlink_throws (Amid.in_request_deletion handler)
                (question_file id) w1 e) as H1.
  destruct (Amid.unlink_if_exists _ (question_file id) w1) as [[[]|e1|h1] w2];
    cbn [fst] in *; try done; [|intros [= ->]; by apply H1].
  unfold bind at 1, Amid.meanwhile at 1. unfold bind.
  set (w3 := with_mailbox _ w2).
  pose proof (amid_unlink_throws (Amid.before_reply_deletion handler)
                (response_file id) w3 e) as H2.
  destruct (Amid.unlink_if_exists _ (response_file id) w3) as [[[]|e2|h2] w4];
    cbn [fst] in *; try done; [|intros [= ->]; by apply H2].
  unfold throw. intros [= <-]. by apply Hp.
Qed.



(** X13. Only errors of file-system calls leave a call: an exception
    thrown by [execute] is the error of an [fs] call; what [JSON.parse] or a
    property access throws never leaves it. The same holds of the wait for
    the reply whatever other processes do between the calls of the
    Requester. *)
Theorem only_file_system_errors_leave_the_call :
  (forall args context random naps w e,
     fst (execute args context random naps w) = Throw e ->
     Amid.fs_error e /\ e <> SyntaxError /\ e <> TypeError)
  /\ (forall id ts st now later handler w e,
        fst (Amid.await_response id ts st now later handler w) = Throw e ->
        Amid.fs_error e /\ e <> SyntaxError /\ e <> TypeError).
Proof.
  assert (forall e, Amid.fs_error e ->
                    Amid.fs_error e /\ e <> SyntaxError /\ e <> TypeError) as Hfs.
  { intros e (code & f & ->). split; [by eexists _, _|done]. }
  split.
  - intros args context random naps w e H. apply Hfs.
    assert (denied e) as [f ->]; [|by eexists _, _].
    rewrite execute_cases in H. destruct (permits_changes (mailbox w)).
    + by eapply await_response_throws.
    + cbn in H. injection H as <-. by eexists.
  - intros id ts st now later handler w e H. apply Hfs.
    by eapply AmidFacts.amid_await_response_throws_fs.
Qed.

End AmidFacts.

(** ** The theorems at sample worlds *)

Module Witnesses.
Import World Ipc Scenarios Cases Pass.

Lemma answered_text_round_trip_witness :
  fst (Requester.tick (question_file "q_1_ab") (response_file "q_1_ab") 300 300000 1650
         (snd (Responder.promptUser asked answering)))
  = Val (Some (Requester.mkResult true (Some (JStr "Use option B")) false None)).
Proof.
  eapply (RoundTrip.answered_text_round_trip asked answering
            (mkDir true true _) ["Use option B"] []); try reflexivity.
  discriminate.
Defined.

Lemma cancel_word_yields_user_cancelled_witness :
  fst (Requester.tick (question_file "q_1_ab") (response_file "q_1_ab") 300 300000 1650
         (snd (Responder.promptUser asked cancelling)))
  = Val (Some (Requester.mkResult false (Some (JStr "")) true
                 (Some "User cancelled the request"))).
Proof.
  eapply (RoundTrip.cancel_word_yields_user_cancelled asked cancelling
            (mkDir true true _) [" CanCel"] []); reflexivity.
Defined.

Lemma cancellation_then_timeout_then_reply_witness :
  exists w2 evs,
    Requester.await_response "q" 1 0 ([] ++ overtaken :: []) waiting
    = (Val (Some Requester.aborted_result), w2)
    /\ file_of (mailbox w2) (response_file "q") = Some late_reply
    /\ log w2 = [EvExists (response_file "q")] ++ evs
    /\ (evs = [EvExists (question_file "q")]
        \/ evs = [EvExists (question_file "q"); EvUnlink (question_file "q") None]).
Proof.
  apply (RequesterFacts.cancellation_then_timeout_then_reply
           "q" 1 0 [] [] overtaken waiting (logged [EvExists (response_file "q")] waiting)).
  - reflexivity.
  - left. reflexivity.
  - reflexivity.
Defined.

Lemma unparsable_reply_is_left_for_the_next_tick_witness :
  Requester.tick (question_file "q") (response_file "q") 300 300000 0 half_written
  = (Val None, logged [EvExists (response_file "q"); EvRead (response_file "q")] half_written)
  /\ Requester.poll (question_file "q") (response_file "q") 300 300000 0 [uneventful]
       half_written
     = (Val None,
        logged [EvExists (response_file "q"); EvRead (response_file "q")]
          (during uneventful
             (logged [EvExists (response_file "q"); EvRead (response_file "q")]
                half_written))).
Proof.
  apply (RequesterFacts.unparsable_reply_is_left_for_the_next_tick
           (question_file "q") (response_file "q") 300 300000 0 half_written "{"
           uneventful); reflexivity.
Defined.

Lemma timeout_and_abort_leave_the_reply_witness :
  let w' := snd (Requester.await_response "q" 1 0 [] expired) in
  exists w1 evs,
    Requester.iteration_begins (question_file "q") (response_file "q") 1 (1 * 1000) 0
      [] expired w1
    /\ Requester.tick (question_file "q") (response_file "q") 1 (1 * 1000) 0 w1
       = (Val (Some (Requester.timeout_result 1)), w')
    /\ file_of (mailbox w') (response_file "q") = file_of (mailbox w1) (response_file "q")
    /\ (forall f, f <> question_file "q" ->
          file_of (mailbox w') f = file_of (mailbox w1) f)
    /\ log w' = log w1 ++ evs
    /\ (evs = [EvExists (question_file "q")]
        \/ evs = [EvExists (question_file "q"); EvUnlink (question_file "q") None]).
Proof.
  apply (RequesterFacts.timeout_and_abort_leave_the_reply "q" 1 0 [] expired).
  - reflexivity.
  - right. reflexivity.
Defined.

Example expired_call_keeps_the_reply :
  fst (Requester.await_response "q" 1 0 [] expired)
  = Val (Some (Requester.timeout_result 1))
  /\ file_of (mailbox (snd (Requester.await_response "q" 1 0 [] expired)))
       (response_file "q") = Some late_reply
  /\ file_of (mailbox (snd (Requester.await_response "q" 1 0 [] expired)))
       (question_file "q") = None.
Proof. repeat split. Qed.



Lemma two_requests_plain : Disk.plain_requests (mailbox two_requests).
Proof.
  apply (LoopFacts.plain_requests_of two_requests_dir).
  change (Forall (fun q => Paths.plain (q_id q) = true) both).
  repeat constructor.
Qed.

Lemma responder_deletes_nothing_witness :
  Disk.main [uneventful] two_requests = Responder.main [uneventful] two_requests
  /\ Responder.only_replies_written (mailbox two_requests)
       (mailbox (snd (Disk.main [uneventful] two_requests)))
  /\ file_of (mailbox (snd (Disk.main [uneventful] two_requests))) "notes.txt"
     = Some "not a request".
Proof.
  destruct (proj2 (proj2 (DiskFacts.responder_deletes_nothing [uneventful] two_requests)))
    as (E & K & F).
  - repeat constructor.
  - apply two_requests_plain.
  - split; [exact E|]. split; [exact K|]. by rewrite F.
Defined.

Lemma io_failure_ends_the_responder_witness :
  Responder.main [Cases.locking; uneventful] fresh
  = (Halt (Exit 1),
     logged [EvExistsDir; EvReaddir; EvConsoleError (FsError EACCES "")]
       (during Cases.locking
          (mkWorld (Some (mkDir true true ∅)) 0 false []
             [EvExistsDir; EvMkdir; EvReaddir]))).
Proof.
  apply (proj1 (proj2 LoopFacts.io_failure_ends_the_responder)
           [Cases.locking; uneventful] fresh ∅
           (during Cases.locking
              (mkWorld (Some (mkDir true true ∅)) 0 false []
                 [EvExistsDir; EvMkdir; EvReaddir]))
           (mkDir false true ∅)).
  - right.
    exists [], Cases.locking, [uneventful],
      (mkWorld (Some (mkDir true true ∅)) 0 false [] [EvExistsDir; EvMkdir; EvReaddir]).
    split; [reflexivity|]. split; [|reflexivity]. reflexivity.
  - reflexivity.
  - reflexivity.
Defined.

Lemma each_request_presented_once_in_file_order_witness :
  exists ps used unused,
    [["two"]; ["later"]] = used ++ unused /\ length used = length ps
    /\ Loop.due {["q_1_a"]} both ps
    /\ Disk.iteration {["q_1_a"]} one_processed
       = Responder.iteration {["q_1_a"]} one_processed
    /\ fst (Responder.iteration {["q_1_a"]} one_processed)
       = Val (list_to_set (q_id <$> ps) ∪ {["q_1_a"]})
    /\ log (snd (Responder.iteration {["q_1_a"]} one_processed))
       = log one_processed ++ [EvExistsDir; EvReaddir]
         ++ (EvRead <$> Responder.pending_files two_requests_dir)
         ++ exchanged (clock one_processed) ps used
    /\ stdin (snd (Responder.iteration {["q_1_a"]} one_processed))
       = typed unused ++ [].
Proof.
  apply (proj2 (proj2 (proj2 LoopFacts.each_request_presented_once_in_file_order))
           {["q_1_a"]} one_processed two_requests_dir [["two"]; ["later"]] []).
  - reflexivity.
  - reflexivity.
  - reflexivity.
  - change (Forall (Loop.legible two_requests_dir)
              [question_file "q_1_a"; question_file "q_2_b"]).
    repeat constructor; vm_compute; eauto.
  - apply two_requests_plain.
  - repeat constructor; discriminate.
  - vm_compute. lia.
  - reflexivity.
Defined.

End Witnesses.

(** ** The further theorems at sample worlds *)

Module CaseChecks.
Import World Ipc Scenarios Cases Call Round Pass Partial Texts.
Import NameFacts ResponderScan AnswerFacts CallFacts RoundFacts PassFacts.

Lemma generated_ids_differ_witness :
  clock waiting = clock half_written /\ "ab" = "ab".
Proof.
  apply (generated_ids_differ "ab" "ab" waiting half_written). reflexivity.
Defined.

Lemma request_record_reads_back_witness :
  Responder.question_in request_written (question_file "q_1_ab") = Some asked.
Proof.
  apply (request_record_reads_back request_written (question_file "q_1_ab") asked).
  reflexivity.
Defined.

Lemma a_half_written_reply_is_read_again_when_complete_witness :
  Requester.tick (question_file "q") (response_file "q") 300 300000 0 half_written
  = (Val None,
     logged [EvExists (response_file "q"); EvRead (response_file "q")] half_written)
  /\ fst (Requester.poll (question_file "q") (response_file "q") 300 300000 0
            [completed] half_written)
     = Val (Some (Requester.answered_result (Some (JStr "B")))).
Proof.
  apply (a_half_written_reply_is_read_again_when_complete "q" 300 300000 0
           half_written (mkResponse "q" "B" true 400) "{" completed
           (put_file (response_file "q")
              (Codec.stringify_Response (mkResponse "q" "B" true 400))
              (mkDir true true
                 (list_to_map [(question_file "q", "{}"); (response_file "q", "{")])))).
  - reflexivity.
  - reflexivity.
  - reflexivity.
  - eexists. split; [|reflexivity]. discriminate.
  - reflexivity.
  - reflexivity.
  - reflexivity.
  - reflexivity.
  - reflexivity.
Defined.

Lemma half_written_request_is_passed_over_witness :
  let w := mkWorld (Some request_begun) 0 false [] [] in
  fst (Responder.getPendingQuestions w)
  = fst (Responder.getPendingQuestions
           (World.with_mailbox (World.without (question_file "q_1_ab") (mailbox w)) w)).
Proof.
  apply (half_written_request_is_passed_over
           (mkWorld (Some request_begun) 0 false [] []) request_begun
           (question_file "q_1_ab") "{" asked).
  - reflexivity.
  - reflexivity.
  - reflexivity.
  - eexists. split; [|reflexivity]. discriminate.
Defined.

Lemma a_returned_call_leaves_no_request_witness :
  let w' := snd (Requester.execute call_args call_context "ab" [arrives] fresh) in
  let o := Requester.answered_result (Some (JStr "B")) in
  file_of (mailbox w') (question_file (id_of "ab" fresh)) = None
  /\ ((exists t, o = Requester.answered_result t) \/ o = Requester.user_cancelled_result ->
      file_of (mailbox w') (response_file (id_of "ab" fresh)) = None).
Proof.
  apply (a_returned_call_leaves_no_request call_args call_context "ab" [arrives] fresh).
  vm_compute. reflexivity.
Defined.

Lemma a_result_tells_what_its_iteration_saw_witness :
  let o := Requester.answered_result (Some (JStr "B")) in
  let id := id_of "ab" fresh in
  let ts := timeout_of call_args in
  exists w1,
    Requester.iteration_begins (question_file id) (response_file id) ts (ts * 1000)
      (clock fresh) [arrives] (started call_args call_context "ab" fresh) w1
    /\ ((o = Requester.aborted_result /\ aborted w1 = true)
        \/ (o = Requester.timeout_result ts /\ aborted w1 = false
            /\ clock w1 - clock fresh > ts * 1000)
        \/ (((exists t, o = Requester.answered_result t)
             \/ o = Requester.user_cancelled_result)
            /\ aborted w1 = false /\ clock w1 - clock fresh <= ts * 1000
            /\ exists text data,
                 file_of (mailbox w1) (response_file id) = Some text
                 /\ Json.parse text = POk data)).
Proof.
  apply (a_result_tells_what_its_iteration_saw call_args call_context "ab" [arrives]
           fresh (snd (Requester.execute call_args call_context "ab" [arrives] fresh))).
  vm_compute. reflexivity.
Defined.

Lemma a_null_reply_is_consumed_without_result_witness :
  let w := mkWorld (Some null_reply) 0 false [] [] in
  let run := Requester.tick (question_file "q") (response_file "q") 300 300000 0 w in
  fst run = Val None
  /\ file_of (mailbox (snd run)) (question_file "q") = None
  /\ file_of (mailbox (snd run)) (response_file "q") = None
  /\ fst (Requester.tick (question_file "q") (response_file "q") 300 300000 0
            (World.during uneventful (snd run)))
     = Val None.
Proof.
  apply (a_null_reply_is_consumed_without_result "q" 300 300000 0
           (mkWorld (Some null_reply) 0 false [] []) null_reply "null" uneventful).
  - reflexivity.
  - reflexivity.
  - reflexivity.
  - reflexivity.
  - reflexivity.
  - reflexivity.
  - intros m. reflexivity.
  - reflexivity.
  - reflexivity.
Defined.

Lemma a_reply_is_judged_by_truthiness_witness :
  let w := mkWorld (Some odd_reply) 0 false [] [] in
  let run := Requester.tick (question_file "q") (response_file "q") 300 300000 0 w in
  fst run = Val (Some (Requester.answered_result (Some (JNum 5))))
  /\ file_of (mailbox (snd run)) (question_file "q") = None
  /\ file_of (mailbox (snd run)) (response_file "q") = None.
Proof.
  apply (a_reply_is_judged_by_truthiness "q" 300 300000 0
           (mkWorld (Some odd_reply) 0 false [] []) odd_reply
           (sq "{'responded': 1, 'response': 5}")
           (JObj [("responded", JNum 1); ("response", JNum 5)])).
  - reflexivity.
  - reflexivity.
  - reflexivity.
  - reflexivity.
  - reflexivity.
  - reflexivity.
  - discriminate.
Defined.

Lemma unwritable_mailbox_fails_the_call_at_once_witness :
  let run := Requester.execute call_args call_context "ab" [uneventful] read_only in
  fst run = Throw (FsError EACCES (question_file (id_of "ab" read_only)))
  /\ mailbox (snd run) = mailbox read_only
  /\ log (snd run)
     = log read_only
       ++ [EvExistsDir;
           EvWrite (question_file (id_of "ab" read_only))
             (Codec.stringify_Question (record_of call_args call_context "ab" read_only))].
Proof.
  apply (unwritable_mailbox_fails_the_call_at_once call_args call_context "ab"
           [uneventful] read_only
           (mkDir true false
              {[question_file "q_1_ab" := Codec.stringify_Question asked]})).
  - reflexivity.
  - reflexivity.
Defined.

Lemma no_request_nothing_presented_witness :
  exists evs,
    Responder.iteration ∅ fresh
    = (Val ∅,
       World.with_mailbox (Some (default (mkDir true true ∅) (mailbox fresh)))
         (World.logged evs fresh))
    /\ (evs = [EvExistsDir; EvReaddir] \/ evs = [EvExistsDir; EvMkdir; EvReaddir]).
Proof.
  apply (no_request_nothing_presented ∅ fresh).
  - intros f _. reflexivity.
  - intros d. discriminate.
Defined.

Lemma blank_answer_is_an_empty_response_witness :
  let record := Codec.stringify_Response (mkResponse "q_1_ab" "" true 1700) in
  fst (Responder.promptUser asked blanks_typed) = Val tt
  /\ file_of (mailbox (snd (Responder.promptUser asked blanks_typed)))
       (response_file "q_1_ab") = Some record
  /\ (forall ts tm st w2 d2,
        aborted w2 = false -> (clock w2 - st >? tm) = false ->
        mailbox w2 = Some d2 -> writable d2 = true ->
        files d2 !! response_file "q_1_ab" = Some record ->
        fst (Requester.tick (question_file "q_1_ab") (response_file "q_1_ab")
               ts tm st w2)
        = Val (Some (Requester.mkResult true (Some (JStr "")) false None))).
Proof.
  apply (blank_answer_is_an_empty_response asked blanks_typed
           (mkDir true true
              (list_to_map [(question_file "q_1_ab", Codec.stringify_Question asked)]))
           ["   "] []).
  - reflexivity.
  - reflexivity.
  - reflexivity.
  - repeat constructor.
Defined.

Lemma a_round_returns_the_answer_and_restores_the_mailbox_witness :
  let q := record_of call_args call_context "ab" fresh in
  let turn := responder_turn ∅ 100 ["Use option B"; ""] 500 false in
  let asked := responder_world (mailbox (started call_args call_context "ab" fresh))
                 100 ["Use option B"; ""] in
  Responder.presented (log (snd (Responder.iteration ∅ asked))) = [q]
  /\ fst (Requester.execute call_args call_context "ab" [turn] fresh)
     = Val (Some (Requester.answered_result (Some (JStr "Use option B"))))
  /\ mailbox (snd (Requester.execute call_args call_context "ab" [turn] fresh))
     = Some (mkDir true true ∅).
Proof.
  apply (a_round_returns_the_answer_and_restores_the_mailbox call_args call_context
           "ab" fresh ∅ 100 500 ["Use option B"; ""] ["Use option B"] []).
  - reflexivity.
  - reflexivity.
  - reflexivity.
  - vm_compute. discriminate.
  - vm_compute. discriminate.
  - intros f _. apply lookup_empty.
  - apply lookup_empty.
  - apply not_elem_of_empty.
  - reflexivity.
Defined.

Lemma a_half_written_request_is_presented_once_complete_witness :
  let file := question_file "q_1_ab" in
  let reply := response_file "q_1_ab" in
  let text := Codec.stringify_Response
                (Responder.reply_to asked ["Use option B"] 500) in
  let run := Responder.main_loop ∅ [request_completed]
               (mkWorld (Some request_begun) 0 false ["Use option B"; ""] []) in
  fst run = Val ({["q_1_ab"]} ∪ ∅)
  /\ log (snd run)
     = [] ++ [EvExistsDir; EvReaddir; EvRead file;
              EvExistsDir; EvReaddir; EvRead file; EvPresent asked; EvWrite reply text]
  /\ file_of (mailbox (snd run)) reply = Some text.
Proof.
  apply (a_half_written_request_is_presented_once_complete
           (mkWorld (Some request_begun) 0 false ["Use option B"; ""] [])
           request_begun asked "{" request_completed ["Use option B"] []).
  - reflexivity.
  - reflexivity.
  - reflexivity.
  - reflexivity.
  - eexists. split; [|reflexivity]. discriminate.
  - intros g _ [t Ht]. unfold request_begun in Ht. cbn in Ht.
    apply lookup_singleton_Some in Ht as [<- _]. reflexivity.
  - reflexivity.
  - reflexivity.
Defined.

Lemma an_unanswered_call_waits_and_times_out_witness :
  let file := question_file "q" in
  let reply := response_file "q" in
  exists w1 w' evs,
    Requester.poll file reply 1 (1 * 1000) 0 [uneventful] waiting = (Val None, w1)
    /\ mailbox w1 = mailbox waiting
    /\ log w1 = log waiting ++ replicate 2 (EvExists reply)
    /\ Requester.await_response "q" 1 0 ([uneventful] ++ overdue :: []) waiting
       = (Val (Some (Requester.timeout_result 1)), w')
    /\ mailbox w' = World.without file (mailbox waiting)
    /\ log w' = log w1 ++ evs
    /\ (evs = [EvExists file] \/ evs = [EvExists file; EvUnlink file None]).
Proof.
  apply (an_unanswered_call_waits_and_times_out "q" 1 0 [uneventful] [] overdue waiting).
  - reflexivity.
  - reflexivity.
  - reflexivity.
  - reflexivity.
  - repeat constructor.
  - intros m. reflexivity.
  - reflexivity.
  - reflexivity.
Defined.

Lemma a_request_that_cannot_be_removed_fails_abort_and_timeout_witness :
  let denied := [EvExists (question_file "q");
                 EvUnlink (question_file "q") (Some EACCES)] in
  Requester.await_response "q" 300 0 [uneventful] request_stuck
  = (Throw (FsError EACCES (question_file "q")),
     World.logged (denied ++ denied) request_stuck).
Proof.
  apply (a_request_that_cannot_be_removed_fails_abort_and_timeout "q" 300 0
           [uneventful] request_stuck
           (mkDir true false {[question_file "q" := "{}"]}) "{}").
  - left. reflexivity.
  - reflexivity.
  - reflexivity.
  - reflexivity.
Defined.

Lemma a_reply_that_cannot_be_removed_is_not_delivered_witness :
  let w := mkWorld (Some reply_stuck) 0 false [] [] in
  fst (Requester.tick (question_file "q") (response_file "q") 300 300000 0 w) = Val None
  /\ mailbox (snd (Requester.tick (question_file "q") (response_file "q")
                     300 300000 0 w))
     = mailbox w.
Proof.
  apply (a_reply_that_cannot_be_removed_is_not_delivered (question_file "q")
           (response_file "q") 300 300000 0
           (mkWorld (Some reply_stuck) 0 false [] []) reply_stuck late_reply).
  - reflexivity.
  - reflexivity.
  - reflexivity.
  - reflexivity.
  - reflexivity.
  - vm_compute. discriminate.
Defined.

Lemma a_call_overdue_from_the_start_returns_at_once_witness :
  let file := question_file (id_of "ab" called_off) in
  let text := Codec.stringify_Question (record_of call_args call_context "ab" called_off) in
  Requester.execute call_args call_context "ab" [uneventful] called_off
  = (Val (Some Requester.aborted_result),
     World.with_mailbox (Some (World.remove_file file (opened (mailbox called_off))))
       (World.logged
          (opening (mailbox called_off)
           ++ [EvWrite file text; EvExists file; EvUnlink file None])
          called_off)).
Proof.
  apply (a_call_overdue_from_the_start_returns_at_once call_args call_context "ab"
           [uneventful] called_off).
  - reflexivity.
  - left. reflexivity.
Defined.

Lemma file_names_identify_the_request_witness :
  Paths.path_join (question_file "q_1_ab") = Some (question_file "q_1_ab")
  /\ Paths.path_join (response_file "q_1_ab") = Some (response_file "q_1_ab")
  /\ (Paths.path_join (question_file "q_1_ab") = Paths.path_join (question_file "q_2_cd")
      -> "q_1_ab" = "q_2_cd")
  /\ (Paths.path_join (response_file "q_1_ab") = Paths.path_join (response_file "q_2_cd")
      -> "q_1_ab" = "q_2_cd")
  /\ Paths.path_join (question_file "q_1_ab") <> Paths.path_join (response_file "q_2_cd")
  /\ (forall random w,
        Paths.plain random = true -> Paths.plain (Call.id_of random w) = true).
Proof.
  apply (PathFacts.file_names_identify_the_request "q_1_ab" "q_2_cd"); reflexivity.
Defined.

Lemma only_file_system_errors_leave_the_call_witness :
  Amid.fs_error (FsError EACCES (question_file (Call.id_of "ab" read_only)))
  /\ FsError EACCES (question_file (Call.id_of "ab" read_only)) <> SyntaxError
  /\ FsError EACCES (question_file (Call.id_of "ab" read_only)) <> TypeError.
Proof.
  apply (proj1 AmidFacts.only_file_system_errors_leave_the_call
           call_args call_context "ab" [uneventful] read_only).
  reflexivity.
Defined.

Lemma every_pending_request_is_answered_in_turn_witness :
  let run := Disk.iteration ∅ two_requests in
  fst run = Val (list_to_set (q_id <$> both) ∪ ∅)
  /\ log (snd run)
     = log two_requests ++ [EvExistsDir; EvReaddir]
       ++ (EvRead <$> Responder.pending_files two_requests_dir)
       ++ exchanged (clock two_requests) both [["one"]; ["two"]]
  /\ stdin (snd run) = []
  /\ Forall2 (fun q lines =>
                file_of (mailbox (snd run)) (response_file (q_id q))
                = Some (Codec.stringify_Response
                          (Responder.reply_to q lines (clock two_requests))))
       both [["one"]; ["two"]]
  /\ (forall f, (forall q, q ∈ both -> f <> response_file (q_id q)) ->
                file_of (mailbox (snd run)) f = file_of (mailbox two_requests) f).
Proof.
  apply (LoopFacts.every_pending_request_is_answered_in_turn ∅ two_requests
           two_requests_dir both [["one"]; ["two"]] []).
  - reflexivity.
  - reflexivity.
  - reflexivity.
  - change (Forall2 (fun f q => Responder.question_in two_requests_dir f = Some q)
              [question_file "q_1_a"; question_file "q_2_b"] both).
    repeat constructor.
  - repeat constructor.
  - repeat constructor; set_solver.
  - intros q _. apply not_elem_of_empty.
  - repeat constructor; discriminate.
  - reflexivity.
Defined.

End CaseChecks.

(** ** Sample runs *)

Module Samples.
Import World Ipc Scenarios.

Example trim_sample :
  JsString.trim (String "009" "  Use option B " +:+ Responder.newline) = "Use option B".
Proof. reflexivity. Qed.

Example lower_sample : JsString.toLowerCase "CaNcEl" = "cancel".
Proof. reflexivity. Qed.

Example is_question_file_sample :
  Responder.is_question_file "question_q_1_ab.json" = true
  /\ Responder.is_question_file "response_q_1_ab.json" = false
  /\ Responder.is_question_file "question_.txt" = false
  /\ Responder.is_question_file "json" = false.
Proof. repeat split. Qed.

Example parse_sample :
  Json.parse (sq "{ 'a': [1, -20, true, null], 'bA': 'x\ny\u0041' ,'c':{}}")
  = POk (JObj [("a", JArr [JNum 1; JNum (-20); JBool true; JNull]);
               ("bA", JStr (String "x" (String "010" "yA"))); ("c", JObj [])]).
Proof. reflexivity. Qed.

Example parse_rejects :
  Json.parse (sq "{ 'a': 1") = PSyntaxError
  /\ Json.parse (sq "{ 'a': 01 }") = PSyntaxError
  /\ Json.parse "" = PSyntaxError
  /\ Json.parse (sq "{ 'a': 1.5 }") = PUnmodelled
  /\ Json.parse "null" = POk JNull.
Proof. repeat split. Qed.

Example stringify_Response_sample :
  Codec.stringify_Response (mkResponse "q_1_ab" (sq "say 'hi'") true 1700)
  = String.concat Responder.newline
      ["{";
       sq "  'id': 'q_1_ab',";
       sq "  'response': 'say \'hi\'',";
       sq "  'responded': true,";
       sq "  'timestamp': 1700";
       "}"].
Proof. reflexivity. Qed.

Example question_codec_sample :
  Json.pbind (Json.parse (Codec.stringify_Question asked))
    (fun v => POk (Codec.as_question v))
  = POk (Some asked).
Proof. reflexivity. Qed.

(** A whole call: the mailbox is created, the question written, the reply
    that arrives during the first wait consumed, both records removed. *)
Example execute_sample :
  let arrives :=
    mkInterval
      (fmap (put_file (response_file "q_0_ab")
               (Codec.stringify_Response (mkResponse "q_0_ab" "B" true 400))))
      500 false in
  let run :=
    Requester.execute (Requester.mkArgs "Which option?" None None)
      (Requester.mkContext "ses" "msg") "ab" [arrives]
      (mkWorld None 0 false [] []) in
  fst run = Val (Some (Requester.answered_result (Some (JStr "B"))))
  /\ mailbox (snd run) = Some (mkDir true true ∅).
Proof. split; reflexivity. Qed.

(** Two requests are read in the order of their file names and taken one
    after the other; the second iteration presents neither again. *)
Example two_requests_sample :
  let evs := log (snd (Responder.main [uneventful] two_requests)) in
  q_id <$> Responder.presented evs = ["q_1_a"; "q_2_b"]
  /\ (fun e => match e with
               | EvPresent q => Some (q_id q)
               | EvWrite f _ => Some f
               | _ => None
               end) <$> Responder.exchange evs
     = [Some "q_1_a"; Some "response_q_1_a.json";
        Some "q_2_b"; Some "response_q_2_b.json"].
Proof. split; reflexivity. Qed.

(** A reply that cannot be written ends the Responder. *)
Example read_only_sample :
  fst (Responder.main [uneventful] read_only)
  = Halt (UncaughtException (FsError EACCES "response_q_1_ab.json")).
Proof. reflexivity. Qed.

(** A reply that parses to [null]: both records are removed before
    [responseData.responded] throws, the error is swallowed, and the loop goes
    on waiting. *)
Example null_reply_sample :
  let w := mkWorld (box [(question_file "q", "{}"); (response_file "q", "null")])
             0 false [] [] in
  let run := Requester.tick (question_file "q") (response_file "q") 300 300000 0 w in
  fst run = Val None /\ mailbox (snd run) = Some (mkDir true true ∅).
Proof. split; reflexivity. Qed.

End Samples.
